(** * echo-repl: the line editor of [readline.c], embedded and verified

    The development follows the C source function by function.  The process
    state (the module statics of [readline.c], the heap blocks that hold the
    history lines, the terminal device and the scripts that say what the
    operating system answers) is one record, [world]; every C function that
    touches it is a function [world -> outcome _].  Integers are [Z] with the
    conversions of the C types written out ([to_size] for [size_t], [to_int]
    for [int], [to_ushort] for [unsigned short]). *)

From Stdlib Require Import String Ascii ZArith List Bool Lia.
Import ListNotations.
Open Scope string_scope.
Open Scope list_scope.
Open Scope Z_scope.

Set Implicit Arguments.

(* ------------------------------------------------------------------ *)
(** ** C integer types *)

Definition SIZE_MOD : Z := 2 ^ 64.
Definition INT_MAX : Z := 2 ^ 31 - 1.

(** conversion to [size_t] (LP64) *)
Definition to_size (z : Z) : Z := z mod SIZE_MOD.

(** conversion to [int] *)
Definition to_int (z : Z) : Z := (z + 2 ^ 31) mod 2 ^ 32 - 2 ^ 31.

(** conversion to [unsigned short] *)
Definition to_ushort (z : Z) : Z := z mod 2 ^ 16.

(** the value of a [char] object holding byte [b] ([char] is signed on the
    platform the README names) *)
Definition schar (b : Z) : Z :=
  let m := b mod 256 in if m <? 128 then m else m - 256.

(** the byte stored when an [int] is assigned to a [char] *)
Definition byte_of_int (k : Z) : Z := k mod 256.

Definition chr (a : ascii) : Z := Z.of_N (N_of_ascii a).

Fixpoint bytes (s : string) : list Z :=
  match s with
  | EmptyString => []
  | String a r => chr a :: bytes r
  end.

Definition zlen {A} (l : list A) : Z := Z.of_nat (length l).

(* ------------------------------------------------------------------ *)
(** ** Keys ([enum TermKey], [CTRL_KEY]) *)

Definition CTRL_KEY (k : Z) : Z := Z.land k 31.

Definition KEY_ENTER : Z := 13.
Definition KEY_ESC : Z := 27.
Definition KEY_BACKSPACE : Z := 127.
Definition KEY_ARROW_UP : Z := 1000.
Definition KEY_ARROW_DOWN : Z := 1001.
Definition KEY_ARROW_RIGHT : Z := 1002.
Definition KEY_ARROW_LEFT : Z := 1003.
Definition KEY_DELETE : Z := 1004.
Definition KEY_HOME : Z := 1005.
Definition KEY_END : Z := 1006.
Definition KEY_PAGE_UP : Z := 1007.
Definition KEY_PAGE_DOWN : Z := 1008.

(** The values for which <ctype.h> defines its functions: those of
    [unsigned char], and [EOF] (C11 7.4p1). *)
Definition ctype_domain (c : Z) : bool := (-1 <=? c) && (c <=? 255).

(** [isprint] of <ctype.h> in the "C" locale.  [rl_read_line] hands it
    every key [read_key] returns, also negative [char] values and the key
    codes from 1000 on, which lie outside [ctype_domain]: the standard does
    not say what the call does there.  The model goes on with the answer 0,
    the one under which such a key reaches the [switch]; what is stated
    below about accesses outside an object is stated for keys inside
    [ctype_domain] only. *)
Definition isprint (k : Z) : bool := (32 <=? k) && (k <=? 126).

Inductive ReadLineResult : Type := RL_SUCCESS | RL_EOF | RL_SIGINT.

(* ------------------------------------------------------------------ *)
(** ** The terminal device and [struct termios] *)

Record termios : Type := mk_termios {
  c_iflag : Z;
  c_oflag : Z;
  c_lflag : Z;
  c_cflag : Z;
  c_cc_VMIN : Z;
  c_cc_VTIME : Z
}.

(** Flag values of <termios.h> (Linux); no statement below depends on the
    numbers. *)
Module Flags.
Definition IGNBRK := 1.
Definition BRKINT := 2.
Definition PARMRK := 8.
Definition ISTRIP := 32.
Definition INLCR := 64.
Definition IGNCR := 128.
Definition ICRNL := 256.
Definition IXON := 1024.
Definition OPOST := 1.
Definition ISIG := 1.
Definition ICANON := 2.
Definition ECHO := 8.
Definition ECHONL := 64.
Definition IEXTEN := 32768.
Definition CSIZE := 48.
Definition PARENB := 256.
Definition CS8 := 48.
End Flags.

Definition lor_all (l : list Z) : Z := fold_right Z.lor 0 l.

(** the attributes [enable_raw_mode] builds from the saved ones *)
Definition raw_of (t : termios) : termios :=
  let iflag := Z.land (c_iflag t)
      (Z.lnot (lor_all [Flags.IGNBRK; Flags.BRKINT; Flags.PARMRK; Flags.ISTRIP;
                        Flags.INLCR; Flags.IGNCR; Flags.ICRNL; Flags.IXON])) in
  let oflag := Z.land (c_oflag t) (Z.lnot Flags.OPOST) in
  let lflag := Z.land (c_lflag t)
      (Z.lnot (lor_all [Flags.ECHO; Flags.ECHONL; Flags.ICANON; Flags.ISIG;
                        Flags.IEXTEN])) in
  let cflag := Z.land (c_cflag t) (Z.lnot (Z.lor Flags.CSIZE Flags.PARENB)) in
  let cflag := Z.lor cflag Flags.CS8 in
  mk_termios iflag oflag lflag cflag 0 1.

(** one answer of [read(STDIN_FILENO, &c, 1)]: a byte (return value 1), a
    timeout (return value 0), the timeout as Cygwin reports it (-1 with
    [errno] set to [EAGAIN]), or another error (-1, [errno] set) *)
Inductive read_event : Type :=
| RByte (b : Z)
| RTimeout
| RAgain
| RError.

(** values of <errno.h> (Linux); the code compares [errno] with 0 and with
    [EAGAIN] only *)
Definition EIO : Z := 5.
Definition EAGAIN : Z := 11.
Definition ENOMEM : Z := 12.
Definition ENOTTY : Z := 25.

(* ------------------------------------------------------------------ *)
(** ** Process state *)

(** A heap block is the array of bytes behind one [malloc]; a pointer is
    the number of its block.  The history vector holds pointers, so the
    line being edited ([current_buf]) aliases a history entry. *)
Definition block : Type := list Z.
Definition ptr : Type := nat.

Record world : Type := mk_world {
  (* the device *)
  term : termios;                 (* attributes currently in force *)
  input : list read_event;        (* answers of the coming [read] calls; after
                                     the last one every [read] times out *)
  output : list Z;                (* bytes written to the terminal so far *)
  (* what the system answers: [true] = the next call of that kind fails
     (-1, or [NULL], with [errno] set); an empty script = no further
     failure *)
  write_faults : list bool;
  tcget_faults : list bool;
  tcset_faults : list bool;
  malloc_faults : list bool;
  (* the statics of readline.c *)
  original_state : termios;
  raw_mode_enabled : bool;
  history : option (list ptr);    (* [NULL] or the vector of [char *] *)
  history_index : Z;
  (* the heap *)
  heap : list block;
  (* the C library: [errno], 0 when the process starts; a call that fails
     sets it, a call that succeeds leaves it alone *)
  errno : Z
}.

Definition set_term t w :=
  mk_world t (input w) (output w) (write_faults w) (tcget_faults w)
    (tcset_faults w) (malloc_faults w) (original_state w)
    (raw_mode_enabled w) (history w) (history_index w) (heap w) (errno w).
Definition set_input i w :=
  mk_world (term w) i (output w) (write_faults w) (tcget_faults w)
    (tcset_faults w) (malloc_faults w) (original_state w)
    (raw_mode_enabled w) (history w) (history_index w) (heap w) (errno w).
Definition set_output o w :=
  mk_world (term w) (input w) o (write_faults w) (tcget_faults w)
    (tcset_faults w) (malloc_faults w) (original_state w)
    (raw_mode_enabled w) (history w) (history_index w) (heap w) (errno w).
Definition set_write_faults f w :=
  mk_world (term w) (input w) (output w) f (tcget_faults w)
    (tcset_faults w) (malloc_faults w) (original_state w)
    (raw_mode_enabled w) (history w) (history_index w) (heap w) (errno w).
Definition set_tcget_faults f w :=
  mk_world (term w) (input w) (output w) (write_faults w) f
    (tcset_faults w) (malloc_faults w) (original_state w)
    (raw_mode_enabled w) (history w) (history_index w) (heap w) (errno w).
Definition set_tcset_faults f w :=
  mk_world (term w) (input w) (output w) (write_faults w) (tcget_faults w)
    f (malloc_faults w) (original_state w)
    (raw_mode_enabled w) (history w) (history_index w) (heap w) (errno w).
Definition set_malloc_faults f w :=
  mk_world (term w) (input w) (output w) (write_faults w) (tcget_faults w)
    (tcset_faults w) f (original_state w)
    (raw_mode_enabled w) (history w) (history_index w) (heap w) (errno w).
Definition set_original_state t w :=
  mk_world (term w) (input w) (output w) (write_faults w) (tcget_faults w)
    (tcset_faults w) (malloc_faults w) t
    (raw_mode_enabled w) (history w) (history_index w) (heap w) (errno w).
Definition set_raw_mode_enabled b w :=
  mk_world (term w) (input w) (output w) (write_faults w) (tcget_faults w)
    (tcset_faults w) (malloc_faults w) (original_state w)
    b (history w) (history_index w) (heap w) (errno w).
Definition set_history h w :=
  mk_world (term w) (input w) (output w) (write_faults w) (tcget_faults w)
    (tcset_faults w) (malloc_faults w) (original_state w)
    (raw_mode_enabled w) h (history_index w) (heap w) (errno w).
Definition set_history_index i w :=
  mk_world (term w) (input w) (output w) (write_faults w) (tcget_faults w)
    (tcset_faults w) (malloc_faults w) (original_state w)
    (raw_mode_enabled w) (history w) i (heap w) (errno w).
Definition set_heap m w :=
  mk_world (term w) (input w) (output w) (write_faults w) (tcget_faults w)
    (tcset_faults w) (malloc_faults w) (original_state w)
    (raw_mode_enabled w) (history w) (history_index w) m (errno w).
Definition set_errno e w :=
  mk_world (term w) (input w) (output w) (write_faults w) (tcget_faults w)
    (tcset_faults w) (malloc_faults w) (original_state w)
    (raw_mode_enabled w) (history w) (history_index w) (heap w) e.

(* ------------------------------------------------------------------ *)
(** ** Outcomes and the monad of C functions *)

Inductive outcome (A : Type) : Type :=
| Done (a : A) (w : world)            (* the function returned [a] *)
| Exited (msg : string) (w : world)   (* [die(msg)] ended the process *)
| Blocked (w : world)                 (* waits for a byte that never comes *)
| Aborted (w : world)                 (* an [assert] failed *)
| Undefined                           (* access outside an object *)
| OutOfFuel.

Arguments Exited {A} msg w.
Arguments Blocked {A} w.
Arguments Aborted {A} w.
Arguments Undefined {A}.
Arguments OutOfFuel {A}.

Definition M (A : Type) : Type := world -> outcome A.

Definition ret {A} (a : A) : M A := fun w => Done a w.

Definition bind {A B} (m : M A) (f : A -> M B) : M B :=
  fun w =>
    match m w with
    | Done a w' => f a w'
    | Exited s w' => Exited s w'
    | Blocked w' => Blocked w'
    | Aborted w' => Aborted w'
    | Undefined => Undefined
    | OutOfFuel => OutOfFuel
    end.

Notation "x <- m ;; k" := (bind m (fun x => k))
  (at level 61, m at next level, right associativity).
Notation "m ;;; k" := (bind m (fun _ => k))
  (at level 61, right associativity).

Definition assert (b : bool) : M unit :=
  fun w => if b then Done tt w else Aborted w.

Definition undefined {A} : M A := fun _ => Undefined.

Definition get {A} (f : world -> A) : M A := fun w => Done (f w) w.
Definition modify (f : world -> world) : M unit := fun w => Done tt (f w).

(* ------------------------------------------------------------------ *)
(** ** System calls *)

Definition next_fault (l : list bool) : bool * list bool :=
  match l with
  | [] => (false, [])
  | b :: r => (b, r)
  end.

(** [write(STDOUT_FILENO, data, len) == len] *)
Definition sys_write (data : list Z) : M bool :=
  fun w =>
    let (failed, r) := next_fault (write_faults w) in
    let w1 := set_write_faults r w in
    if failed then Done false (set_errno EIO w1)
    else Done true (set_output (output w ++ data) w1).

(** [read(STDIN_FILENO, &c, 1)]: [Some c] when it returned 1 *)
Definition read1 (inp : list read_event) : option Z * list read_event :=
  match inp with
  | RByte b :: r => (Some (schar b), r)
  | _ :: r => (None, r)
  | [] => (None, [])
  end.

(** [errno] after reads with the answers [evs], in this order *)
Fixpoint errno_after (evs : list read_event) (e : Z) : Z :=
  match evs with
  | [] => e
  | RError :: r => errno_after r EIO
  | RAgain :: r => errno_after r EAGAIN
  | _ :: r => errno_after r e
  end.

(** the reads that leave [r] of the pending answers have been made: their
    answers are gone, and [errno] is as they left it *)
Definition take_input (r : list read_event) (w : world) : world :=
  mk_world (term w) r (output w) (write_faults w) (tcget_faults w)
    (tcset_faults w) (malloc_faults w) (original_state w)
    (raw_mode_enabled w) (history w) (history_index w) (heap w)
    (errno_after (firstn (length (input w) - length r) (input w)) (errno w)).

Definition sys_read : M (option Z) :=
  fun w => let (c, r) := read1 (input w) in Done c (take_input r w).

(** [tcgetattr(STDIN_FILENO, &t) != -1] *)
Definition tcgetattr : M (option termios) :=
  fun w =>
    let (failed, r) := next_fault (tcget_faults w) in
    let w1 := set_tcget_faults r w in
    if failed then Done None (set_errno ENOTTY w1)
    else Done (Some (term w)) w1.

(** [tcsetattr(STDIN_FILENO, TCSAFLUSH, &t) != -1] *)
Definition tcsetattr (t : termios) : M bool :=
  fun w =>
    let (failed, r) := next_fault (tcset_faults w) in
    let w1 := set_tcset_faults r w in
    if failed then Done false (set_errno ENOTTY w1)
    else Done true (set_term t w1).

(** [malloc(n)]: a fresh block, or [NULL] *)
Definition malloc (n : Z) : M (option ptr) :=
  fun w =>
    let (failed, r) := next_fault (malloc_faults w) in
    let w1 := set_malloc_faults r w in
    if failed then Done None (set_errno ENOMEM w1)
    else Done (Some (length (heap w)))
              (set_heap (heap w ++ [repeat 0 (Z.to_nat n)]) w1).

(* ------------------------------------------------------------------ *)
(** ** Memory *)

Definition blk_read (b : block) (off n : Z) : option (list Z) :=
  if (0 <=? off) && (0 <=? n) && (off + n <=? zlen b)
  then Some (firstn (Z.to_nat n) (skipn (Z.to_nat off) b))
  else None.

Definition blk_write (b : block) (off : Z) (data : list Z) : option block :=
  if (0 <=? off) && (off + zlen data <=? zlen b)
  then Some (firstn (Z.to_nat off) b ++ data
             ++ skipn (Z.to_nat off + length data) b)
  else None.

(** [b[i] = v] *)
Definition blk_store (b : block) (i v : Z) : option block :=
  blk_write b i [v].

(** [memmove(&b[dst], &b[src], n)] *)
Definition blk_memmove (b : block) (dst src n : Z) : option block :=
  match blk_read b src n with
  | Some d => blk_write b dst d
  | None => None
  end.

(** [strlen(b)]; no value when no NUL lies inside the block *)
Fixpoint blk_strlen (b : block) : option Z :=
  match b with
  | [] => None
  | c :: r => if c =? 0 then Some 0 else option_map Z.succ (blk_strlen r)
  end.

Definition replace_nth {A} (n : nat) (x : A) (l : list A) : list A :=
  firstn n l ++ x :: skipn (S n) l.

Definition with_block {A} (p : ptr) (f : block -> option (A * block)) : M A :=
  fun w =>
    match nth_error (heap w) p with
    | None => Undefined
    | Some b =>
        match f b with
        | None => Undefined
        | Some (a, b') => Done a (set_heap (replace_nth p b' (heap w)) w)
        end
    end.

Definition store (p : ptr) (i v : Z) : M unit :=
  with_block p (fun b => option_map (fun b' => (tt, b')) (blk_store b i v)).

Definition memmove (p : ptr) (dst src n : Z) : M unit :=
  with_block p (fun b => option_map (fun b' => (tt, b')) (blk_memmove b dst src n)).

Definition load_bytes (p : ptr) (off n : Z) : M (list Z) :=
  with_block p (fun b => option_map (fun d => (d, b)) (blk_read b off n)).

Definition strlen (p : ptr) : M Z :=
  with_block p (fun b => option_map (fun n => (n, b)) (blk_strlen b)).

(** [memcpy(&b[0], data, len)] into block [p] *)
Definition write_block (p : ptr) (data : list Z) : M unit :=
  with_block p (fun b => option_map (fun b' => (tt, b')) (blk_write b 0 data)).

(* ------------------------------------------------------------------ *)
(** ** The growable vector ([vector.h]) *)

Module Vector.
(** Modelled from the spec: [vector.c] and [vector.h] are not part of the
    sources at hand.  The spec calls the container "a generic resizable
    array used to store fixed-size elements"; [init] is the empty array,
    [push] appends at the end, [get] needs [0 <= index < length]. *)
Definition t : Type := list ptr.

Definition init : t := [].
Definition push (v : t) (x : ptr) : t := List.app v [x].
Definition length (v : t) : Z := zlen v.
Definition get (v : t) (i : Z) : option ptr :=
  if (0 <=? i) && (i <? zlen v) then nth_error v (Z.to_nat i) else None.
End Vector.

(** [vector_length(history)] *)
Definition history_length : M Z :=
  fun w =>
    match history w with
    | None => Undefined
    | Some v => Done (Vector.length v) w
    end.

(** [*((char ** )vector_get(history, i))] *)
Definition history_get (i : Z) : M ptr :=
  fun w =>
    match history w with
    | None => Undefined
    | Some v =>
        match Vector.get v i with
        | None => Undefined
        | Some p => Done p w
        end
    end.

(* ------------------------------------------------------------------ *)
(** ** [die], [disable_raw_mode], [enable_raw_mode] *)

(** what [die] prints before it leaves.  The message goes to [stderr],
    which is no part of [world].  With [errno] clear, [putchar] adds a
    newline to [stdout], and [exit] sends what [stdout] holds to the
    terminal; [readline.c] puts nothing else there. *)
Definition report_error : M unit :=
  e <- get errno ;;
  if e =? 0 then modify (fun w => set_output (output w ++ [10]) w)
  else ret tt.

(** [exit(EXIT_FAILURE)]; [msg] is the message [die] was given *)
Definition exit_failure (msg : string) : M Empty_set :=
  fun w => Exited msg w.

(** [disable_raw_mode], with the [die] it calls as a parameter *)
Definition disable_raw_mode_with (die : string -> M Empty_set) : M unit :=
  t <- get original_state ;;
  ok <- tcsetattr t ;;
  if ok then ret tt
  else (e <- die "failed to disable raw mode (tcsetattr)" ;;
        match e with end).

(** [die] and [disable_raw_mode] call each other; [fuel] bounds the depth
    of that recursion.  [die] clears [raw_mode_enabled] before it calls
    [disable_raw_mode], so the inner [die] takes the branch that asks for
    no fuel (see [die_rec_fuel]). *)
Fixpoint die_rec (fuel : nat) (msg : string) : M Empty_set :=
  fun w =>
    if raw_mode_enabled w then
      match fuel with
      | O => OutOfFuel
      | S n =>
          (modify (set_raw_mode_enabled false) ;;;
           disable_raw_mode_with (die_rec n) ;;;
           report_error ;;;
           exit_failure msg) w
      end
    else (report_error ;;; exit_failure msg) w.

Definition die {A} (msg : string) : M A :=
  e <- die_rec 1 msg ;; match e with end.

Definition disable_raw_mode : M unit := disable_raw_mode_with die.

Definition or_die (ok : bool) (msg : string) : M unit :=
  if ok then ret tt else die msg.

Definition enable_raw_mode : M unit :=
  r <- tcgetattr ;;
  match r with
  | None => die "failed to enable raw mode (tcgetattr)"
  | Some t =>
      modify (set_original_state t) ;;;
      orig <- get original_state ;;
      ok <- tcsetattr (raw_of orig) ;;
      or_die ok "failed to enable raw mode (tcsetattr)" ;;;
      modify (set_raw_mode_enabled true)
  end.

(* ------------------------------------------------------------------ *)
(** ** [read_key] *)

Inductive wait_result : Type :=
| WByte (c : Z) (rest : list read_event)
| WError (rest : list read_event)
| WBlocked.

(** the [do ... while (bytes_read != 1)] loop *)
Fixpoint wait_byte (inp : list read_event) : wait_result :=
  match inp with
  | [] => WBlocked
  | RByte b :: r => WByte (schar b) r
  | RTimeout :: r => wait_byte r
  | RAgain :: r => wait_byte r
  | RError :: r => WError r
  end.

Definition csi_letter_key (c : Z) : Z :=
  if c =? chr "A" then KEY_ARROW_UP
  else if c =? chr "B" then KEY_ARROW_DOWN
  else if c =? chr "C" then KEY_ARROW_RIGHT
  else if c =? chr "D" then KEY_ARROW_LEFT
  else if c =? chr "F" then KEY_END
  else if c =? chr "H" then KEY_HOME
  else KEY_ESC.

Definition csi_digit_key (c : Z) : Z :=
  if (c =? chr "1") || (c =? chr "7") then KEY_HOME
  else if c =? chr "3" then KEY_DELETE
  else if (c =? chr "4") || (c =? chr "8") then KEY_END
  else if c =? chr "5" then KEY_PAGE_UP
  else if c =? chr "6" then KEY_PAGE_DOWN
  else KEY_ESC.

(** the code from the label [read_esc_seq] on: the key, and the answers
    left for later reads *)
Fixpoint read_esc_seq (inp : list read_event) : Z * list read_event :=
  match inp with
  | RByte b :: r1 =>
      let seq0 := schar b in
      if seq0 =? KEY_ESC then read_esc_seq r1
      else if seq0 =? chr "[" then
        match read1 r1 with
        | (None, r2) => (KEY_ESC, r2)
        | (Some seq1, r2) =>
            if (chr "0" <=? seq1) && (seq1 <=? chr "9") then
              match read1 r2 with
              | (None, r3) => (KEY_ESC, r3)
              | (Some seq2, r3) =>
                  if negb (seq2 =? chr "~") then
                    match read1 r3 with
                    | (Some _, r4) => (KEY_ESC, snd (read1 r4))
                    | (None, r4) => (KEY_ESC, r4)
                    end
                  else (csi_digit_key seq1, r3)
              end
            else (csi_letter_key seq1, r2)
        end
      else if seq0 =? chr "O" then
        match read1 r1 with
        | (None, r2) => (KEY_ESC, r2)
        | (Some seq1, r2) => (csi_letter_key seq1, r2)
        end
      else (KEY_ESC, r1)
  | _ :: r1 => (KEY_ESC, r1)
  | [] => (KEY_ESC, [])
  end.

Definition read_key : M Z :=
  en <- get raw_mode_enabled ;;
  assert en ;;;
  inp <- get input ;;
  match wait_byte inp with
  | WBlocked => fun w => Blocked (take_input [] w)
  | WError r => modify (take_input r) ;;; die "failed to read input"
  | WByte c r =>
      if negb (c =? KEY_ESC) then modify (take_input r) ;;; ret c
      else let (k, r') := read_esc_seq r in modify (take_input r') ;;; ret k
  end.

(* ------------------------------------------------------------------ *)
(** ** Cursor and screen *)

Definition isspace (c : Z) : bool := (c =? 32) || ((9 <=? c) && (c <=? 13)).
Definition isdigit (c : Z) : bool := (chr "0" <=? c) && (c <=? chr "9").

Fixpoint skip_space (l : list Z) : list Z :=
  match l with
  | c :: r => if isspace c then skip_space r else l
  | [] => []
  end.

Fixpoint scan_digits (acc : Z) (l : list Z) : Z * list Z :=
  match l with
  | c :: r => if isdigit c then scan_digits (acc * 10 + (c - chr "0")) r
              else (acc, l)
  | [] => (acc, [])
  end.

(** one [%hu] conversion of [sscanf] *)
Definition scan_hu (l : list Z) : option (Z * list Z) :=
  let l1 := skip_space l in
  let (neg, l2) :=
    match l1 with
    | c :: r => if c =? chr "-" then (true, r)
                else if c =? chr "+" then (false, r) else (false, l1)
    | [] => (false, [])
    end in
  match l2 with
  | c :: _ =>
      if isdigit c
      then let (v, l3) := scan_digits 0 l2 in
           Some (to_ushort (if neg : bool then - v else v), l3)
      else None
  | [] => None
  end.

(** [sscanf(s, "%hu;%hu", row, col) == 2] *)
Definition sscanf_hu_hu (s : list Z) : option (Z * Z) :=
  match scan_hu s with
  | Some (row, c :: r) =>
      if c =? chr ";" then
        match scan_hu r with
        | Some (col, _) => Some (row, col)
        | None => None
        end
      else None
  | _ => None
  end.

(** the [for] loop of [get_cursor_position]: the characters stored in
    [res], whether the loop was left by [break], the answers left *)
Fixpoint read_response (n : nat) (inp : list read_event)
  : list Z * bool * list read_event :=
  match n with
  | O => ([], false, inp)
  | S n' =>
      match read1 inp with
      | (None, r) => ([], true, r)
      | (Some c, r) =>
          if c =? chr "R" then ([], true, r)
          else let '(s, brk, r') := read_response n' r in (c :: s, brk, r')
      end
  end.

Definition CPR_QUERY : list Z := 27 :: bytes "[6n".

Definition get_cursor_position : M (option (Z * Z)) :=
  ok <- sys_write CPR_QUERY ;;
  if negb ok then ret None
  else
    inp <- get input ;;
    let '(res, brk, r) := read_response 16 inp in
    modify (take_input r) ;;;
    (* res[i] = '\0' lies outside res when the loop ran to i = 16 *)
    (if brk : bool then ret tt else undefined) ;;;
    match res with
    | c0 :: c1 :: s =>
        if negb (c0 =? 27) || negb (c1 =? chr "[") then ret None
        else ret (sscanf_hu_hu s)
    | _ => ret None
    end.

Fixpoint dec_digits (fuel : nat) (n : Z) (acc : list Z) : list Z :=
  match fuel with
  | O => acc
  | S f =>
      let acc' := (chr "0" + n mod 10) :: acc in
      if n / 10 =? 0 then acc' else dec_digits f (n / 10) acc'
  end.

(** [%d] of a value that is not negative *)
Definition decimal (n : Z) : list Z := dec_digits 20 n [].

Definition move_cursor_left : M bool := sys_write (27 :: bytes "[D").
Definition move_cursor_right : M bool := sys_write (27 :: bytes "[C").

Definition move_cursor_to (row col : Z) : M bool :=
  sys_write (27 :: bytes "[" ++ decimal row ++ bytes ";" ++ decimal col
             ++ bytes "H").

Definition repaint_line (orig_cy orig_cx : Z) (line : ptr) (len : Z) : M bool :=
  ok <- move_cursor_to orig_cy orig_cx ;;
  or_die ok "repaint_line: failed to move cursor" ;;;
  ok <- sys_write (27 :: bytes "[K") ;;
  or_die ok "repaint_line: failed to clear line" ;;;
  data <- load_bytes line 0 len ;;
  sys_write data.

(* ------------------------------------------------------------------ *)
(** ** [add_to_history] *)

Definition add_to_history (buf : list Z) (buf_size : Z) : M bool :=
  h <- get history ;;
  (match h with
   | None => modify (set_history (Some Vector.init))
   | Some _ => ret tt
   end) ;;;
  line_copy <- malloc buf_size ;;
  match line_copy with
  | None => ret false
  | Some p =>
      match blk_read buf 0 buf_size with
      | None => undefined
      | Some data =>
          write_block p data ;;;
          h <- get history ;;
          match h with
          | None => undefined
          | Some v => modify (set_history (Some (Vector.push v p))) ;;; ret true
          end
      end
  end.

(* ------------------------------------------------------------------ *)
(** ** [rl_read_line] *)

(** the automatic variables of [rl_read_line] that live across the loop *)
Record locals : Type := mk_locals {
  buf_size : Z;
  history_len : Z;
  cy : Z;
  cx : Z;
  current_buf : ptr;
  cursor_pos : Z;
  num_chars : Z
}.

Definition set_current_buf p l :=
  mk_locals (buf_size l) (history_len l) (cy l) (cx l) p (cursor_pos l)
    (num_chars l).
Definition set_cursor_pos c l :=
  mk_locals (buf_size l) (history_len l) (cy l) (cx l) (current_buf l) c
    (num_chars l).
Definition set_num_chars n l :=
  mk_locals (buf_size l) (history_len l) (cy l) (cx l) (current_buf l)
    (cursor_pos l) n.

(** how one turn of the loop body ends *)
Inductive ctl : Type :=
| Continue (l : locals)            (* [continue], or [break] out of the switch *)
| GotoEnd (l : locals)             (* [goto end_of_loop] *)
| Return (r : ReadLineResult).     (* [return] *)

(** the branch [if (isprint(key))] *)
Definition insert_char (l : locals) (key : Z) : M locals :=
  ok <- sys_write [byte_of_int key] ;;
  or_die ok "failed to write to terminal (key press)" ;;;
  (if to_size (cursor_pos l) <? num_chars l then
     memmove (current_buf l) (cursor_pos l + 1) (cursor_pos l)
             (to_size (num_chars l - cursor_pos l + 1)) ;;;
     let len := to_size (num_chars l - cursor_pos l) in
     data <- load_bytes (current_buf l) (cursor_pos l + 1) len ;;
     ok <- sys_write data ;;
     or_die ok "failed to write to terminal (key press, repaint)" ;;;
     ok <- move_cursor_to (cy l) (to_ushort (cx l + cursor_pos l + 1)) ;;
     or_die ok "failed to move cursor (key press)"
   else ret tt) ;;;
  store (current_buf l) (cursor_pos l) (byte_of_int key) ;;;
  let l := set_cursor_pos (to_int (cursor_pos l + 1)) l in
  let l := set_num_chars (to_size (num_chars l + 1)) l in
  store (current_buf l) (num_chars l) 0 ;;;
  ret l.

(** [case KEY_BACKSPACE] *)
Definition backspace (l : locals) : M ctl :=
  if cursor_pos l =? 0 then ret (Continue l)
  else
    let l := set_cursor_pos (to_int (cursor_pos l - 1)) l in
    memmove (current_buf l) (cursor_pos l) (cursor_pos l + 1)
            (to_size (num_chars l - cursor_pos l)) ;;;
    let l := set_num_chars (to_size (num_chars l - 1)) l in
    store (current_buf l) (num_chars l) 0 ;;;
    ok <- repaint_line (cy l) (cx l) (current_buf l) (num_chars l) ;;
    or_die ok "failed to repaint line (BACKSPACE)" ;;;
    ret (Continue l).

(** [case KEY_ARROW_UP: case KEY_ARROW_DOWN:] *)
Definition history_move (l : locals) (key : Z) : M ctl :=
  hi <- get history_index ;;
  if ((key =? KEY_ARROW_UP) && (hi =? 0))
     || ((key =? KEY_ARROW_DOWN) && (hi =? to_size (history_len l - 1)))
  then ret (Continue l)
  else
    modify (set_history_index
              (to_size (hi + (if key =? KEY_ARROW_UP then -1 else 1)))) ;;;
    hi <- get history_index ;;
    p <- history_get hi ;;
    let l := set_current_buf p l in
    current_buf_len <- strlen (current_buf l) ;;
    ok <- repaint_line (cy l) (cx l) (current_buf l) current_buf_len ;;
    or_die ok "failed to repaint line (ARROW_UP/DOWN)" ;;;
    let l := set_cursor_pos (to_int current_buf_len) l in
    let l := set_num_chars current_buf_len l in
    ret (Continue l).

(** [case CTRL_KEY('b'): case KEY_ARROW_LEFT:] *)
Definition cursor_left (l : locals) : M ctl :=
  if cursor_pos l =? 0 then ret (Continue l)
  else
    move_cursor_left ;;;
    ret (Continue (set_cursor_pos (to_int (cursor_pos l - 1)) l)).

(** [case CTRL_KEY('f'): case KEY_ARROW_RIGHT:] *)
Definition cursor_right (l : locals) : M ctl :=
  if to_size (cursor_pos l) =? num_chars l then ret (Continue l)
  else
    move_cursor_right ;;;
    ret (Continue (set_cursor_pos (to_int (cursor_pos l + 1)) l)).

(** the body of the [while] loop once [read_key] has returned [key] *)
Definition handle_key (l : locals) (key : Z) : M ctl :=
  if isprint key then
    l' <- insert_char l key ;; ret (Continue l')
  else if key =? KEY_ENTER then
    ok <- sys_write [13; 10] ;;
    or_die ok "failed to write to terminal (key press, enter)" ;;;
    ret (GotoEnd l)
  else if key =? CTRL_KEY (chr "c") then
    disable_raw_mode ;;; ret (Return RL_SIGINT)
  else if key =? CTRL_KEY (chr "d") then
    if num_chars l =? 0 then disable_raw_mode ;;; ret (Return RL_EOF)
    else ret (GotoEnd l)
  else if key =? KEY_BACKSPACE then backspace l
  else if (key =? KEY_ARROW_UP) || (key =? KEY_ARROW_DOWN) then
    history_move l key
  else if (key =? CTRL_KEY (chr "b")) || (key =? KEY_ARROW_LEFT) then
    cursor_left l
  else if (key =? CTRL_KEY (chr "f")) || (key =? KEY_ARROW_RIGHT) then
    cursor_right l
  else ret (Continue l).

(** how the loop is left *)
Inductive loop_exit : Type :=
| EndOfLoop (l : locals)
| Returned (r : ReadLineResult).

(** [while (num_chars < buf_size - 1) { ... }]; every turn takes at least
    one answer from [input], so [fuel] above the length of [input] is never
    used up (see [edit_loop_fuel]). *)
Fixpoint edit_loop (fuel : nat) (l : locals) : M loop_exit :=
  if num_chars l <? to_size (buf_size l - 1) then
    match fuel with
    | O => fun _ => OutOfFuel
    | S n =>
        key <- read_key ;;
        c <- handle_key l key ;;
        match c with
        | Continue l' => edit_loop n l'
        | GotoEnd l' => ret (EndOfLoop l')
        | Return r => ret (Returned r)
        end
    end
  else ret (EndOfLoop l).

(** the code from the label [end_of_loop] on; [buf] is the caller's array *)
Definition end_of_loop (buf : list Z) (l : locals)
  : M (ReadLineResult * list Z) :=
  store (current_buf l) (num_chars l) 0 ;;;
  let num_chars_to_copy :=
    if num_chars l <? buf_size l then to_size (num_chars l + 1)
    else buf_size l in
  data <- load_bytes (current_buf l) 0 num_chars_to_copy ;;
  match blk_write buf 0 data with
  | None => undefined
  | Some buf' =>
      hi <- get history_index ;;
      (if hi <? to_size (history_len l - 1) then
         last_node <- history_get (to_size (history_len l - 1)) ;;
         data <- load_bytes (current_buf l) 0 num_chars_to_copy ;;
         write_block last_node data
       else ret tt) ;;;
      disable_raw_mode ;;;
      ret (RL_SUCCESS, buf')
  end.

(** the loop and what follows it *)
Definition run_editor (buf : list Z) (l : locals)
  : M (ReadLineResult * list Z) :=
  fuel <- get (fun w => S (length (input w))) ;;
  e <- edit_loop fuel l ;;
  match e with
  | EndOfLoop l' => end_of_loop buf l'
  | Returned r => ret (r, buf)
  end.

(** [rl_read_line(buf, buf_size, prompt)]: the result and the caller's
    array afterwards.  [buf] is never [NULL] here; [prompt] may be. *)
Definition rl_read_line (buf : list Z) (buf_size : Z) (prompt : option (list Z))
  : M (ReadLineResult * list Z) :=
  assert (0 <? buf_size) ;;;
  (match prompt with
   | Some p =>
       ok <- sys_write p ;;
       or_die ok "failed to write to terminal (prompt)"
   | None => ret tt
   end) ;;;
  ok <- add_to_history buf buf_size ;;
  or_die ok "failed to add line to history" ;;;
  history_len <- history_length ;;
  modify (set_history_index (to_size (history_len - 1))) ;;;
  hi <- get history_index ;;
  current_buf <- history_get hi ;;
  store current_buf 0 0 ;;;
  enable_raw_mode ;;;
  pos <- get_cursor_position ;;
  match pos with
  | None => die "failed to get cursor position"
  | Some (cy, cx) =>
      run_editor buf (mk_locals buf_size history_len cy cx current_buf 0 0)
  end.

(* ------------------------------------------------------------------ *)
(** ** The call with [isprint] held to its domain *)

(** an answer that makes [read_key] return a value of [unsigned char]: a
    byte below 128 (a larger one is a negative [char]) other than ESC
    (which starts a sequence), or no byte *)
Definition plain_answer (e : read_event) : Prop :=
  match e with
  | RByte b => 0 <= b < 128 /\ b <> KEY_ESC
  | _ => True
  end.

(** the loop body with the call of [isprint] held against the domain of
    <ctype.h>: outside it the behaviour is not defined *)
Definition handle_key_dom (l : locals) (key : Z) : M ctl :=
  if ctype_domain key then handle_key l key else undefined.

(** [edit_loop], with that body *)
Fixpoint edit_loop_dom (fuel : nat) (l : locals) : M loop_exit :=
  if num_chars l <? to_size (buf_size l - 1) then
    match fuel with
    | O => fun _ => OutOfFuel
    | S n =>
        key <- read_key ;;
        c <- handle_key_dom l key ;;
        match c with
        | Continue l' => edit_loop_dom n l'
        | GotoEnd l' => ret (EndOfLoop l')
        | Return r => ret (Returned r)
        end
    end
  else ret (EndOfLoop l).

(** [run_editor] and [rl_read_line] with the loop as a parameter *)
Definition run_editor_with (loop : nat -> locals -> M loop_exit)
           (buf : list Z) (l : locals) : M (ReadLineResult * list Z) :=
  fuel <- get (fun w => S (length (input w))) ;;
  e <- loop fuel l ;;
  match e with
  | EndOfLoop l' => end_of_loop buf l'
  | Returned r => ret (r, buf)
  end.

Definition rl_read_line_with (loop : nat -> locals -> M loop_exit)
           (buf : list Z) (buf_size : Z) (prompt : option (list Z))
  : M (ReadLineResult * list Z) :=
  assert (0 <? buf_size) ;;;
  (match prompt with
   | Some p =>
       ok <- sys_write p ;;
       or_die ok "failed to write to terminal (prompt)"
   | None => ret tt
   end) ;;;
  ok <- add_to_history buf buf_size ;;
  or_die ok "failed to add line to history" ;;;
  history_len <- history_length ;;
  modify (set_history_index (to_size (history_len - 1))) ;;;
  hi <- get history_index ;;
  current_buf <- history_get hi ;;
  store current_buf 0 0 ;;;
  enable_raw_mode ;;;
  pos <- get_cursor_position ;;
  match pos with
  | None => die "failed to get cursor position"
  | Some (cy, cx) =>
      run_editor_with loop buf
        (mk_locals buf_size history_len cy cx current_buf 0 0)
  end.

(* ------------------------------------------------------------------ *)
(** ** [rl_cleanup] *)

(** the [for] loop of [rl_cleanup] from index [i] on, with [n] entries to
    go: the pointers handed to [free], in order *)
Fixpoint free_lines (n : nat) (i : Z) : M (list ptr) :=
  match n with
  | O => ret []
  | S n' =>
      alloced_str <- history_get i ;;
      freed <- free_lines n' (to_size (i + 1)) ;;
      ret (alloced_str :: freed)
  end.

(** [rl_cleanup].  The heap of this development keeps no record of which
    blocks are freed, so the call returns the pointers it hands to [free];
    [vector_free] leaves the static [history] as it is. *)
Definition rl_cleanup : M (list ptr) :=
  h <- get history ;;
  freed <- (match h with
            | Some _ =>
                history_len <- history_length ;;
                free_lines (Z.to_nat history_len) 0
            | None => ret []
            end) ;;
  en <- get raw_mode_enabled ;;
  (if en : bool then disable_raw_mode else ret tt) ;;;
  ret freed.

(* ------------------------------------------------------------------ *)
(** ** Sample runs *)

Definition cooked : termios := mk_termios 1280 5 35387 191 1 0.

Definition world0 (inp : list read_event) : world :=
  mk_world cooked inp [] [] [] [] [] cooked false None 0 [] 0.

Definition keys (l : list Z) : list read_event := map RByte l.

(** the answer of the terminal to the cursor position query: row 5, col 3 *)
Definition cpr : list read_event := keys (27 :: bytes "[5;3R").

Definition next_call (inp : list read_event) (w : world) : world :=
  set_input (cpr ++ inp) w.

(** the C string at the start of an array: the bytes before the first NUL *)
Fixpoint c_string (b : list Z) : list Z :=
  match b with
  | [] => []
  | c :: r => if c =? 0 then [] else c :: c_string r
  end.

Definition result_of {A} (o : outcome A) : option A :=
  match o with Done a _ => Some a | _ => None end.

Definition world_of {A} (o : outcome A) : option world :=
  match o with
  | Done _ w | Exited _ w | Blocked w | Aborted w => Some w
  | _ => None
  end.

(* ================================================================== *)
(** * Properties *)

(* ------------------------------------------------------------------ *)
(** ** Integer conversions *)

Lemma to_size_small (z : Z) : 0 <= z < SIZE_MOD -> to_size z = z.
Proof. intros H. unfold to_size. now apply Z.mod_small. Qed.

Lemma to_int_small (z : Z) : - 2 ^ 31 <= z <= INT_MAX -> to_int z = z.
Proof.
  unfold to_int, INT_MAX. intros H.
  rewrite Z.mod_small; lia.
Qed.

Lemma INT_MAX_lt_SIZE_MOD : INT_MAX < SIZE_MOD.
Proof. reflexivity. Qed.

Lemma schar_small (b : Z) : 0 <= b < 128 -> schar b = b.
Proof.
  intros H. unfold schar. rewrite Z.mod_small by lia.
  destruct (Z.ltb_spec b 128); lia.
Qed.

Lemma schar_inv (b c : Z) :
  0 <= b < 256 -> 0 <= c -> schar b = c -> b = c.
Proof.
  unfold schar. intros Hb Hc. rewrite Z.mod_small by lia.
  destruct (Z.ltb_spec b 128); lia.
Qed.

(* ------------------------------------------------------------------ *)
(** ** The key decoder after ESC *)

(** The escape sequences the spec lists as recognized (its section on the
    wire protocol), with the key each stands for: the bytes that follow
    ESC. *)
Definition spec_esc_table : list (list Z * Z) :=
  [ (bytes "[A", KEY_ARROW_UP); (bytes "[B", KEY_ARROW_DOWN);
    (bytes "[C", KEY_ARROW_RIGHT); (bytes "[D", KEY_ARROW_LEFT);
    (bytes "[H", KEY_HOME); (bytes "[F", KEY_END);
    (bytes "[1~", KEY_HOME); (bytes "[7~", KEY_HOME);
    (bytes "[4~", KEY_END); (bytes "[8~", KEY_END);
    (bytes "[3~", KEY_DELETE);
    (bytes "[5~", KEY_PAGE_UP); (bytes "[6~", KEY_PAGE_DOWN);
    (bytes "OA", KEY_ARROW_UP); (bytes "OB", KEY_ARROW_DOWN);
    (bytes "OC", KEY_ARROW_RIGHT); (bytes "OD", KEY_ARROW_LEFT);
    (bytes "OH", KEY_HOME); (bytes "OF", KEY_END) ].

Definition is_byte (e : read_event) : Prop :=
  match e with RByte _ => True | _ => False end.

(** every byte an answer carries is a byte *)
Definition byte_event (e : read_event) : Prop :=
  match e with RByte b => 0 <= b < 256 | _ => True end.

Definition escs (n : nat) : list read_event := repeat (RByte KEY_ESC) n.

(** The answers [read_key] takes from the label [read_esc_seq] on, one rule
    for each way through that code.  An answer that brings no byte ends the
    sequence where it comes; a further ESC starts it again; after ESC [, a
    digit and a byte other than ~, two more answers are taken and not
    looked at. *)
Inductive esc_taken : list read_event -> Prop :=
| taken_no_second (e : read_event) :
    ~ is_byte e -> esc_taken [e]
| taken_esc (b : Z) (c : list read_event) :
    schar b = KEY_ESC -> esc_taken c -> esc_taken (RByte b :: c)
| taken_other (b : Z) :
    schar b <> KEY_ESC -> schar b <> chr "[" -> schar b <> chr "O" ->
    esc_taken [RByte b]
| taken_csi_no_third (b : Z) (e : read_event) :
    schar b = chr "[" -> ~ is_byte e -> esc_taken [RByte b; e]
| taken_csi_letter (b b1 : Z) :
    schar b = chr "[" -> isdigit (schar b1) = false ->
    esc_taken [RByte b; RByte b1]
| taken_csi_no_fourth (b b1 : Z) (e : read_event) :
    schar b = chr "[" -> isdigit (schar b1) = true -> ~ is_byte e ->
    esc_taken [RByte b; RByte b1; e]
| taken_csi_tilde (b b1 b2 : Z) :
    schar b = chr "[" -> isdigit (schar b1) = true -> schar b2 = chr "~" ->
    esc_taken [RByte b; RByte b1; RByte b2]
| taken_csi_no_fifth (b b1 b2 : Z) (e : read_event) :
    schar b = chr "[" -> isdigit (schar b1) = true -> schar b2 <> chr "~" ->
    ~ is_byte e -> esc_taken [RByte b; RByte b1; RByte b2; e]
| taken_csi_sixth (b b1 b2 b3 : Z) (e : read_event) :
    schar b = chr "[" -> isdigit (schar b1) = true -> schar b2 <> chr "~" ->
    esc_taken [RByte b; RByte b1; RByte b2; RByte b3; e]
| taken_ss3 (b : Z) (e : read_event) :
    schar b = chr "O" -> esc_taken [RByte b; e].

(** the answers as the reads see them: when [inp] is used up a read times
    out *)
Definition starts_with (inp consumed : list read_event) : Prop :=
  exists tail, inp ++ [RTimeout] = consumed ++ tail.

Lemma read_esc_seq_recognized (n : nat) (p : list Z) (k : Z)
      (rest : list read_event) :
  In (p, k) spec_esc_table ->
  read_esc_seq (escs n ++ keys p ++ rest) = (k, rest).
Proof.
  intros Hin. induction n as [|n IH].
  - simpl in Hin.
    repeat (destruct Hin as [Hin|Hin];
            [injection Hin as <- <-; reflexivity|]).
    contradiction.
  - simpl. exact IH.
Qed.

Ltac not_byte := cbn [is_byte]; intros H; exact H.

Ltac taken_leaf shape :=
  split; [|split; [eexists; reflexivity|reflexivity]]; shape.

(** what the decoder takes has one of the shapes of [esc_taken], and the
    answers left are the others *)
Lemma read_esc_seq_taken (inp : list read_event) :
  exists consumed,
    esc_taken consumed /\ starts_with inp consumed
    /\ snd (read_esc_seq inp) = skipn (length consumed) inp.
Proof.
  unfold starts_with.
  induction inp as [|e r1 IH].
  { exists [RTimeout]. taken_leaf ltac:(apply taken_no_second; not_byte). }
  destruct e as [b| | |]; cbn [read_esc_seq].
  2-4: (eexists [_]; taken_leaf ltac:(apply taken_no_second; not_byte)).
  destruct (Z.eqb_spec (schar b) KEY_ESC) as [Hesc|Hesc].
  { destruct IH as (c & Hc & [tail Ht] & Hr). exists (RByte b :: c).
    split; [now apply taken_esc|]. split; [|exact Hr].
    exists tail. cbn [app]. now f_equal. }
  destruct (Z.eqb_spec (schar b) (chr "[")) as [Hcsi|Hcsi].
  { destruct r1 as [|[b1| | |] r2]; cbn [read1 fst snd].
    1: exists [RByte b; RTimeout].
    3-5: eexists [RByte b; _].
    1, 3-5: taken_leaf ltac:(apply taken_csi_no_third; [exact Hcsi|not_byte]).
    fold (isdigit (schar b1)). destruct (isdigit (schar b1)) eqn:Hd.
    2: { exists [RByte b; RByte b1].
         taken_leaf ltac:(now apply taken_csi_letter). }
    destruct r2 as [|[b2| | |] r3]; cbn [read1 fst snd].
    1: exists [RByte b; RByte b1; RTimeout].
    3-5: eexists [RByte b; RByte b1; _].
    1, 3-5: taken_leaf ltac:(apply taken_csi_no_fourth;
                               [exact Hcsi|exact Hd|not_byte]).
    destruct (Z.eqb_spec (schar b2) (chr "~")) as [Ht|Ht]; cbn [negb].
    { exists [RByte b; RByte b1; RByte b2].
      taken_leaf ltac:(now apply taken_csi_tilde). }
    destruct r3 as [|[b3| | |] r4]; cbn [read1 fst snd].
    1: exists [RByte b; RByte b1; RByte b2; RTimeout].
    3-5: eexists [RByte b; RByte b1; RByte b2; _].
    1, 3-5: taken_leaf ltac:(apply taken_csi_no_fifth;
                               [exact Hcsi|exact Hd|exact Ht|not_byte]).
    destruct r4 as [|e4 r5].
    - exists [RByte b; RByte b1; RByte b2; RByte b3; RTimeout].
      taken_leaf ltac:(now apply taken_csi_sixth).
    - exists [RByte b; RByte b1; RByte b2; RByte b3; e4].
      split; [now apply taken_csi_sixth|].
      split; [eexists; reflexivity|]. now destruct e4. }
  destruct (Z.eqb_spec (schar b) (chr "O")) as [Hss|Hss].
  { destruct r1 as [|e1 r2].
    - exists [RByte b; RTimeout]. taken_leaf ltac:(now apply taken_ss3).
    - exists [RByte b; e1]. split; [now apply taken_ss3|].
      split; [eexists; reflexivity|]. now destruct e1. }
  exists [RByte b]. taken_leaf ltac:(now apply taken_other).
Qed.

(** what the decoder has read is gone: the answers left are a suffix *)
Lemma read_esc_seq_suffix (inp : list read_event) :
  exists consumed, inp = consumed ++ snd (read_esc_seq inp).
Proof.
  destruct (read_esc_seq_taken inp) as (c & _ & _ & ->).
  exists (firstn (length c) inp). symmetry. apply firstn_skipn.
Qed.

(** no shape is the start of another: what is taken is fixed by the
    answers *)
Lemma esc_taken_unique (c1 c2 t1 t2 : list read_event) :
  esc_taken c1 -> esc_taken c2 -> c1 ++ t1 = c2 ++ t2 -> c1 = c2.
Proof.
  intros Ha. revert c2 t1 t2.
  induction Ha; intros c2 t1 t2 Hb Heq; destruct Hb;
    cbn [app] in Heq; injection Heq; intros; subst;
    try reflexivity;
    try solve [ exfalso; cbn [is_byte] in *; auto
              | exfalso; congruence
              | exfalso;
                match goal with
                | H : schar ?b = _, H' : schar ?b = _ |- _ =>
                    rewrite H in H'; vm_compute in H'; discriminate H'
                end
              | f_equal; eauto ].
Qed.

Ltac byte_facts :=
  repeat match goal with
  | H : Forall byte_event (_ :: _) |- _ => inversion H; subst; clear H
  | H : byte_event (RByte _) |- _ => cbn [byte_event] in H
  end.

Ltac eqb_facts :=
  repeat match goal with
  | H : (_ && _)%bool = true |- _ => apply andb_prop in H; destruct H
  | H : (_ || _)%bool = false |- _ => apply orb_false_elim in H; destruct H
  | H : (_ || _)%bool = true |- _ => apply orb_prop in H; destruct H
  | H : negb _ = true |- _ => apply negb_true_iff in H
  | H : negb _ = false |- _ => apply negb_false_iff in H
  | H : (schar ?b =? ?c) = true |- _ =>
      apply Z.eqb_eq in H; apply schar_inv in H;
      [ try subst b | lia | unfold KEY_ESC; cbn; lia ]
  end.

Ltac in_table :=
  cbn [spec_esc_table In]; repeat (first [left; reflexivity | right]).

Lemma csi_letter_key_table (c : Z) :
  csi_letter_key c = KEY_ESC
  \/ (0 <= c /\ In ([chr "["; c], csi_letter_key c) spec_esc_table
      /\ In ([chr "O"; c], csi_letter_key c) spec_esc_table).
Proof.
  unfold csi_letter_key.
  repeat match goal with
  | |- context [if ?x =? ?y then _ else _] =>
      destruct (Z.eqb_spec x y);
      [subst; right; split; [cbn; lia|split; in_table]|]
  end.
  left. reflexivity.
Qed.

Lemma csi_digit_key_table (c : Z) :
  csi_digit_key c = KEY_ESC
  \/ (0 <= c /\ In ([chr "["; c; chr "~"], csi_digit_key c) spec_esc_table).
Proof.
  unfold csi_digit_key.
  repeat match goal with
  | |- context [?x =? ?y] =>
      destruct (Z.eqb_spec x y); [subst; right; split; [cbn; lia|in_table]|]
  end.
  left. reflexivity.
Qed.

(** a key other than ESC comes from a listed sequence, read in full *)
Lemma read_esc_seq_classify (inp : list read_event) :
  Forall byte_event inp ->
  fst (read_esc_seq inp) = KEY_ESC
  \/ exists n p, In (p, fst (read_esc_seq inp)) spec_esc_table
                 /\ inp = escs n ++ keys p ++ snd (read_esc_seq inp).
Proof.
  induction inp as [|e r1 IH]; intros Hwf.
  - left. reflexivity.
  - destruct e as [b| | |]; cbn [read_esc_seq]; [|left; reflexivity..].
    destruct (schar b =? KEY_ESC) eqn:Hesc.
    { byte_facts. eqb_facts.
      destruct (IH ltac:(assumption)) as [Hk|(n & p & Hin & Heq)].
      - left. exact Hk.
      - right. exists (S n), p. split; [exact Hin|].
        cbn [escs repeat app]. f_equal. exact Heq. }
    destruct (schar b =? chr "[") eqn:Hb;
      [|destruct (schar b =? chr "O") eqn:Hb'; [|left; reflexivity]];
      (destruct r1 as [|[b1| | |] r2]; cbn [read1 fst snd];
       [left; reflexivity| |left; reflexivity..]).
    + destruct ((chr "0" <=? schar b1) && (schar b1 <=? chr "9"))%bool.
      * destruct r2 as [|[b2| | |] r3]; cbn [read1 fst snd];
          try (left; reflexivity).
        destruct (negb (schar b2 =? chr "~")) eqn:Hb2.
        { destruct (read1 r3) as [[?|] ?]; left; reflexivity. }
        cbn [fst snd].
        destruct (csi_digit_key_table (schar b1)) as [Hk|[Hpos Hk]];
          [left; exact Hk|right].
        byte_facts. eqb_facts.
        assert (Hb1 : b1 = schar b1) by (apply schar_inv; auto; lia).
        rewrite <- Hb1 in *.
        exists 0%nat, [chr "["; b1; chr "~"]. split; [exact Hk|reflexivity].
      * cbn [fst snd].
        destruct (csi_letter_key_table (schar b1)) as [Hk|(Hpos & Hk & _)];
          [left; exact Hk|right].
        byte_facts. eqb_facts.
        assert (Hb1 : b1 = schar b1) by (apply schar_inv; auto; lia).
        rewrite <- Hb1 in *.
        exists 0%nat, [chr "["; b1]. split; [exact Hk|reflexivity].
    + destruct (csi_letter_key_table (schar b1)) as [Hk|(Hpos & _ & Hk)];
        [left; exact Hk|right].
      byte_facts. eqb_facts.
      assert (Hb1 : b1 = schar b1) by (apply schar_inv; auto; lia).
      rewrite <- Hb1 in *.
      exists 0%nat, [chr "O"; b1]. split; [exact Hk|reflexivity].
Qed.

Lemma escs_keys_bytes (n : nat) (p : list Z) :
  Forall is_byte (escs n ++ keys p).
Proof.
  apply Forall_app. split.
  - induction n; simpl; constructor; simpl; auto.
  - induction p; simpl; constructor; simpl; auto.
Qed.

(** a listed sequence, after any number of ESC bytes, is one of the
    shapes *)
Lemma listed_taken (n : nat) (p : list Z) (k : Z) :
  In (p, k) spec_esc_table -> esc_taken (escs n ++ keys p).
Proof.
  intros Hin. induction n as [|n IH].
  - cbn [spec_esc_table In] in Hin.
    repeat (destruct Hin as [Hin|Hin];
            [injection Hin as <- <-;
             first [ apply taken_csi_letter; reflexivity
                   | apply taken_csi_tilde; reflexivity
                   | apply taken_ss3; reflexivity ]|]).
    contradiction.
  - cbn [escs repeat app]. apply taken_esc; [reflexivity|exact IH].
Qed.

(** What [read_key] does in world [w] when the byte it waited for is ESC
    and [inp] are the answers of the reads that follow: it returns [k],
    having taken [consumed] and left [rest]. *)
Definition decodes_escape (w : world) (inp : list read_event)
           (k : Z) (consumed rest : list read_event) : Prop :=
  read_key w = Done k (take_input rest w)
  (* the answers taken are the first of [inp], they have one of the shapes
     of [esc_taken], and no other start of [inp] has: every answer read is
     gone, and no other *)
  /\ esc_taken consumed /\ starts_with inp consumed
  /\ rest = skipn (length consumed) inp
  /\ (forall c, esc_taken c -> starts_with inp c -> c = consumed)
  (* a listed sequence, after any number of further ESC bytes, gives its key
     and is taken whole *)
  /\ (forall n p k' rest',
        In (p, k') spec_esc_table ->
        inp = escs n ++ keys p ++ rest' ->
        k = k' /\ rest = rest' /\ consumed = escs n ++ keys p)
  (* a read that brought no byte makes the key ESC *)
  /\ ((exists e, In e consumed /\ ~ is_byte e) -> k = KEY_ESC)
  (* so does everything that is not a listed sequence *)
  /\ ((forall n p k', In (p, k') spec_esc_table ->
                      consumed <> escs n ++ keys p) -> k = KEY_ESC).

(** C8: after an initial ESC byte [read_key] always returns a key (it never
    ends the process): the key of a recognized ESC-[ or ESC-O sequence when
    that sequence arrives in full, and the plain ESC key when a lookahead
    read times out or the bytes read match no recognized sequence.  Either
    way the answers it has read are gone from the input, all of them and
    no other: what is taken is fixed by the shapes of [esc_taken], and what
    is left starts after it. *)
Theorem C8_read_key_escape (w : world) (inp : list read_event) :
  raw_mode_enabled w = true ->
  input w = RByte KEY_ESC :: inp ->
  Forall byte_event inp ->
  exists k consumed rest, decodes_escape w inp k consumed rest.
Proof.
  intros Hraw Hin Hwf.
  destruct (read_esc_seq_taken inp) as (consumed & Hshape & Hstart & Hrest).
  exists (fst (read_esc_seq inp)), consumed, (snd (read_esc_seq inp)).
  assert (Huniq : forall c, esc_taken c -> starts_with inp c -> c = consumed).
  { intros c Hc [t Ht]. destruct Hstart as [t' Ht'].
    apply (@esc_taken_unique c consumed t t' Hc Hshape). congruence. }
  assert (Hlisted : forall n p k' rest',
             In (p, k') spec_esc_table -> inp = escs n ++ keys p ++ rest' ->
             consumed = escs n ++ keys p).
  { intros n p k' rest' Hp Heq. symmetry.
    apply Huniq; [exact (listed_taken n Hp)|].
    exists (rest' ++ [RTimeout]). rewrite Heq.
    now rewrite <- !app_assoc. }
  assert (Hnot : fst (read_esc_seq inp) <> KEY_ESC ->
                 exists n p, In (p, fst (read_esc_seq inp)) spec_esc_table
                             /\ consumed = escs n ++ keys p).
  { intros Hk. destruct (read_esc_seq_classify Hwf) as [?|(n & p & Hp & Heq)];
      [contradiction|].
    exists n, p. split; [exact Hp|]. exact (Hlisted n p _ _ Hp Heq). }
  unfold decodes_escape.
  split.
  { unfold read_key, bind, get, assert, modify, ret.
    rewrite Hraw, Hin. cbn [wait_byte].
    change (schar KEY_ESC =? KEY_ESC) with true. cbn [negb].
    destruct (read_esc_seq inp) as [k rest]. reflexivity. }
  split; [exact Hshape|]. split; [exact Hstart|]. split; [exact Hrest|].
  split; [exact Huniq|]. split.
  { intros n p k' rest' Hp Heq.
    pose proof (read_esc_seq_recognized n rest' Hp) as Hrec.
    rewrite <- Heq in Hrec. rewrite Hrec. cbn [fst snd].
    split; [reflexivity|]. split; [reflexivity|].
    exact (Hlisted n p k' rest' Hp Heq). }
  split.
  - intros (e & He & Hnb).
    destruct (Z.eq_dec (fst (read_esc_seq inp)) KEY_ESC) as [|Hk]; [assumption|].
    destruct (Hnot Hk) as (n & p & _ & ->).
    exfalso. apply Hnb.
    exact (proj1 (Forall_forall _ _) (escs_keys_bytes n p) e He).
  - intros Hno.
    destruct (Z.eq_dec (fst (read_esc_seq inp)) KEY_ESC) as [|Hk]; [assumption|].
    destruct (Hnot Hk) as (n & p & Hp & Heq).
    exfalso. exact (Hno n p _ Hp Heq).
Qed.

Definition world_c8 : world :=
  set_raw_mode_enabled true
    (world0 (keys (KEY_ESC :: bytes "[1;5C") ++ [RTimeout] ++ keys (bytes "x"))).

Lemma C8_read_key_escape_witness :
  (* ESC [ 1 ; 5 C: five answers are taken, the key is ESC, and the C is
     not seen again *)
  raw_mode_enabled world_c8 = true
  /\ exists k consumed rest,
       decodes_escape world_c8
         (keys (bytes "[1;5C") ++ [RTimeout] ++ keys (bytes "x"))
         k consumed rest.
Proof.
  split; [reflexivity|].
  apply (@C8_read_key_escape world_c8
           (keys (bytes "[1;5C") ++ [RTimeout] ++ keys (bytes "x"))).
  - reflexivity.
  - reflexivity.
  - repeat constructor; cbn; lia.
Defined.

(* ------------------------------------------------------------------ *)
(** ** Reasoning about outcomes *)

(** [sat o Q E X]: outcome [o] meets postcondition [Q] when the function
    returned and [E] when the process was ended by [die]; [X] is what a
    failed assertion or an access outside an object must establish ([False]
    to rule them out).  A run that waits for input for ever meets every
    postcondition; a run that uses up its fuel meets none. *)
Definition sat {A} (o : outcome A) (Q : A -> world -> Prop)
           (E : string -> world -> Prop) (X : Prop) : Prop :=
  match o with
  | Done a w => Q a w
  | Exited m w => E m w
  | Blocked _ => True
  | Aborted _ | Undefined => X
  | OutOfFuel => False
  end.

Lemma sat_bind {A B} (m : M A) (f : A -> M B) w Q E X :
  sat (m w) (fun a w' => sat (f a w') Q E X) E X ->
  sat (bind m f w) Q E X.
Proof. unfold bind. destruct (m w); auto. Qed.

Lemma sat_weaken {A} (o : outcome A) (Q Q' : A -> world -> Prop)
      (E E' : string -> world -> Prop) (X X' : Prop) :
  sat o Q E X ->
  (forall a w, Q a w -> Q' a w) -> (forall m w, E m w -> E' m w) ->
  (X -> X') -> sat o Q' E' X'.
Proof. destruct o; simpl; auto. Qed.

Lemma sat_and {A} (o : outcome A) (Q Q' : A -> world -> Prop)
      (E E' : string -> world -> Prop) (X X' : Prop) :
  sat o Q E X -> sat o Q' E' X' ->
  sat o (fun a w => Q a w /\ Q' a w) (fun m w => E m w /\ E' m w) (X /\ X').
Proof. destruct o; simpl; auto. Qed.

Arguments sat_and {A o Q Q' E E' X X'}.
Arguments sat_weaken {A o Q Q' E E' X X'}.

Definition no_fault (l : list bool) : Prop := Forall (eq false) l.

Lemma no_fault_next l b r :
  no_fault l -> next_fault l = (b, r) -> b = false /\ no_fault r.
Proof.
  unfold no_fault. destruct l as [|x l]; simpl; intros H Hn.
  - injection Hn as <- <-. auto.
  - injection Hn as <- <-. inversion H; subst. auto.
Qed.

(** the step failed only because a [write] was made to fail *)
Ltac write_fault :=
  let Hnf := fresh "Hnf" in
  intros Hnf;
  cbn [term input output write_faults tcget_faults tcset_faults malloc_faults
       original_state raw_mode_enabled history history_index heap errno
       set_term set_input set_output set_write_faults set_tcget_faults
       set_tcset_faults set_malloc_faults set_original_state
       set_raw_mode_enabled set_history set_history_index set_heap
       set_errno take_input
       set_errno take_input] in *;
  repeat match goal with
  | Hn : no_fault ?l, H : next_fault ?l = (_, _) |- _ =>
      let Hb := fresh in
      destruct (no_fault_next Hn H) as [Hb ?]; clear H; try discriminate Hb
  end.

(** *** [die] *)

(** [die_rec] needs no more fuel than [die] gives it *)
Lemma die_rec_fuel (n : nat) (msg : string) (w : world) :
  die_rec (S n) msg w = die_rec 1 msg w.
Proof.
  destruct w as [? ? ? ? ? tc ? ? raw ? ? ?].
  destruct raw; [|reflexivity].
  destruct tc as [|[|] r]; destruct n; reflexivity.
Qed.

(** the world after [report_error] *)
Definition reported (w : world) : world :=
  if errno w =? 0 then set_output (output w ++ [10]) w else w.

(** the world [die] leaves when it ends the process *)
Definition die_world (w : world) : world :=
  if raw_mode_enabled w then
    let (failed, r) := next_fault (tcset_faults w) in
    let w1 := set_tcset_faults r (set_raw_mode_enabled false w) in
    if failed then set_errno ENOTTY w1
    else reported (set_term (original_state w) w1)
  else reported w.

Lemma die_exits {A} (msg : string) (w : world) :
  exists msg', @die A msg w = Exited msg' (die_world w).
Proof.
  destruct w as [? ? ? ? ? tc ? ? raw ? ? ? e].
  destruct raw; [destruct tc as [|[|] r]|];
    cbv -[Z.eqb]; try destruct (e =? 0); eexists; reflexivity.
Qed.

Lemma sat_die {A} (msg : string) w (Q : A -> world -> Prop) E X :
  (forall msg', E msg' (die_world w)) -> sat (die msg w) Q E X.
Proof.
  intros H. destruct (@die_exits A msg w) as [msg' ->]. apply H.
Qed.

Lemma sat_or_die ok msg w (Q : unit -> world -> Prop) E X :
  (ok = true -> Q tt w) ->
  (ok = false -> forall msg', E msg' (die_world w)) ->
  sat (or_die ok msg w) Q E X.
Proof.
  intros H1 H2. destruct ok; simpl.
  - now apply H1.
  - apply sat_die. now apply H2.
Qed.

(** *** system calls *)

Lemma sat_sys_write d w (Q : bool -> world -> Prop) E X :
  (forall r, next_fault (write_faults w) = (false, r) ->
             Q true (set_output (output w ++ d) (set_write_faults r w))) ->
  (forall r, next_fault (write_faults w) = (true, r) ->
             Q false (set_errno EIO (set_write_faults r w))) ->
  sat (sys_write d w) Q E X.
Proof.
  intros H1 H2. unfold sys_write.
  destruct (next_fault (write_faults w)) as [[|] r]; simpl; auto.
Qed.

Lemma sat_tcsetattr t w (Q : bool -> world -> Prop) E X :
  (forall r, next_fault (tcset_faults w) = (false, r) ->
             Q true (set_term t (set_tcset_faults r w))) ->
  (forall r, next_fault (tcset_faults w) = (true, r) ->
             Q false (set_errno ENOTTY (set_tcset_faults r w))) ->
  sat (tcsetattr t w) Q E X.
Proof.
  intros H1 H2. unfold tcsetattr.
  destruct (next_fault (tcset_faults w)) as [[|] r]; simpl; auto.
Qed.

(** [disable_raw_mode] returned: the saved attributes are in force *)
Definition returns_from (w w' : world) : Prop :=
  exists r, next_fault (tcset_faults w) = (false, r)
            /\ w' = set_term (original_state w) (set_tcset_faults r w).

(** [disable_raw_mode] failed in [w] and [die] ended the process *)
Definition disable_fails (w w' : world) : Prop :=
  exists r, next_fault (tcset_faults w) = (true, r)
            /\ w' = die_world (set_errno ENOTTY (set_tcset_faults r w)).

(** the process ended in [die], called in [w] or by a [disable_raw_mode]
    that failed in [w] *)
Definition dies_from (w w' : world) : Prop :=
  w' = die_world w \/ disable_fails w w'.

Lemma sat_disable_raw_mode w (Q : unit -> world -> Prop) E X :
  (forall w', returns_from w w' -> Q tt w') ->
  (forall w' msg', disable_fails w w' -> E msg' w') ->
  sat (disable_raw_mode w) Q E X.
Proof.
  intros H1 H2. unfold disable_raw_mode, disable_raw_mode_with.
  apply sat_bind. unfold get at 1. cbn [sat].
  apply sat_bind. apply sat_tcsetattr; intros r Hr; cbn [sat].
  - apply H1. exists r. auto.
  - apply sat_bind. apply sat_die. intros msg'. apply H2. exists r. auto.
Qed.

(** *** memory *)

Lemma sat_with_block {A} p (f : block -> option (A * block)) w
      (Q : A -> world -> Prop) E (X : Prop) :
  (forall b a b', nth_error (heap w) p = Some b -> f b = Some (a, b') ->
                  Q a (set_heap (replace_nth p b' (heap w)) w)) ->
  ((nth_error (heap w) p = None
    \/ exists b, nth_error (heap w) p = Some b /\ f b = None) -> X) ->
  sat (with_block p f w) Q E X.
Proof.
  intros H1 H2. unfold with_block.
  destruct (nth_error (heap w) p) as [b|] eqn:Hb.
  - destruct (f b) as [[a b']|] eqn:Hf; simpl.
    + now apply H1 with b.
    + apply H2. right. eauto.
  - simpl. apply H2. now left.
Qed.

Lemma with_block_eq {A} p (f : block -> option (A * block)) w b a b' :
  nth_error (heap w) p = Some b -> f b = Some (a, b') ->
  with_block p f w = Done a (set_heap (replace_nth p b' (heap w)) w).
Proof. intros Hb Hf. unfold with_block. now rewrite Hb, Hf. Qed.

Lemma sat_history_get i w (Q : ptr -> world -> Prop) E (X : Prop) :
  (forall v p, history w = Some v -> Vector.get v i = Some p -> Q p w) ->
  ((history w = None
    \/ exists v, history w = Some v /\ Vector.get v i = None) -> X) ->
  sat (history_get i w) Q E X.
Proof.
  intros H1 H2. unfold history_get.
  destruct (history w) as [v|] eqn:Hv.
  - destruct (Vector.get v i) as [p|] eqn:Hp; simpl.
    + now apply H1 with v.
    + apply H2. right. eauto.
  - simpl. apply H2. now left.
Qed.

(** *** the fields no step of the edit loop writes *)

(** [steady w w']: [w'] differs from [w] at most in the terminal output,
    the write script, the heap and [history_index] *)
Record steady (w w' : world) : Prop := mk_steady {
  steady_term : term w' = term w;
  steady_input : input w' = input w;
  steady_tcget : tcget_faults w' = tcget_faults w;
  steady_tcset : tcset_faults w' = tcset_faults w;
  steady_malloc : malloc_faults w' = malloc_faults w;
  steady_original : original_state w' = original_state w;
  steady_raw : raw_mode_enabled w' = raw_mode_enabled w;
  steady_history : history w' = history w
}.

Lemma steady_refl w : steady w w.
Proof. constructor; reflexivity. Qed.

Lemma steady_trans w1 w2 w3 : steady w1 w2 -> steady w2 w3 -> steady w1 w3.
Proof. intros [] []. constructor; congruence. Qed.

Lemma steady_output w w' o : steady w w' -> steady w (set_output o w').
Proof. intros []. constructor; assumption. Qed.
Lemma steady_write_faults w w' f :
  steady w w' -> steady w (set_write_faults f w').
Proof. intros []. constructor; assumption. Qed.
Lemma steady_heap w w' h : steady w w' -> steady w (set_heap h w').
Proof. intros []. constructor; assumption. Qed.
Lemma steady_history_index w w' i :
  steady w w' -> steady w (set_history_index i w').
Proof. intros []. constructor; assumption. Qed.

Create HintDb steady.
#[local] Hint Resolve steady_refl steady_output steady_write_faults
  steady_heap steady_history_index : steady.

Ltac simpl_world :=
  cbn [term input output write_faults tcget_faults tcset_faults malloc_faults
       original_state raw_mode_enabled history history_index heap errno
       set_term set_input set_output set_write_faults set_tcget_faults
       set_tcset_faults set_malloc_faults set_original_state
       set_raw_mode_enabled set_history set_history_index set_heap
       set_errno take_input
       buf_size history_len cy cx current_buf cursor_pos num_chars
       set_current_buf set_cursor_pos set_num_chars].

Ltac steady_tac := constructor; reflexivity.

(** one step of symbolic execution of a monadic term under [sat] *)
Ltac sat_step :=
  cbv beta zeta; simpl_world;
  lazymatch goal with
  | |- sat (bind _ _ _) _ _ _ => apply sat_bind
  | |- sat (ret _ _) _ _ _ => unfold ret at 1; cbn [sat]
  | |- sat (get _ _) _ _ _ => unfold get at 1; cbn [sat]
  | |- sat (modify _ _) _ _ _ => unfold modify at 1; cbn [sat]
  | |- sat (sys_write _ _) _ _ _ => apply sat_sys_write; intros ?r ?Hwf
  | |- sat (or_die _ _ _) _ _ _ =>
      apply sat_or_die; [intros ?Hok | intros ?Hok ?msg]; try discriminate
  | |- sat (die _ _) _ _ _ => apply sat_die; intros ?msg
  | |- sat (disable_raw_mode _) _ _ _ =>
      apply sat_disable_raw_mode; [intros ?w ?Hret | intros ?w ?msg ?Hdie]
  | |- sat (move_cursor_to _ _ _) _ _ _ => unfold move_cursor_to
  | |- sat (move_cursor_left _) _ _ _ => unfold move_cursor_left
  | |- sat (move_cursor_right _) _ _ _ => unfold move_cursor_right
  | |- sat (repaint_line _ _ _ _ _) _ _ _ => unfold repaint_line
  | |- sat (store _ _ _ _) _ _ _ => unfold store
  | |- sat (memmove _ _ _ _ _) _ _ _ => unfold memmove
  | |- sat (load_bytes _ _ _ _) _ _ _ => unfold load_bytes
  | |- sat (strlen _ _) _ _ _ => unfold strlen
  | |- sat (write_block _ _ _) _ _ _ => unfold write_block
  | |- sat (with_block _ _ _) _ _ True =>
      apply sat_with_block; [intros ?b ?a ?b' ?Hb ?Hf | intros _; exact I]
  | |- sat (history_get _ _) _ _ True =>
      apply sat_history_get; [intros ?v ?p ?Hv ?Hp | intros _; exact I]
  | |- sat ((if ?c then _ else _) _) _ _ _ => destruct c eqn:?
  | |- sat (undefined _) _ _ True => exact I
  end.

(** every step of the loop body leaves the fields of [steady] alone until
    it returns (through [disable_raw_mode]) or dies *)
Lemma handle_key_steady (l : locals) (key : Z) (w : world) :
  sat (handle_key l key w)
      (fun c w' =>
         match c with
         | Return _ => exists w1, steady w w1 /\ returns_from w1 w'
         | _ => steady w w'
         end)
      (fun _ w' => exists w1, steady w w1 /\ dies_from w1 w')
      True.
Proof.
  unfold handle_key, insert_char, backspace, history_move, cursor_left,
    cursor_right.
  repeat sat_step;
    try solve [ steady_tac
              | eexists; split; [|left; reflexivity]; steady_tac
              | eexists; split; [|eassumption]; steady_tac
              | eexists; split; [|right; eassumption]; steady_tac ].
Qed.

(** *** [read_key] as a function of the answers *)

(** the key [read_key] returns and the answers it leaves, when a byte
    comes *)
Definition next_key (inp : list read_event) : option (Z * list read_event) :=
  match wait_byte inp with
  | WByte c r => Some (if negb (c =? KEY_ESC) then (c, r) else read_esc_seq r)
  | _ => None
  end.

Lemma read_key_next (w : world) (k : Z) (r : list read_event) :
  raw_mode_enabled w = true ->
  next_key (input w) = Some (k, r) ->
  read_key w = Done k (take_input r w).
Proof.
  unfold next_key, read_key, bind, get, assert, modify, ret.
  intros -> H. destruct (wait_byte (input w)) as [c r0| |]; try discriminate.
  destruct (negb (c =? KEY_ESC)).
  - now injection H as <- <-.
  - destruct (read_esc_seq r0). now injection H as <- <-.
Qed.

Lemma read_esc_seq_length (inp : list read_event) :
  (length (snd (read_esc_seq inp)) <= length inp)%nat.
Proof.
  destruct (read_esc_seq_suffix inp) as [c Hc].
  rewrite Hc at 2. rewrite length_app. lia.
Qed.

Lemma wait_byte_length inp c r :
  wait_byte inp = WByte c r -> (length r < length inp)%nat.
Proof.
  induction inp as [|[b| | |] inp IH]; simpl; intros H; try discriminate.
  - injection H as <- <-. lia.
  - apply IH in H. lia.
  - apply IH in H. lia.
Qed.

Lemma wait_error_length inp r :
  wait_byte inp = WError r -> (length r < length inp)%nat.
Proof.
  induction inp as [|[b| | |] inp IH]; simpl; intros H; try discriminate.
  - apply IH in H. lia.
  - apply IH in H. lia.
  - injection H as <-. lia.
Qed.

Lemma next_key_length inp k r :
  next_key inp = Some (k, r) -> (length r < length inp)%nat.
Proof.
  unfold next_key. destruct (wait_byte inp) as [c r0| |] eqn:Hw; try discriminate.
  apply wait_byte_length in Hw.
  destruct (negb (c =? KEY_ESC)); intros H.
  - injection H as <- <-. exact Hw.
  - pose proof (read_esc_seq_length r0) as Hl.
    destruct (read_esc_seq r0). injection H as <- <-. simpl in Hl. lia.
Qed.

Lemma sat_read_key w (Q : Z -> world -> Prop) E (X : Prop) :
  raw_mode_enabled w = true ->
  (forall k r, next_key (input w) = Some (k, r) -> Q k (take_input r w)) ->
  (forall r msg, (length r < length (input w))%nat ->
                 E msg (die_world (take_input r w))) ->
  sat (read_key w) Q E X.
Proof.
  intros Hraw HQ HE.
  destruct (next_key (input w)) as [[k r]|] eqn:Hk.
  - rewrite (read_key_next w Hraw Hk). now apply HQ.
  - unfold next_key in Hk. unfold read_key.
    apply sat_bind. unfold get at 1. cbn [sat]. rewrite Hraw.
    apply sat_bind. cbn [assert sat].
    apply sat_bind. unfold get at 1. cbn [sat].
    destruct (wait_byte (input w)) as [c r0|r0|] eqn:Hw; try discriminate.
    + apply sat_bind. cbn [modify sat]. apply sat_die. intros msg.
      apply HE. now apply wait_error_length.
    + exact I.
Qed.

(** *** the loop *)

Section EditLoop.
Variable P : locals -> world -> Prop.
Variable R : ReadLineResult -> world -> Prop.
Variable E : string -> world -> Prop.
Variable X : Prop.

Hypothesis P_raw : forall l w, P l w -> raw_mode_enabled w = true.
Hypothesis P_input : forall l w r, P l w -> P l (take_input r w).
Hypothesis P_read_error :
  forall l w msg, P l w -> E msg (die_world w).
Hypothesis P_step :
  forall l w key,
    P l w -> num_chars l < to_size (buf_size l - 1) ->
    sat (handle_key l key w)
        (fun c w' =>
           match c with
           | Continue l' | GotoEnd l' => P l' w'
           | Return r => R r w'
           end) E X.

(** the rule of the [while] loop: an invariant of the loop body holds
    when the loop is left, provided the fuel exceeds the number of
    answers the reads can take *)
Lemma sat_edit_loop (fuel : nat) (l : locals) (w : world) :
  (length (input w) < fuel)%nat -> P l w ->
  sat (edit_loop fuel l w)
      (fun e w' =>
         match e with
         | EndOfLoop l' => P l' w'
         | Returned r => R r w'
         end) E X.
Proof.
  revert l w. induction fuel as [|n IH]; intros l w Hlen HP; [lia|].
  cbn [edit_loop].
  destruct (num_chars l <? to_size (buf_size l - 1)) eqn:Hguard;
    [|exact HP].
  apply Z.ltb_lt in Hguard.
  apply sat_bind. apply sat_read_key.
  - eapply P_raw; eauto.
  - intros k r Hk. apply sat_bind.
    pose proof (next_key_length _ Hk) as Hr.
    pose proof (sat_and (P_step k (P_input r HP) Hguard)
                        (handle_key_steady l k (take_input r w))) as Hs.
    eapply sat_weaken; [exact Hs| | |].
    + intros [l'|l'|res] w' [H1 H2]; cbn [sat ret].
      * apply IH; [|exact H1].
        rewrite (steady_input H2). simpl. lia.
      * exact H1.
      * exact H1.
    + intros m w' [H1 _]. exact H1.
    + tauto.
  - intros r msg _. apply P_read_error with l. now apply P_input.
Qed.
End EditLoop.

(** [calm w w']: as [steady], but the reads may have taken answers *)
Definition calm (w w' : world) : Prop := steady (set_input (input w') w) w'.

Lemma calm_refl w : calm w w.
Proof. constructor; reflexivity. Qed.

Lemma calm_steady w w1 w2 : calm w w1 -> steady w1 w2 -> calm w w2.
Proof. intros [] []. constructor; simpl in *; congruence. Qed.

Lemma calm_input w w1 r : calm w w1 -> calm w (set_input r w1).
Proof. intros []. constructor; simpl in *; congruence. Qed.

Lemma calm_take_input w w1 r : calm w w1 -> calm w (take_input r w1).
Proof. intros []. constructor; simpl in *; congruence. Qed.

(** answers that leave [errno] alone *)
Definition quiet (e : read_event) : Prop :=
  match e with RByte _ | RTimeout => True | _ => False end.

Lemma errno_after_quiet (evs : list read_event) (e : Z) :
  Forall quiet evs -> errno_after evs e = e.
Proof.
  induction 1 as [|x evs Hx _ IH]; [reflexivity|].
  destruct x; cbn [errno_after quiet] in *; (exact IH || contradiction).
Qed.

Lemma keys_quiet (s : list Z) : Forall quiet (keys s).
Proof. induction s; constructor; [exact I|assumption]. Qed.

(** reads that brought bytes or timed out have changed the pending answers
    only *)
Lemma take_input_quiet (c r : list read_event) (w : world) :
  Forall quiet c -> input w = c ++ r -> take_input r w = set_input r w.
Proof.
  intros Hc Hin. unfold take_input, set_input. f_equal.
  rewrite Hin, length_app.
  replace (length c + length r - length r)%nat with (length c) by lia.
  rewrite firstn_app, firstn_all, Nat.sub_diag. cbn [firstn].
  rewrite app_nil_r. now apply errno_after_quiet.
Qed.

Lemma steady_calm w w' : steady w w' -> calm w w'.
Proof. intros []. constructor; simpl in *; congruence. Qed.

(** the loop writes none of the fields of [calm] until it returns or dies *)
Lemma edit_loop_calm (fuel : nat) (l : locals) (w : world) :
  (length (input w) < fuel)%nat ->
  raw_mode_enabled w = true ->
  sat (edit_loop fuel l w)
      (fun e w' =>
         match e with
         | EndOfLoop _ => calm w w'
         | Returned _ => exists w1, calm w w1 /\ returns_from w1 w'
         end)
      (fun _ w' => exists w1, calm w w1 /\ dies_from w1 w')
      True.
Proof.
  intros Hlen Hraw.
  apply (@sat_edit_loop (fun _ w' => calm w w')); auto using calm_refl.
  - intros _ w1 H. rewrite <- Hraw. apply (steady_raw H).
  - intros _ w1 r H. now apply calm_take_input.
  - intros _ w1 _ H. exists w1. split; [exact H|now left].
  - intros l1 w1 key H _.
    eapply sat_weaken; [apply handle_key_steady| | |auto].
    + intros [l'|l'|res] w'; cbn.
      * now apply calm_steady.
      * now apply calm_steady.
      * intros (w2 & H2 & Hr). exists w2. split; [|exact Hr].
        now apply calm_steady with w1.
    + intros _ w' (w2 & H2 & Hd). exists w2. split; [|exact Hd].
      now apply calm_steady with w1.
Qed.

(** *** further rules *)

Lemma sat_malloc n w (Q : option ptr -> world -> Prop) E X :
  (forall r, Q (Some (length (heap w)))
               (set_heap (heap w ++ [repeat 0 (Z.to_nat n)])
                         (set_malloc_faults r w))) ->
  (forall r, Q None (set_errno ENOMEM (set_malloc_faults r w))) ->
  sat (malloc n w) Q E X.
Proof.
  intros H1 H2. unfold malloc.
  destruct (next_fault (malloc_faults w)) as [[|] r]; simpl; auto.
Qed.

Lemma sat_tcgetattr w (Q : option termios -> world -> Prop) E X :
  (forall r, Q (Some (term w)) (set_tcget_faults r w)) ->
  (forall r, Q None (set_errno ENOTTY (set_tcget_faults r w))) ->
  sat (tcgetattr w) Q E X.
Proof.
  intros H1 H2. unfold tcgetattr.
  destruct (next_fault (tcget_faults w)) as [[|] r]; simpl; auto.
Qed.

Lemma sat_history_length w (Q : Z -> world -> Prop) E (X : Prop) :
  (forall v, history w = Some v -> Q (Vector.length v) w) ->
  (history w = None -> X) ->
  sat (history_length w) Q E X.
Proof.
  intros H1 H2. unfold history_length.
  destruct (history w) as [v|]; simpl; auto.
Qed.

Lemma sat_assert b w (Q : unit -> world -> Prop) E (X : Prop) :
  (b = true -> Q tt w) -> (b = false -> X) -> sat (assert b w) Q E X.
Proof. destruct b; simpl; auto. Qed.

Lemma replace_nth_same {A} (p : nat) (b : A) (l : list A) :
  nth_error l p = Some b -> replace_nth p b l = l.
Proof.
  unfold replace_nth. revert l. induction p as [|p IH]; intros [|x l] H;
    simpl in *; try discriminate.
  - now injection H as ->.
  - f_equal. now apply IH.
Qed.

Lemma replace_nth_length {A} (p : nat) (b b' : A) (l : list A) :
  nth_error l p = Some b -> length (replace_nth p b' l) = length l.
Proof.
  unfold replace_nth. revert l. induction p as [|p IH]; intros [|x l] H;
    simpl in *; try discriminate.
  - reflexivity.
  - f_equal. now apply IH.
Qed.

Lemma nth_error_replace_nth {A} (p q : nat) (b' : A) (l : list A) :
  (p < length l)%nat ->
  nth_error (replace_nth p b' l) q
  = if Nat.eqb q p then Some b' else nth_error l q.
Proof.
  unfold replace_nth. revert q l. induction p as [|p IH]; intros q [|x l] H;
    simpl in *; try lia.
  - destruct q; reflexivity.
  - destruct q; simpl; [reflexivity|]. apply IH. lia.
Qed.

(** the code after [end_of_loop] writes none of the fields of [steady]
    before [disable_raw_mode] *)
Lemma end_of_loop_steady (buf : list Z) (l : locals) (w : world) :
  sat (end_of_loop buf l w)
      (fun a w' => fst a = RL_SUCCESS
                   /\ exists w1, steady w w1 /\ returns_from w1 w')
      (fun _ w' => exists w1, steady w w1 /\ dies_from w1 w')
      True.
Proof.
  unfold end_of_loop.
  repeat (sat_step ||
          lazymatch goal with
          | |- sat (match ?x with Some _ => _ | None => _ end _) _ _ _ =>
              destruct x
          end);
    try solve [ split; [reflexivity|];
                eexists; split; [|eassumption]; steady_tac
              | eexists; split; [|eassumption]; steady_tac
              | eexists; split; [|right; eassumption]; steady_tac ].
Qed.

Lemma run_editor_calm (buf : list Z) (l : locals) (w : world) :
  raw_mode_enabled w = true ->
  sat (run_editor buf l w)
      (fun _ w' => exists w1, calm w w1 /\ returns_from w1 w')
      (fun _ w' => exists w1, calm w w1 /\ dies_from w1 w')
      True.
Proof.
  intros Hraw. unfold run_editor.
  apply sat_bind. unfold get at 1. cbn [sat]. apply sat_bind.
  eapply sat_weaken; [apply edit_loop_calm; [lia|exact Hraw]| | |auto].
  - intros [l'|r] w1; cbn [sat ret]; [|auto].
    intros Hc.
    eapply sat_weaken; [apply end_of_loop_steady| | |auto].
    + intros a w' (_ & w2 & H2 & Hr). exists w2. split; [|exact Hr].
      now apply calm_steady with w1.
    + intros _ w' (w2 & H2 & Hd). exists w2. split; [|exact Hd].
      now apply calm_steady with w1.
  - auto.
Qed.

Definition hist (w : world) : list ptr :=
  match history w with
  | Some v => v
  | None => []
  end.

Lemma termios_eq_dec (a b : termios) : {a = b} + {a <> b}.
Proof. decide equality; apply Z.eq_dec. Qed.

(** between calls: when the flag is still set from an earlier call, the
    saved attributes are the ones in force *)
Definition quiescent (w : world) : Prop :=
  raw_mode_enabled w = true -> original_state w = term w.

Ltac sat_step' :=
  sat_step ||
  (cbv beta zeta;
   lazymatch goal with
   | |- sat (assert _ _) _ _ True =>
       apply sat_assert; [intros ?Hassert | intros _; exact I]
   | |- sat (add_to_history _ _ _) _ _ _ => unfold add_to_history
   | |- sat (enable_raw_mode _) _ _ _ => unfold enable_raw_mode
   | |- sat (get_cursor_position _) _ _ _ => unfold get_cursor_position
   | |- sat (malloc _ _) _ _ _ => apply sat_malloc; intros ?r
   | |- sat (tcgetattr _) _ _ _ => apply sat_tcgetattr; intros ?r
   | |- sat (tcsetattr _ _) _ _ _ =>
       apply sat_tcsetattr; intros ?r ?Htc
   | |- sat (history_length _) _ _ True =>
       apply sat_history_length; [intros ?v ?Hv | intros _; exact I]
   | |- sat (match ?x with _ => _ end _) _ _ _ => destruct x eqn:?
   | |- sat (let (_, _) := ?x in _) _ _ _ => destruct x eqn:?
   end).

(** *** one call as a whole *)

(** [tstate w w']: the terminal and what [die] looks at are as in [w] *)
Record tstate (w w' : world) : Prop := mk_tstate {
  tstate_term : term w' = term w;
  tstate_tcset : tcset_faults w' = tcset_faults w;
  tstate_original : original_state w' = original_state w;
  tstate_raw : raw_mode_enabled w' = raw_mode_enabled w
}.

Lemma tstate_refl w : tstate w w.
Proof. constructor; reflexivity. Qed.

Lemma tstate_trans w1 w2 w3 : tstate w1 w2 -> tstate w2 w3 -> tstate w1 w3.
Proof. intros [] []. constructor; congruence. Qed.

Lemma calm_tstate w w' : calm w w' -> tstate w w'.
Proof. intros []. constructor; simpl in *; assumption. Qed.

Ltac tstate_tac := constructor; reflexivity.

Lemma add_to_history_summary buf bs w :
  sat (add_to_history buf bs w)
      (fun ok w' =>
         tstate w w' /\ input w' = input w
         /\ (ok = true -> history w' = Some (hist w ++ [length (heap w)])))
      (fun _ _ => False) True.
Proof.
  unfold add_to_history, hist.
  destruct (history w) as [v0|] eqn:Hv0;
    repeat sat_step'; simpl_world;
    (split; [tstate_tac|split; [reflexivity|]]); try discriminate;
    intros _; simpl in *;
    repeat match goal with
           | H : Some _ = Some _ |- _ => injection H as H; subst
           | H1 : history w = Some _, H2 : history w = Some _ |- _ =>
               rewrite H1 in H2
           end;
    reflexivity.
Qed.

Lemma get_cursor_position_calm w :
  sat (get_cursor_position w) (fun _ w' => calm w w') (fun _ _ => False) True.
Proof.
  unfold get_cursor_position.
  repeat sat_step'; try solve [constructor; reflexivity].
Qed.

(** after [enable_raw_mode] in a call entered in [w0]: the attributes of
    [w0] are saved, the terminal is raw, and the first [tcsetattr] of the
    script has been made and did not fail *)
Record armed (w0 w : world) : Prop := mk_armed {
  armed_original : original_state w = term w0;
  armed_raw : raw_mode_enabled w = true;
  armed_term : term w = raw_of (term w0);
  armed_script : next_fault (tcset_faults w0) = (false, tcset_faults w)
}.

Lemma armed_faults w0 w :
  armed w0 w -> no_fault (tcset_faults w0) -> no_fault (tcset_faults w).
Proof.
  intros [_ _ _ Hs] Hnf. now destruct (no_fault_next Hnf Hs).
Qed.

(** how a call entered in [w0] can end the process *)
Inductive exit_case (w0 w' : world) : Prop :=
| exit_before (w : world) :
    (* [die] is called before [enable_raw_mode] has called [tcsetattr] *)
    tstate w0 w -> w' = die_world w -> exit_case w0 w'
| exit_enabling (r : list bool) (w : world) :
    (* the [tcsetattr] of [enable_raw_mode] fails *)
    next_fault (tcset_faults w0) = (true, r) ->
    term w = term w0 -> tcset_faults w = r ->
    original_state w = term w0 ->
    raw_mode_enabled w = raw_mode_enabled w0 ->
    w' = die_world w -> exit_case w0 w'
| exit_armed (w : world) :
    (* [die] is called, by the call or by a [disable_raw_mode] that failed,
       after raw mode was enabled *)
    armed w0 w -> dies_from w w' -> exit_case w0 w'.

Lemma armed_calm w0 w w1 : armed w0 w -> calm w w1 -> armed w0 w1.
Proof.
  intros [Ho Hr Ht Hs] Hc. apply calm_tstate in Hc.
  destruct Hc as [Ht' Hf' Ho' Hr'].
  constructor; congruence.
Qed.

Lemma armed_returns w0 w w' :
  armed w0 w -> returns_from w w' ->
  term w' = term w0 /\ original_state w' = term w0
  /\ raw_mode_enabled w' = true /\ history w' = history w
  /\ heap w' = heap w.
Proof.
  intros [Ho Hr Ht Hs] (r & Hn & ->). simpl. auto.
Qed.

Lemma enable_raw_mode_summary w0 w :
  tstate w0 w ->
  sat (enable_raw_mode w)
      (fun _ w' => armed w0 w' /\ history w' = history w
                   /\ heap w' = heap w /\ input w' = input w)
      (fun _ w' => exit_case w0 w') True.
Proof.
  intros [Ht Hf Ho Hr]. unfold enable_raw_mode.
  repeat sat_step'; simpl_world.
  - split; [|auto]. constructor; simpl_world; try congruence.
    now rewrite <- Hf.
  - eapply exit_enabling; [rewrite <- Hf; exact Htc| | | | |reflexivity];
      simpl_world; congruence.
  - eapply exit_before; [|reflexivity]. constructor; simpl_world; assumption.
Qed.

(** what one call does to the statics and the terminal *)
Lemma rl_read_line_summary buf bs prompt w :
  sat (rl_read_line buf bs prompt w)
    (fun _ w' => term w' = term w /\ original_state w' = term w
                 /\ raw_mode_enabled w' = true
                 /\ history w' = Some (hist w ++ [length (heap w)]))
    (fun _ w' => exit_case w w')
    True.
Proof.
  unfold rl_read_line.
  apply sat_bind. apply sat_assert; [intros _|auto]. cbv beta.
  apply sat_bind.
  apply (@sat_weaken _ _ (fun _ w1 => tstate w w1 /\ history w1 = history w
                                     /\ heap w1 = heap w)
           _ (fun _ w' => exit_case w w') _ True True).
  { destruct prompt; repeat sat_step';
      try (split; [tstate_tac|split; reflexivity]).
    eapply exit_before; [|reflexivity]. tstate_tac. }
  2, 3: auto.
  intros _ w1 (Ht1 & Hh1 & Hp1).
  apply sat_bind.
  eapply sat_weaken; [apply add_to_history_summary| |intros _ _ []|auto].
  intros ok w2 (Ht2 & Hi2 & Hh2). cbv beta.
  pose proof (tstate_trans Ht1 Ht2) as Ht12.
  apply sat_bind. apply sat_or_die; [intros ->|intros _ msg];
    [|eapply exit_before; [exact Ht12|reflexivity]].
  specialize (Hh2 eq_refl).
  apply sat_bind. apply sat_history_length; [intros v Hv|auto].
  repeat (lazymatch goal with
          | |- sat (bind enable_raw_mode _ _) _ _ _ => fail
          | _ => sat_step
          end).
  apply sat_bind.
  match goal with |- sat (enable_raw_mode ?w3) _ _ _ => set (w4 := w3) end.
  assert (Ht4 : tstate w w4) by (destruct Ht12; constructor; assumption).
  assert (Hh4 : history w4 = Some (hist w ++ [length (heap w)])).
  { subst w4. simpl. rewrite Hh2. unfold hist. now rewrite Hh1, Hp1. }
  clearbody w4.
  eapply sat_weaken;
    [apply (enable_raw_mode_summary Ht4)| | |auto].
  2: { intros m w' H. exact H. }
  intros _ w5 (Ha5 & Hh5 & _ & _). cbv beta.
  apply sat_bind.
  eapply sat_weaken; [apply get_cursor_position_calm| |intros _ _ []|auto].
  intros pos w6 Hc6. cbv beta.
  pose proof (armed_calm Ha5 Hc6) as Ha6.
  destruct pos as [[cy0 cx0]|].
  - eapply sat_weaken; [apply run_editor_calm; apply (armed_raw Ha6)| | |auto].
    + intros _ w' (w7 & Hc7 & Hr).
      destruct (armed_returns (armed_calm Ha6 Hc7) Hr) as (? & ? & ? & Hh & _).
      repeat split; try assumption.
      rewrite Hh, (steady_history Hc7). simpl.
      rewrite (steady_history Hc6). simpl. congruence.
    + intros _ w' (w7 & Hc7 & Hd).
      exact (exit_armed (armed_calm Ha6 Hc7) Hd).
  - apply sat_die. intros msg'.
    apply (@exit_armed w _ w6); [exact Ha6|now left].
Qed.

(** *** the memory effect of each branch, block by block *)

Definition obind {A B} (o : option A) (f : A -> option B) : option B :=
  match o with
  | Some a => f a
  | None => None
  end.

(** the accesses of [insert_char] to the block of [current_buf], in order *)
Definition blk_insert (b : block) (c n key : Z) : option block :=
  obind (if to_size c <? n
         then obind (blk_memmove b (c + 1) c (to_size (n - c + 1)))
                (fun b1 => obind (blk_read b1 (c + 1) (to_size (n - c)))
                             (fun _ => Some b1))
         else Some b)
    (fun b1 => obind (blk_store b1 c (byte_of_int key))
                 (fun b2 => blk_store b2 (to_size (n + 1)) 0)).

(** the accesses of [backspace], for a cursor that is not at 0 *)
Definition blk_backspace (b : block) (c n : Z) : option block :=
  let c' := to_int (c - 1) in
  obind (blk_memmove b c' (c' + 1) (to_size (n - c')))
    (fun b1 => obind (blk_store b1 (to_size (n - 1)) 0)
                 (fun b2 => obind (blk_read b2 0 (to_size (n - 1)))
                              (fun _ => Some b2))).

Lemma nth_error_replace_nth_same {A} (p : nat) (b b' : A) (l : list A) :
  nth_error l p = Some b -> nth_error (replace_nth p b' l) p = Some b'.
Proof.
  intros H. rewrite nth_error_replace_nth.
  - now rewrite Nat.eqb_refl.
  - apply nth_error_Some. congruence.
Qed.

Arguments nth_error_replace_nth_same {A p b} b' {l} _.

Lemma replace_nth_twice {A} (p : nat) (b1 b2 : A) (l : list A) :
  (p < length l)%nat ->
  replace_nth p b2 (replace_nth p b1 l) = replace_nth p b2 l.
Proof.
  unfold replace_nth. revert l.
  induction p as [|p IH]; intros [|x l] H; simpl in *; try lia.
  - reflexivity.
  - f_equal. apply IH. lia.
Qed.

Lemma option_map_pair_inv {A B} (f : A -> B) (o : option A) (y : B) :
  option_map f o = Some y -> exists x, o = Some x /\ y = f x.
Proof. destruct o; simpl; intros H; [injection H as <-; eauto|discriminate]. Qed.

(** one access to the block [p], whose content [b] is known *)
Lemma sat_with_block_at {A} p (f : block -> option (A * block)) w b
      (Q : A -> world -> Prop) E (X : Prop) :
  nth_error (heap w) p = Some b ->
  (forall a b', f b = Some (a, b') ->
                Q a (set_heap (replace_nth p b' (heap w)) w)) ->
  (f b = None -> X) ->
  sat (with_block p f w) Q E X.
Proof.
  intros Hb H1 H2. unfold with_block. rewrite Hb.
  destruct (f b) as [[a b']|]; simpl; auto.
Qed.

Lemma sat_store_at p i v w b (Q : unit -> world -> Prop) E (X : Prop) :
  nth_error (heap w) p = Some b ->
  (forall b', blk_store b i v = Some b' ->
              Q tt (set_heap (replace_nth p b' (heap w)) w)) ->
  (blk_store b i v = None -> X) ->
  sat (store p i v w) Q E X.
Proof.
  intros Hb H1 H2. unfold store. apply sat_with_block_at with b; auto.
  - intros [] b' H. apply option_map_pair_inv in H as (x & Hx & [= <-]). auto.
  - destruct (blk_store b i v); [discriminate|auto].
Qed.

Lemma sat_memmove_at p d s n w b (Q : unit -> world -> Prop) E (X : Prop) :
  nth_error (heap w) p = Some b ->
  (forall b', blk_memmove b d s n = Some b' ->
              Q tt (set_heap (replace_nth p b' (heap w)) w)) ->
  (blk_memmove b d s n = None -> X) ->
  sat (memmove p d s n w) Q E X.
Proof.
  intros Hb H1 H2. unfold memmove. apply sat_with_block_at with b; auto.
  - intros [] b' H. apply option_map_pair_inv in H as (x & Hx & [= <-]). auto.
  - destruct (blk_memmove b d s n); [discriminate|auto].
Qed.

Lemma sat_load_bytes_at p off n w b (Q : list Z -> world -> Prop) E (X : Prop) :
  nth_error (heap w) p = Some b ->
  (forall d, blk_read b off n = Some d -> Q d w) ->
  (blk_read b off n = None -> X) ->
  sat (load_bytes p off n w) Q E X.
Proof.
  intros Hb H1 H2. unfold load_bytes. apply sat_with_block_at with b; auto.
  - intros a b' H. apply option_map_pair_inv in H as (x & Hx & [= <- <-]).
    rewrite (replace_nth_same _ _ Hb). destruct w; now apply H1.
  - destruct (blk_read b off n); [discriminate|auto].
Qed.

Lemma sat_strlen_at p w b (Q : Z -> world -> Prop) E (X : Prop) :
  nth_error (heap w) p = Some b ->
  (forall n, blk_strlen b = Some n -> Q n w) ->
  (blk_strlen b = None -> X) ->
  sat (strlen p w) Q E X.
Proof.
  intros Hb H1 H2. unfold strlen. apply sat_with_block_at with b; auto.
  - intros a b' H. apply option_map_pair_inv in H as (x & Hx & [= <- <-]).
    rewrite (replace_nth_same _ _ Hb). destruct w; now apply H1.
  - destruct (blk_strlen b); [discriminate|auto].
Qed.

Lemma sat_write_block_at p d w b (Q : unit -> world -> Prop) E (X : Prop) :
  nth_error (heap w) p = Some b ->
  (forall b', blk_write b 0 d = Some b' ->
              Q tt (set_heap (replace_nth p b' (heap w)) w)) ->
  (blk_write b 0 d = None -> X) ->
  sat (write_block p d w) Q E X.
Proof.
  intros Hb H1 H2. unfold write_block. apply sat_with_block_at with b; auto.
  - intros [] b' H. apply option_map_pair_inv in H as (x & Hx & [= <-]). auto.
  - destruct (blk_write b 0 d); [discriminate|auto].
Qed.

Ltac mem_step H :=
  cbv beta zeta; simpl_world;
  lazymatch goal with
  | |- sat (store _ _ _ _) _ _ _ =>
      eapply sat_store_at; [exact H | intros ?b' ?Hst | intros ?Hnone]
  | |- sat (memmove _ _ _ _ _) _ _ _ =>
      eapply sat_memmove_at; [exact H | intros ?b' ?Hmv | intros ?Hnone]
  | |- sat (load_bytes _ _ _ _) _ _ _ =>
      eapply sat_load_bytes_at; [exact H | intros ?d ?Hrd | intros ?Hnone]
  | |- sat (strlen _ _) _ _ _ =>
      eapply sat_strlen_at; [exact H | intros ?n ?Hlen | intros ?Hnone]
  | |- sat (write_block _ _ _) _ _ _ =>
      eapply sat_write_block_at; [exact H | intros ?b' ?Hwr | intros ?Hnone]
  end.

Ltac io_steps :=
  repeat (cbv beta zeta; simpl_world;
          lazymatch goal with
          | |- sat (bind _ _ _) _ _ _ => apply sat_bind
          | |- sat (ret _ _) _ _ _ => unfold ret at 1; cbn [sat]
          | |- sat (get _ _) _ _ _ => unfold get at 1; cbn [sat]
          | |- sat (modify _ _) _ _ _ => unfold modify at 1; cbn [sat]
          | |- sat (sys_write _ _) _ _ _ => apply sat_sys_write; intros ?r ?Hwf
          | |- sat (or_die _ _ _) _ _ _ =>
              apply sat_or_die; [intros ?Hok | intros ?Hok ?msg];
              try discriminate
          | |- sat (move_cursor_to _ _ _) _ _ _ => unfold move_cursor_to
          | |- sat (move_cursor_left _) _ _ _ => unfold move_cursor_left
          | |- sat (move_cursor_right _) _ _ _ => unfold move_cursor_right
          | |- sat (repaint_line _ _ _ _ _) _ _ _ => unfold repaint_line
          end).

Ltac norm := cbv beta zeta; simpl_world.

Lemma insert_char_effect (l : locals) (key : Z) (w : world) (b : block) :
  nth_error (heap w) (current_buf l) = Some b ->
  sat (insert_char l key w)
      (fun l' w' =>
         exists b',
           blk_insert b (cursor_pos l) (num_chars l) key = Some b'
           /\ heap w' = replace_nth (current_buf l) b' (heap w)
           /\ l' = set_num_chars (to_size (num_chars l + 1))
                     (set_cursor_pos (to_int (cursor_pos l + 1)) l)
           /\ steady w w' /\ history_index w' = history_index w
           /\ (no_fault (write_faults w) -> no_fault (write_faults w')))
      (fun _ _ => ~ no_fault (write_faults w))
      (blk_insert b (cursor_pos l) (num_chars l) key = None).
Proof.
  intros Hb. unfold insert_char, blk_insert.
  assert (Hlt : (current_buf l < length (heap w))%nat)
    by (apply nth_error_Some; congruence).
  io_steps; try solve [write_fault].
  destruct (to_size (cursor_pos l) <? num_chars l).
  - io_steps. mem_step Hb; [|now rewrite Hnone].
    rewrite Hmv. cbn [obind].
    pose proof (nth_error_replace_nth_same b' Hb) as Hb1.
    io_steps. mem_step Hb1; [|now rewrite Hnone].
    rewrite Hrd. cbn [obind].
    io_steps; try solve [write_fault].
    mem_step Hb1; [|now rewrite Hnone].
    rewrite Hst. cbn [obind]. norm. rewrite replace_nth_twice by exact Hlt.
    pose proof (nth_error_replace_nth_same b'0 Hb) as Hb2.
    io_steps. mem_step Hb2; [|now rewrite Hnone].
    norm. rewrite replace_nth_twice by exact Hlt.
    io_steps. exists b'1. repeat split; auto. write_fault. assumption.
  - cbn [obind]. io_steps. mem_step Hb; [|now rewrite Hnone].
    rewrite Hst. cbn [obind].
    pose proof (nth_error_replace_nth_same b' Hb) as Hb2.
    io_steps. mem_step Hb2; [|now rewrite Hnone].
    norm. rewrite replace_nth_twice by exact Hlt.
    io_steps. exists b'0. repeat split; auto. write_fault. assumption.
Qed.

Lemma backspace_at_start (l : locals) (w : world) :
  cursor_pos l = 0 -> backspace l w = Done (Continue l) w.
Proof. intros H. unfold backspace. rewrite H. reflexivity. Qed.

Lemma backspace_effect (l : locals) (w : world) (b : block) :
  nth_error (heap w) (current_buf l) = Some b ->
  cursor_pos l <> 0 ->
  sat (backspace l w)
      (fun c w' =>
         exists b',
           blk_backspace b (cursor_pos l) (num_chars l) = Some b'
           /\ heap w' = replace_nth (current_buf l) b' (heap w)
           /\ c = Continue (set_num_chars (to_size (num_chars l - 1))
                              (set_cursor_pos (to_int (cursor_pos l - 1)) l))
           /\ steady w w' /\ history_index w' = history_index w
           /\ (no_fault (write_faults w) -> no_fault (write_faults w')))
      (fun _ _ => ~ no_fault (write_faults w))
      (blk_backspace b (cursor_pos l) (num_chars l) = None).
Proof.
  intros Hb Hc. unfold backspace, blk_backspace.
  assert (Hlt : (current_buf l < length (heap w))%nat)
    by (apply nth_error_Some; congruence).
  destruct (Z.eqb_spec (cursor_pos l) 0) as [|_]; [contradiction|].
  io_steps. mem_step Hb; [|now rewrite Hnone].
  rewrite Hmv. cbn [obind].
  pose proof (nth_error_replace_nth_same b' Hb) as Hb1.
  io_steps. mem_step Hb1; [|now rewrite Hnone].
  rewrite Hst. cbn [obind]. norm. rewrite replace_nth_twice by exact Hlt.
  pose proof (nth_error_replace_nth_same b'0 Hb) as Hb2.
  io_steps; try solve [write_fault].
  mem_step Hb2; [|now rewrite Hnone].
  rewrite Hrd. cbn [obind].
  io_steps; try solve [write_fault].
  exists b'0. repeat split; auto. write_fault. assumption.
Qed.

(** the line [history_move] recalls: the block of entry [hi] and the
    length of the string in it *)
Definition recall (w : world) (hi : Z) : option (ptr * Z) :=
  obind (history w) (fun v =>
  obind (Vector.get v hi) (fun p =>
  obind (nth_error (heap w) p) (fun b =>
  obind (blk_strlen b) (fun n =>
  obind (blk_read b 0 n) (fun _ => Some (p, n)))))).

Definition at_boundary (l : locals) (key : Z) (w : world) : bool :=
  ((key =? KEY_ARROW_UP) && (history_index w =? 0))
  || ((key =? KEY_ARROW_DOWN)
      && (history_index w =? to_size (history_len l - 1))).

Definition moved_index (key : Z) (w : world) : Z :=
  to_size (history_index w + (if key =? KEY_ARROW_UP then -1 else 1)).

Lemma history_move_at_boundary (l : locals) (key : Z) (w : world) :
  at_boundary l key w = true -> history_move l key w = Done (Continue l) w.
Proof.
  intros H. unfold history_move, bind, get. cbv beta iota.
  unfold at_boundary in H. rewrite H. reflexivity.
Qed.

Lemma history_move_effect (l : locals) (key : Z) (w : world) :
  at_boundary l key w = false ->
  sat (history_move l key w)
      (fun c w' =>
         exists p n,
           recall w (moved_index key w) = Some (p, n)
           /\ c = Continue (set_num_chars n
                              (set_cursor_pos (to_int n)
                                 (set_current_buf p l)))
           /\ history_index w' = moved_index key w
           /\ heap w' = heap w /\ steady w w')
      (fun _ _ => ~ no_fault (write_faults w))
      (recall w (moved_index key w) = None).
Proof.
  intros Hbd. unfold history_move, recall.
  apply sat_bind. unfold get at 1. cbn [sat].
  fold (at_boundary l key w). rewrite Hbd.
  io_steps. fold (moved_index key w).
  apply sat_history_get; [intros v p Hv Hp|].
  2: { norm. intros [H|(v & H1 & H2)]; simpl in *.
       - now rewrite H.
       - rewrite H1. cbn [obind]. now rewrite H2. }
  norm. simpl in Hv. rewrite Hv. cbn [obind]. rewrite Hp. cbn [obind].
  destruct (nth_error (heap w) p) as [b|] eqn:Hb; cbn [obind].
  2: { unfold strlen, with_block, bind. simpl. rewrite Hb. reflexivity. }
  io_steps. mem_step Hb; [|now rewrite Hnone].
  rewrite Hlen. cbn [obind].
  io_steps; try solve [write_fault].
  mem_step Hb; [|now rewrite Hnone].
  rewrite Hrd. cbn [obind].
  io_steps; try solve [write_fault].
  exists p, n. repeat split; auto.
Qed.

Lemma cursor_left_effect (l : locals) (w : world) :
  sat (cursor_left l w)
      (fun c w' =>
         c = Continue (if cursor_pos l =? 0 then l
                       else set_cursor_pos (to_int (cursor_pos l - 1)) l)
         /\ heap w' = heap w /\ history_index w' = history_index w
         /\ steady w w'
         /\ (cursor_pos l = 0 -> w' = w))
      (fun _ _ => False) False.
Proof.
  unfold cursor_left.
  destruct (Z.eqb_spec (cursor_pos l) 0) as [H0|H0].
  - cbn. repeat split; auto using steady_refl.
  - io_steps; repeat split; auto; try steady_tac; contradiction.
Qed.

Lemma cursor_right_effect (l : locals) (w : world) :
  sat (cursor_right l w)
      (fun c w' =>
         c = Continue (if to_size (cursor_pos l) =? num_chars l then l
                       else set_cursor_pos (to_int (cursor_pos l + 1)) l)
         /\ heap w' = heap w /\ history_index w' = history_index w
         /\ steady w w'
         /\ (to_size (cursor_pos l) = num_chars l -> w' = w))
      (fun _ _ => False) False.
Proof.
  unfold cursor_right.
  destruct (Z.eqb_spec (to_size (cursor_pos l)) (num_chars l)) as [H0|H0].
  - cbn. repeat split; auto using steady_refl.
  - io_steps; repeat split; auto; try steady_tac; contradiction.
Qed.

Definition num_chars_to_copy (l : locals) : Z :=
  if num_chars l <? buf_size l then to_size (num_chars l + 1) else buf_size l.

(** the accesses of the code after [end_of_loop] to the caller's array and
    to the heap [h], for the history vector [v] and index [hi] *)
Definition finish_heap (h : list block) (v : list ptr) (hi : Z)
           (buf : list Z) (l : locals) : option (list Z * list block) :=
  obind (nth_error h (current_buf l)) (fun b =>
  obind (blk_store b (num_chars l) 0) (fun b1 =>
  let h1 := replace_nth (current_buf l) b1 h in
  obind (blk_read b1 0 (num_chars_to_copy l)) (fun data =>
  obind (blk_write buf 0 data) (fun buf' =>
  if hi <? to_size (history_len l - 1) then
    obind (Vector.get v (to_size (history_len l - 1))) (fun last =>
    obind (nth_error h1 last) (fun bl =>
    obind (blk_write bl 0 data) (fun bl' =>
    Some (buf', replace_nth last bl' h1))))
  else Some (buf', h1))))).

Lemma end_of_loop_effect (buf : list Z) (l : locals) (w : world)
      (v : list ptr) :
  history w = Some v ->
  sat (end_of_loop buf l w)
      (fun a w' =>
         exists buf' h',
           finish_heap (heap w) v (history_index w) buf l = Some (buf', h')
           /\ a = (RL_SUCCESS, buf') /\ heap w' = h'
           /\ history_index w' = history_index w
           /\ exists w1, steady w w1 /\ returns_from w1 w')
      (fun _ _ => ~ no_fault (tcset_faults w))
      (finish_heap (heap w) v (history_index w) buf l = None).
Proof.
  intros Hv. unfold end_of_loop, finish_heap.
  fold (num_chars_to_copy l).
  destruct (nth_error (heap w) (current_buf l)) as [b|] eqn:Hb; cbn [obind].
  2: { apply sat_bind. unfold store, with_block. now rewrite Hb. }
  assert (Hlt : (current_buf l < length (heap w))%nat)
    by (apply nth_error_Some; congruence).
  io_steps. mem_step Hb; [|now rewrite Hnone].
  rewrite Hst. cbn [obind].
  pose proof (nth_error_replace_nth_same b' Hb) as Hb1.
  io_steps. mem_step Hb1; [|now rewrite Hnone].
  rewrite Hrd. cbn [obind]. norm.
  destruct (blk_write buf 0 d) as [buf'|]; cbn [obind]; [|reflexivity].
  io_steps.
  destruct (history_index w <? to_size (history_len l - 1)).
  - io_steps.
    apply sat_history_get; [intros v' last Hv' Hlast|].
    2: { norm. simpl. rewrite Hv. intros [H|(v' & [= <-] & H)];
           [discriminate|now rewrite H]. }
    simpl in Hv'. rewrite Hv in Hv'. injection Hv' as <-.
    rewrite Hlast. cbn [obind].
    io_steps. mem_step Hb1; [|congruence].
    assert (d0 = d) as -> by congruence.
    destruct (nth_error (replace_nth (current_buf l) b' (heap w)) last)
      as [bl|] eqn:Hbl; cbn [obind].
    2: { unfold write_block, with_block. norm. now rewrite Hbl. }
    mem_step Hbl; [|now rewrite Hnone].
    rewrite Hwr. cbn [obind].
    io_steps. apply sat_disable_raw_mode; [intros w' Hr|].
    2: { intros w' msg (r & Hr & _) Hnf. simpl in Hr.
         now destruct (no_fault_next Hnf Hr). }
    io_steps. destruct Hr as (r & Hn & ->).
    exists buf'. eexists. repeat split.
    eexists. split; [|exists r; split; [exact Hn|reflexivity]]. steady_tac.
  - io_steps. apply sat_disable_raw_mode; [intros w' Hr|].
    2: { intros w' msg (r & Hr & _) Hnf. simpl in Hr.
         now destruct (no_fault_next Hnf Hr). }
    io_steps. destruct Hr as (r & Hn & ->).
    exists buf'. eexists. repeat split.
    eexists. split; [|exists r; split; [exact Hn|reflexivity]]. steady_tac.
Qed.

(* ------------------------------------------------------------------ *)
(** ** Blocks, byte by byte *)

(** [b[i]] *)
Definition zget (b : list Z) (i : Z) : Z := nth (Z.to_nat i) b 0.

Lemma zlen_nonneg {A} (l : list A) : 0 <= zlen l.
Proof. unfold zlen. lia. Qed.

Lemma zget_ext (b b' : list Z) :
  zlen b = zlen b' ->
  (forall i, 0 <= i < zlen b -> zget b i = zget b' i) ->
  b = b'.
Proof.
  unfold zlen, zget. intros Hl H.
  apply nth_ext with 0 0; [lia|].
  intros n Hn. specialize (H (Z.of_nat n)).
  rewrite Nat2Z.id in H. apply H. lia.
Qed.

Lemma nth_splice (b d : list Z) (o j : nat) :
  (o + length d <= length b)%nat ->
  nth j (firstn o b ++ d ++ skipn (o + length d) b) 0
  = if ((o <=? j) && (j <? o + length d))%nat then nth (j - o) d 0
    else nth j b 0.
Proof.
  intros Hle.
  assert (Hf : length (firstn o b) = o) by (rewrite length_firstn; lia).
  destruct (Nat.leb_spec o j) as [Hoj|Hoj]; cbn [andb].
  - rewrite app_nth2 by lia. rewrite Hf.
    destruct (Nat.ltb_spec j (o + length d)) as [Hjd|Hjd].
    + rewrite app_nth1 by lia. reflexivity.
    + rewrite app_nth2 by lia. rewrite nth_skipn. f_equal. lia.
  - rewrite app_nth1 by lia. rewrite nth_firstn.
    destruct (Nat.ltb_spec j o); [reflexivity|lia].
Qed.

Lemma splice_length (b d : list Z) (o : nat) :
  (o + length d <= length b)%nat ->
  length (firstn o b ++ d ++ skipn (o + length d) b) = length b.
Proof.
  intros H. rewrite !length_app, length_firstn, length_skipn. lia.
Qed.

Lemma blk_write_spec (b : block) (off : Z) (d : list Z) (b' : block) :
  blk_write b off d = Some b' ->
  0 <= off /\ off + zlen d <= zlen b /\ zlen b' = zlen b
  /\ forall i, 0 <= i ->
       zget b' i = if (off <=? i) && (i <? off + zlen d)
                   then zget d (i - off) else zget b i.
Proof.
  unfold blk_write, zlen, zget.
  destruct (Z.leb_spec 0 off) as [H0|]; [|discriminate]. cbn [andb].
  destruct (Z.leb_spec (off + Z.of_nat (length d)) (Z.of_nat (length b)))
    as [H1|]; [|discriminate].
  intros [= <-].
  assert (Hle : (Z.to_nat off + length d <= length b)%nat) by lia.
  repeat split; try lia.
  - rewrite (@splice_length _ _ _ Hle). reflexivity.
  - intros i Hi. rewrite (@nth_splice _ _ _ (Z.to_nat i) Hle).
    assert (Hc : ((Z.to_nat off <=? Z.to_nat i)
                  && (Z.to_nat i <? Z.to_nat off + length d))%nat
                 = ((off <=? i) && (i <? off + Z.of_nat (length d)))).
    { destruct (Z.leb_spec off i), (Nat.leb_spec (Z.to_nat off) (Z.to_nat i)),
               (Z.ltb_spec i (off + Z.of_nat (length d))),
               (Nat.ltb_spec (Z.to_nat i) (Z.to_nat off + length d));
        try reflexivity; lia. }
    rewrite Hc.
    destruct ((off <=? i) && (i <? off + Z.of_nat (length d))) eqn:Hc';
      [|reflexivity].
    apply andb_prop in Hc' as [Hc1 Hc2]. apply Z.leb_le in Hc1.
    f_equal. lia.
Qed.

Lemma blk_write_ok (b : block) (off : Z) (d : list Z) :
  0 <= off -> off + zlen d <= zlen b -> blk_write b off d <> None.
Proof.
  unfold blk_write. intros H0 H1.
  destruct (Z.leb_spec 0 off); [|lia]. cbn [andb].
  destruct (Z.leb_spec (off + zlen d) (zlen b)); [discriminate|lia].
Qed.

Lemma blk_read_spec (b : block) (off n : Z) (d : list Z) :
  blk_read b off n = Some d ->
  0 <= off /\ 0 <= n /\ off + n <= zlen b /\ zlen d = n
  /\ forall i, 0 <= i < n -> zget d i = zget b (off + i).
Proof.
  unfold blk_read, zlen, zget.
  destruct (Z.leb_spec 0 off) as [H0|]; [|discriminate]. cbn [andb].
  destruct (Z.leb_spec 0 n) as [H1|]; [|discriminate]. cbn [andb].
  destruct (Z.leb_spec (off + n) (Z.of_nat (length b))) as [H2|];
    [|discriminate].
  intros [= <-]. repeat split; try lia.
  - rewrite length_firstn, length_skipn. lia.
  - intros i Hi. rewrite nth_firstn.
    destruct (Nat.ltb_spec (Z.to_nat i) (Z.to_nat n)); [|lia].
    rewrite nth_skipn. f_equal. lia.
Qed.

Lemma blk_read_ok (b : block) (off n : Z) :
  0 <= off -> 0 <= n -> off + n <= zlen b -> blk_read b off n <> None.
Proof.
  unfold blk_read. intros H0 H1 H2.
  destruct (Z.leb_spec 0 off); [|lia].
  destruct (Z.leb_spec 0 n); [|lia].
  destruct (Z.leb_spec (off + n) (zlen b)); [discriminate|lia].
Qed.

Lemma blk_store_spec (b : block) (i v : Z) (b' : block) :
  blk_store b i v = Some b' ->
  0 <= i < zlen b /\ zlen b' = zlen b
  /\ forall j, 0 <= j -> zget b' j = if j =? i then v else zget b j.
Proof.
  unfold blk_store. intros H.
  apply blk_write_spec in H as (H0 & H1 & H2 & H3).
  change (zlen [v]) with 1 in *.
  repeat split; try lia.
  intros j Hj. rewrite (H3 j Hj).
  destruct (Z.leb_spec i j), (Z.ltb_spec j (i + 1)), (Z.eqb_spec j i);
    try lia; cbn [andb]; try reflexivity.
  subst. unfold zget. now rewrite Z.sub_diag.
Qed.

Lemma blk_store_ok (b : block) (i v : Z) :
  0 <= i < zlen b -> blk_store b i v <> None.
Proof.
  intros H. apply blk_write_ok; change (zlen [v]) with 1; lia.
Qed.

Lemma blk_memmove_spec (b : block) (dst src n : Z) (b' : block) :
  blk_memmove b dst src n = Some b' ->
  0 <= dst /\ 0 <= src /\ 0 <= n /\ dst + n <= zlen b /\ src + n <= zlen b
  /\ zlen b' = zlen b
  /\ forall i, 0 <= i ->
       zget b' i = if (dst <=? i) && (i <? dst + n)
                   then zget b (src + (i - dst)) else zget b i.
Proof.
  unfold blk_memmove.
  destruct (blk_read b src n) as [d|] eqn:Hd; [|discriminate].
  apply blk_read_spec in Hd as (H0 & H1 & H2 & H3 & H4).
  intros H. apply blk_write_spec in H as (H5 & H6 & H7 & H8).
  rewrite H3 in *. repeat split; try lia.
  intros i Hi. rewrite (H8 i Hi).
  destruct ((dst <=? i) && (i <? dst + n)) eqn:Hc; [|reflexivity].
  apply andb_prop in Hc as [Hc1 Hc2].
  apply Z.leb_le in Hc1. apply Z.ltb_lt in Hc2.
  apply H4. lia.
Qed.

Lemma blk_memmove_ok (b : block) (dst src n : Z) :
  0 <= dst -> 0 <= src -> 0 <= n -> dst + n <= zlen b -> src + n <= zlen b ->
  blk_memmove b dst src n <> None.
Proof.
  intros H0 H1 H2 H3 H4. unfold blk_memmove.
  destruct (blk_read b src n) as [d|] eqn:Hd.
  - apply blk_read_spec in Hd as (_ & _ & _ & Hl & _).
    apply blk_write_ok; lia.
  - exfalso. revert Hd. now apply blk_read_ok.
Qed.

Lemma zget_cons_succ (c : Z) (r : list Z) (i : Z) :
  0 <= i -> zget (c :: r) (i + 1) = zget r i.
Proof.
  intros H. unfold zget.
  replace (Z.to_nat (i + 1)) with (S (Z.to_nat i)) by lia. reflexivity.
Qed.

Lemma zlen_cons {A} (c : A) (r : list A) : zlen (c :: r) = zlen r + 1.
Proof. unfold zlen. cbn [length]. lia. Qed.

Lemma blk_strlen_sound (b : block) (n : Z) :
  blk_strlen b = Some n ->
  0 <= n < zlen b /\ zget b n = 0 /\ forall i, 0 <= i < n -> zget b i <> 0.
Proof.
  revert n. induction b as [|c r IH]; intros n; cbn [blk_strlen];
    [discriminate|].
  rewrite zlen_cons. pose proof (zlen_nonneg r) as Hr.
  destruct (Z.eqb_spec c 0) as [->|Hc].
  - intros [= <-]. repeat split; lia.
  - destruct (blk_strlen r) as [m|]; cbn [option_map]; [|discriminate].
    intros [= <-]. destruct (IH m eq_refl) as (Hm1 & Hm2 & Hm3).
    unfold Z.succ. repeat split; try lia.
    + now rewrite zget_cons_succ by lia.
    + intros i Hi. destruct (Z.eq_dec i 0) as [->|Hi0]; [exact Hc|].
      replace i with (i - 1 + 1) by lia.
      rewrite zget_cons_succ by lia. apply Hm3. lia.
Qed.

Lemma blk_strlen_complete (b : block) (n : Z) :
  0 <= n < zlen b -> zget b n = 0 ->
  (forall i, 0 <= i < n -> zget b i <> 0) ->
  blk_strlen b = Some n.
Proof.
  revert n. induction b as [|c r IH]; intros n Hn Hz Hnz.
  - unfold zlen in Hn. simpl in Hn. lia.
  - cbn [blk_strlen]. rewrite zlen_cons in Hn.
    destruct (Z.eqb_spec c 0) as [->|Hc].
    + destruct (Z.eq_dec n 0) as [->|Hn0]; [reflexivity|].
      exfalso. apply (Hnz 0); [lia|reflexivity].
    + destruct (Z.eq_dec n 0) as [->|Hn0]; [contradiction|].
      rewrite (IH (n - 1)).
      * cbn [option_map]. f_equal. lia.
      * lia.
      * rewrite <- (zget_cons_succ c r) by lia.
        now replace (n - 1 + 1) with n by lia.
      * intros i Hi. rewrite <- (zget_cons_succ c r) by lia.
        apply Hnz. lia.
Qed.

(** a NUL inside the block ends some string *)
Lemma blk_strlen_defined (b : block) (n : Z) :
  0 <= n < zlen b -> zget b n = 0 ->
  exists m, blk_strlen b = Some m /\ m <= n.
Proof.
  revert n. induction b as [|c r IH]; intros n Hn Hz.
  - unfold zlen in Hn. simpl in Hn. lia.
  - cbn [blk_strlen]. rewrite zlen_cons in Hn.
    destruct (Z.eqb_spec c 0) as [->|Hc].
    + exists 0. split; [reflexivity|lia].
    + destruct (Z.eq_dec n 0) as [->|Hn0]; [contradiction|].
      destruct (IH (n - 1)) as (m & Hm & Hle).
      * lia.
      * rewrite <- (zget_cons_succ c r) by lia.
        now replace (n - 1 + 1) with n by lia.
      * rewrite Hm. exists (Z.succ m). split; [reflexivity|lia].
Qed.

(* ------------------------------------------------------------------ *)
(** ** The line buffer *)

(** The line-buffer invariant for a block [b] that holds the line, a cursor
    offset [c] and a length [n]: [b] holds a string of length [n] (so [n]
    is below the capacity and [b[n]] is the NUL), the cursor lies inside the
    line, and the capacity is at least [bs] and fits an [int]. *)
Record line_ok (bs : Z) (b : block) (c n : Z) : Prop := mk_line_ok {
  line_strlen : blk_strlen b = Some n;
  line_cursor : 0 <= c <= n;
  line_capacity : bs <= zlen b <= INT_MAX
}.

Lemma line_ok_bounds bs b c n :
  line_ok bs b c n ->
  0 <= c <= n /\ n < zlen b /\ zlen b <= INT_MAX /\ zget b n = 0
  /\ forall i, 0 <= i < n -> zget b i <> 0.
Proof.
  intros [Hs Hc Hcap]. apply blk_strlen_sound in Hs as (H1 & H2 & H3).
  repeat split; try lia; assumption.
Qed.

Lemma isprint_byte (key : Z) :
  isprint key = true -> byte_of_int key = key /\ key <> 0.
Proof.
  unfold isprint, byte_of_int. intros H. apply andb_prop in H as [H1 H2].
  apply Z.leb_le in H1, H2. rewrite Z.mod_small; lia.
Qed.

Ltac small_ints :=
  repeat match goal with
  | |- context [to_size ?z] => rewrite (@to_size_small z) by (unfold SIZE_MOD, INT_MAX in *; lia)
  | |- context [to_int ?z] => rewrite (@to_int_small z) by (unfold SIZE_MOD, INT_MAX in *; lia)
  end.

Ltac bool_cases :=
  repeat match goal with
  | |- context [?x <=? ?y] => destruct (Z.leb_spec x y)
  | |- context [?x <? ?y] => destruct (Z.ltb_spec x y)
  | |- context [?x =? ?y] => destruct (Z.eqb_spec x y)
  end; cbn [andb orb negb]; try lia; try reflexivity.

(** what [insert_char] does to the block of the line *)
Lemma blk_insert_spec (bs : Z) (b : block) (c n key : Z) :
  line_ok bs b c n -> n < bs - 1 -> isprint key = true ->
  exists b',
    blk_insert b c n key = Some b'
    /\ zlen b' = zlen b
    /\ (forall i, 0 <= i ->
          zget b' i = if i <? c then zget b i
                      else if i =? c then key
                      else if i <=? n + 1 then zget b (i - 1)
                      else zget b i)
    /\ line_ok bs b' (c + 1) (n + 1).
Proof.
  intros Hok Hguard Hkey.
  destruct (line_ok_bounds Hok) as (Hc & Hn & Hmax & Hz & Hnz).
  destruct (isprint_byte key Hkey) as [Hbyte Hk0].
  pose proof (line_capacity Hok) as Hcap.
  unfold blk_insert. rewrite Hbyte. small_ints.
  assert (H1 : exists b1,
             (if c <? n
              then obind (blk_memmove b (c + 1) c (n - c + 1))
                     (fun b1 => obind (blk_read b1 (c + 1) (n - c))
                                  (fun _ => Some b1))
              else Some b) = Some b1
             /\ zlen b1 = zlen b
             /\ forall i, 0 <= i -> i <> n + 1 ->
                  zget b1 i = if (c + 1 <=? i) && (i <? n + 1)
                              then zget b (i - 1) else zget b i).
  { destruct (Z.ltb_spec c n) as [Hcn|Hcn].
    - destruct (blk_memmove b (c + 1) c (n - c + 1)) as [b1|] eqn:Hmv.
      2: { exfalso. revert Hmv. apply blk_memmove_ok; lia. }
      apply blk_memmove_spec in Hmv as (_ & _ & _ & _ & _ & Hl & Hg).
      cbn [obind].
      destruct (blk_read b1 (c + 1) (n - c)) as [d|] eqn:Hrd.
      2: { exfalso. revert Hrd. apply blk_read_ok; lia. }
      cbn [obind]. exists b1. repeat split; [exact Hl|].
      intros i Hi Hi'. rewrite (Hg i Hi).
      replace (c + (i - (c + 1))) with (i - 1) by lia.
      bool_cases.
    - exists b. repeat split. intros i Hi Hi'. bool_cases. }
  destruct H1 as (b1 & -> & Hl1 & Hg1). cbn [obind].
  destruct (blk_store b1 c key) as [b2|] eqn:Hst2.
  2: { exfalso. revert Hst2. apply blk_store_ok. lia. }
  apply blk_store_spec in Hst2 as (_ & Hl2 & Hg2). cbn [obind].
  destruct (blk_store b2 (n + 1) 0) as [b3|] eqn:Hst3.
  2: { exfalso. revert Hst3. apply blk_store_ok. lia. }
  apply blk_store_spec in Hst3 as (_ & Hl3 & Hg3).
  exists b3. split; [reflexivity|]. split; [congruence|].
  assert (Hget : forall i, 0 <= i ->
            zget b3 i = if i <? c then zget b i
                        else if i =? c then key
                        else if i <=? n + 1 then zget b (i - 1)
                        else zget b i).
  { intros i Hi. rewrite (Hg3 i Hi).
    destruct (Z.eqb_spec i (n + 1)) as [->|Hi'].
    - bool_cases. replace (n + 1 - 1) with n by lia. now rewrite Hz.
    - rewrite (Hg2 i Hi), (Hg1 i Hi Hi'). bool_cases. }
  split; [exact Hget|].
  constructor; try lia.
  apply blk_strlen_complete.
  - lia.
  - rewrite Hget by lia. bool_cases.
    replace (n + 1 - 1) with n by lia. exact Hz.
  - intros i Hi. rewrite Hget by lia. bool_cases; apply Hnz; lia.
Qed.

(** what [backspace] does to the block of the line *)
Lemma blk_backspace_spec (bs : Z) (b : block) (c n : Z) :
  line_ok bs b c n -> c <> 0 ->
  exists b',
    blk_backspace b c n = Some b'
    /\ zlen b' = zlen b
    /\ (forall i, 0 <= i ->
          zget b' i = if i <? c - 1 then zget b i
                      else if i <? n then zget b (i + 1)
                      else zget b i)
    /\ line_ok bs b' (c - 1) (n - 1).
Proof.
  intros Hok Hc0.
  destruct (line_ok_bounds Hok) as (Hc & Hn & Hmax & Hz & Hnz).
  pose proof (line_capacity Hok) as Hcap.
  unfold blk_backspace. small_ints.
  destruct (blk_memmove b (c - 1) (c - 1 + 1) (n - (c - 1))) as [b1|] eqn:Hmv.
  2: { exfalso. revert Hmv. apply blk_memmove_ok; lia. }
  apply blk_memmove_spec in Hmv as (_ & _ & _ & _ & _ & Hl1 & Hg1).
  cbn [obind].
  destruct (blk_store b1 (n - 1) 0) as [b2|] eqn:Hst.
  2: { exfalso. revert Hst. apply blk_store_ok. lia. }
  apply blk_store_spec in Hst as (_ & Hl2 & Hg2). cbn [obind].
  destruct (blk_read b2 0 (n - 1)) as [d|] eqn:Hrd.
  2: { exfalso. revert Hrd. apply blk_read_ok; lia. }
  cbn [obind]. exists b2. split; [reflexivity|]. split; [congruence|].
  assert (Hget : forall i, 0 <= i ->
            zget b2 i = if i <? c - 1 then zget b i
                        else if i <? n then zget b (i + 1)
                        else zget b i).
  { intros i Hi. rewrite (Hg2 i Hi), (Hg1 i Hi).
    replace (c - 1 + 1 + (i - (c - 1))) with (i + 1) by lia.
    bool_cases. subst. replace (n - 1 + 1) with n by lia. now rewrite Hz. }
  split; [exact Hget|].
  constructor; try lia.
  apply blk_strlen_complete.
  - lia.
  - rewrite Hget by lia. bool_cases.
    replace (n - 1 + 1) with n by lia. exact Hz.
  - intros i Hi. rewrite Hget by lia. bool_cases; apply Hnz; lia.
Qed.

(** Insertion at the cursor followed by Backspace, on the block: every
    byte is as before, except that the byte after the terminator, at index
    [n + 1], now is a NUL. *)
Lemma blk_insert_backspace (bs : Z) (b : block) (c n key : Z) :
  line_ok bs b c n -> n < bs - 1 -> isprint key = true ->
  exists b1 b2,
    blk_insert b c n key = Some b1
    /\ blk_backspace b1 (c + 1) (n + 1) = Some b2
    /\ blk_store b (n + 1) 0 = Some b2
    /\ line_ok bs b2 c n.
Proof.
  intros Hok Hguard Hkey.
  destruct (line_ok_bounds Hok) as (Hc & Hn & Hmax & Hz & Hnz).
  pose proof (line_capacity Hok) as Hcap.
  destruct (blk_insert_spec key Hok Hguard Hkey)
    as (b1 & Hi1 & Hl1 & Hg1 & Hok1).
  destruct (@blk_backspace_spec bs b1 (c + 1) (n + 1) Hok1 ltac:(lia))
    as (b2 & Hi2 & Hl2 & Hg2 & Hok2).
  exists b1, b2. split; [exact Hi1|]. split; [exact Hi2|]. split.
  - destruct (blk_store b (n + 1) 0) as [b3|] eqn:Hst.
    2: { exfalso. revert Hst. apply blk_store_ok. lia. }
    f_equal. apply blk_store_spec in Hst as (_ & Hl3 & Hg3).
    apply zget_ext; [congruence|].
    + intros i Hi. rewrite (Hg3 i) by lia. rewrite (Hg2 i) by lia.
      replace (c + 1 - 1) with c by lia.
      destruct (Z.ltb_spec i c); [rewrite Hg1 by lia; bool_cases|].
      destruct (Z.ltb_spec i (n + 1)).
      * rewrite Hg1 by lia. replace (i + 1 - 1) with i by lia. bool_cases.
      * rewrite Hg1 by lia. bool_cases.
        subst. replace (n + 1 - 1) with n by lia. now rewrite Hz.
  - replace (c + 1 - 1) with c in Hok2 by lia.
    replace (n + 1 - 1) with n in Hok2 by lia. exact Hok2.
Qed.

(* ------------------------------------------------------------------ *)
(** ** The invariant of the edit loop *)

(** a history entry: a string inside a block of capacity at least [bs] *)
Definition entry_ok (bs : Z) (b : block) : Prop :=
  exists n, line_ok bs b n n.

(** The state of the edit loop of a call with buffer size [buf_size l]:
    the history vector holds distinct blocks, each an entry of capacity at
    least [buf_size l]; [current_buf] is the entry at [history_index]; its
    block, with [cursor_pos] and [num_chars], is a line buffer. *)
Record editor_inv (l : locals) (w : world) : Prop := mk_editor_inv {
  inv_size : 0 < buf_size l;
  inv_vector :
    exists v,
      history w = Some v
      /\ history_len l = Vector.length v /\ Vector.length v < SIZE_MOD
      /\ NoDup v
      /\ Vector.get v (history_index w) = Some (current_buf l)
      /\ forall p, In p v ->
           exists b, nth_error (heap w) p = Some b /\ entry_ok (buf_size l) b;
  inv_line :
    exists b,
      nth_error (heap w) (current_buf l) = Some b
      /\ line_ok (buf_size l) b (cursor_pos l) (num_chars l)
}.

Lemma line_ok_entry bs b c n : line_ok bs b c n -> entry_ok bs b.
Proof.
  intros Hok. exists n. destruct (line_ok_bounds Hok) as (Hc & Hn & _).
  destruct Hok as [Hs _ Hcap]. constructor; auto. lia.
Qed.

Lemma Vector_get_In (v : Vector.t) (i : Z) (p : ptr) :
  Vector.get v i = Some p -> In p v /\ 0 <= i < Vector.length v.
Proof.
  unfold Vector.get, Vector.length.
  destruct (Z.leb_spec 0 i) as [H0|H0]; [|discriminate].
  destruct (Z.ltb_spec i (zlen v)) as [H1|H1]; [|discriminate].
  cbn [andb]. intros Hn. split; [|lia]. eapply nth_error_In; eauto.
Qed.

(** a step that leaves heap and history index alone *)
Lemma editor_inv_frame (l : locals) (w w' : world) :
  editor_inv l w -> steady w w' -> heap w' = heap w ->
  history_index w' = history_index w -> editor_inv l w'.
Proof.
  intros [Hs (v & Hv & Hlen & Hmax & Hnd & Hget & Hent) Hline] Hst Hh Hi.
  constructor; auto.
  - exists v. rewrite (steady_history Hst), Hi, Hh. auto 10.
  - now rewrite Hh.
Qed.

(** a step that rewrites the block of the line *)
Lemma editor_inv_line (l : locals) (w w' : world) (b b' : block) (c n : Z) :
  editor_inv l w ->
  nth_error (heap w) (current_buf l) = Some b ->
  line_ok (buf_size l) b' c n ->
  heap w' = replace_nth (current_buf l) b' (heap w) ->
  steady w w' -> history_index w' = history_index w ->
  editor_inv (set_num_chars n (set_cursor_pos c l)) w'.
Proof.
  intros [Hs (v & Hv & Hlen & Hmax & Hnd & Hget & Hent) Hline] Hb Hok Hh Hst Hi.
  assert (Hlt : (current_buf l < length (heap w))%nat)
    by (apply nth_error_Some; congruence).
  constructor; cbn; auto.
  - exists v. rewrite (steady_history Hst), Hi, Hh.
    repeat split; auto.
    intros p Hp. rewrite nth_error_replace_nth by exact Hlt.
    destruct (Nat.eqb_spec p (current_buf l)) as [->|Hne].
    + exists b'. split; [reflexivity|]. now apply line_ok_entry with c n.
    + now apply Hent.
  - exists b'. rewrite Hh. split; [|exact Hok].
    exact (nth_error_replace_nth_same b' Hb).
Qed.

Lemma editor_inv_bounds (l : locals) (w : world) :
  editor_inv l w ->
  0 < buf_size l <= INT_MAX
  /\ 0 <= cursor_pos l <= num_chars l /\ num_chars l < INT_MAX.
Proof.
  intros [Hs _ (b & Hb & Hok)].
  destruct (line_ok_bounds Hok) as (? & ? & ? & _).
  pose proof (line_capacity Hok). lia.
Qed.

Lemma recall_defined (l : locals) (w : world) (hi : Z) (v : list ptr) :
  history w = Some v ->
  0 <= hi < Vector.length v ->
  (forall p, In p v ->
     exists b, nth_error (heap w) p = Some b /\ entry_ok (buf_size l) b) ->
  exists p b n,
    recall w hi = Some (p, n) /\ Vector.get v hi = Some p
    /\ nth_error (heap w) p = Some b /\ line_ok (buf_size l) b n n.
Proof.
  intros Hv Hhi Hent. unfold recall. rewrite Hv. cbn [obind].
  destruct (Vector.get v hi) as [p|] eqn:Hp.
  2: { exfalso. revert Hp. unfold Vector.get, Vector.length in *.
       destruct (Z.leb_spec 0 hi); [|lia].
       destruct (Z.ltb_spec hi (zlen v)); [|lia]. cbn [andb].
       apply nth_error_Some. unfold zlen in *. lia. }
  cbn [obind].
  destruct (Hent p (proj1 (Vector_get_In _ _ Hp))) as (b & Hb & n & Hok).
  rewrite Hb. cbn [obind]. rewrite (line_strlen Hok). cbn [obind].
  destruct (line_ok_bounds Hok) as (? & ? & _).
  destruct (blk_read b 0 n) eqn:Hrd.
  2: { exfalso. revert Hrd. apply blk_read_ok; lia. }
  cbn [obind]. exists p, b, n. auto.
Qed.

(** every step of the loop body keeps the invariant and stays inside the
    blocks *)
Lemma handle_key_inv (l : locals) (key : Z) (w : world) :
  editor_inv l w ->
  num_chars l < to_size (buf_size l - 1) ->
  sat (handle_key l key w)
      (fun c w' =>
         match c with
         | Continue l' | GotoEnd l' => editor_inv l' w'
         | Return _ => True
         end)
      (fun _ _ => ~ no_fault (write_faults w) \/ ~ no_fault (tcset_faults w))
      False.
Proof.
  intros Hinv Hguard.
  destruct (editor_inv_bounds Hinv) as (Hbs & Hc & Hn).
  rewrite to_size_small in Hguard by (unfold SIZE_MOD, INT_MAX in *; lia).
  pose proof Hinv as [_ (v & Hv & Hlen & Hmax & Hnd & Hget & Hent)
                        (b & Hb & Hok)].
  unfold handle_key.
  destruct (isprint key) eqn:Hprint.
  { apply sat_bind.
    destruct (blk_insert_spec key Hok Hguard Hprint)
      as (b1 & Hins & _ & _ & Hok1).
    eapply sat_weaken; [apply (insert_char_effect l key w Hb)| |auto|].
    - intros l' w' (b' & Hins' & Hh & -> & Hst & Hi & _). cbn [ret sat].
      rewrite Hins in Hins'. injection Hins' as <-.
      rewrite to_size_small, to_int_small
        by (unfold SIZE_MOD, INT_MAX in *; lia).
      now apply editor_inv_line with (w:=w) (b:=b) (b':=b1).
    - rewrite Hins. discriminate. }
  destruct (key =? KEY_ENTER).
  { io_steps; [|left; write_fault].
    apply editor_inv_frame with w; auto. steady_tac. }
  destruct (key =? CTRL_KEY (chr "c")).
  { io_steps. apply sat_disable_raw_mode; [intros; io_steps; exact I|].
    intros w' _ (r & Hr & _). right. intros Hnf.
    now destruct (no_fault_next Hnf Hr). }
  destruct (key =? CTRL_KEY (chr "d")).
  { destruct (num_chars l =? 0).
    - io_steps. apply sat_disable_raw_mode; [intros; io_steps; exact I|].
      intros w' _ (r & Hr & _). right. intros Hnf.
      now destruct (no_fault_next Hnf Hr).
    - exact Hinv. }
  destruct (key =? KEY_BACKSPACE).
  { destruct (Z.eq_dec (cursor_pos l) 0) as [H0|H0].
    - rewrite backspace_at_start by exact H0. exact Hinv.
    - destruct (blk_backspace_spec Hok H0) as (b1 & Hbs1 & _ & _ & Hok1).
      eapply sat_weaken; [apply (backspace_effect l w Hb H0)| |auto|].
      + intros c w' (b' & Hbs' & Hh & -> & Hst & Hi & _).
        rewrite Hbs1 in Hbs'. injection Hbs' as <-.
        rewrite to_size_small, to_int_small
          by (unfold SIZE_MOD, INT_MAX in *; lia).
        now apply editor_inv_line with (w:=w) (b:=b) (b':=b1).
      + rewrite Hbs1. discriminate. }
  destruct ((key =? KEY_ARROW_UP) || (key =? KEY_ARROW_DOWN))%bool eqn:Harrow.
  { destruct (at_boundary l key w) eqn:Hbd.
    - rewrite history_move_at_boundary by exact Hbd. exact Hinv.
    - destruct (Vector_get_In _ _ Hget) as [_ Hhi].
      assert (Hmoved : 0 <= moved_index key w < Vector.length v).
      { unfold moved_index, at_boundary in *. rewrite Hlen in Hbd.
        rewrite to_size_small in Hbd by lia.
        destruct (Z.eqb_spec key KEY_ARROW_UP),
                 (Z.eqb_spec key KEY_ARROW_DOWN),
                 (Z.eqb_spec (history_index w) 0),
                 (Z.eqb_spec (history_index w) (Vector.length v - 1));
          cbn in Hbd, Harrow; try discriminate;
          rewrite to_size_small by lia; lia. }
      destruct (recall_defined l w Hv Hmoved Hent)
        as (p & b1 & n & Hrec & Hp & Hb1 & Hok1).
      eapply sat_weaken; [apply (history_move_effect l key w Hbd)| |auto|].
      + intros c w' (p' & n' & Hrec' & -> & Hi & Hh & Hst).
        rewrite Hrec in Hrec'. injection Hrec' as <- <-.
        destruct (line_ok_bounds Hok1) as (? & ? & ? & _).
        rewrite to_int_small by (unfold INT_MAX in *; lia).
        constructor; cbn; [lia| |].
        * exists v. rewrite (steady_history Hst), Hi, Hh. auto 10.
        * exists b1. rewrite Hh. auto.
      + rewrite Hrec. discriminate. }
  destruct ((key =? CTRL_KEY (chr "b")) || (key =? KEY_ARROW_LEFT))%bool.
  { eapply sat_weaken; [apply cursor_left_effect| |intros _ _ []|auto].
    intros c w' (-> & Hh & Hi & Hst & _).
    destruct (Z.eqb_spec (cursor_pos l) 0).
    - now apply editor_inv_frame with w.
    - rewrite to_int_small by (unfold INT_MAX in *; lia).
      replace (set_cursor_pos (cursor_pos l - 1) l)
        with (set_num_chars (num_chars l) (set_cursor_pos (cursor_pos l - 1) l))
        by (destruct l; reflexivity).
      apply editor_inv_line with (w:=w) (b:=b) (b':=b); auto.
      + destruct Hok. constructor; auto. lia.
      + rewrite Hh. symmetry. now apply replace_nth_same. }
  destruct ((key =? CTRL_KEY (chr "f")) || (key =? KEY_ARROW_RIGHT))%bool.
  { eapply sat_weaken; [apply cursor_right_effect| |intros _ _ []|auto].
    intros c w' (-> & Hh & Hi & Hst & _).
    rewrite to_size_small by (unfold SIZE_MOD, INT_MAX in *; lia).
    destruct (Z.eqb_spec (cursor_pos l) (num_chars l)).
    - now apply editor_inv_frame with w.
    - rewrite to_int_small by (unfold INT_MAX in *; lia).
      replace (set_cursor_pos (cursor_pos l + 1) l)
        with (set_num_chars (num_chars l) (set_cursor_pos (cursor_pos l + 1) l))
        by (destruct l; reflexivity).
      apply editor_inv_line with (w:=w) (b:=b) (b':=b); auto.
      + destruct Hok. constructor; auto. lia.
      + rewrite Hh. symmetry. now apply replace_nth_same. }
  exact Hinv.
Qed.

(* ------------------------------------------------------------------ *)
(** ** Only [read_key] waits *)

Definition never_blocks {A} (m : M A) : Prop :=
  forall w w', m w <> Blocked w'.

Lemma nb_bind {A B} (m : M A) (f : A -> M B) :
  never_blocks m -> (forall a, never_blocks (f a)) -> never_blocks (bind m f).
Proof.
  intros Hm Hf w w'. unfold bind.
  destruct (m w) as [a w1|s w1|w1|w1| |] eqn:Hmw; try discriminate.
  - apply Hf.
  - exfalso. exact (Hm w w1 Hmw).
Qed.

Lemma nb_ret {A} (a : A) : never_blocks (ret a).
Proof. intros w w'. discriminate. Qed.

Lemma nb_get {A} (f : world -> A) : never_blocks (get f).
Proof. intros w w'. discriminate. Qed.

Lemma nb_modify f : never_blocks (modify f).
Proof. intros w w'. discriminate. Qed.

Lemma nb_undefined {A} : never_blocks (@undefined A).
Proof. intros w w'. discriminate. Qed.

Lemma nb_sys_write d : never_blocks (sys_write d).
Proof.
  intros w w'. unfold sys_write.
  destruct (next_fault (write_faults w)) as [[|] r]; discriminate.
Qed.

Lemma nb_die {A} msg : never_blocks (@die A msg).
Proof.
  intros w w'. destruct (@die_exits A msg w) as [msg' ->]. discriminate.
Qed.

Lemma nb_or_die ok msg : never_blocks (or_die ok msg).
Proof. destruct ok; [apply nb_ret|apply nb_die]. Qed.

Lemma nb_with_block {A} p (f : block -> option (A * block)) :
  never_blocks (with_block p f).
Proof.
  intros w w'. unfold with_block.
  destruct (nth_error (heap w) p) as [b|]; [|discriminate].
  destruct (f b) as [[a b']|]; discriminate.
Qed.

Lemma nb_history_get i : never_blocks (history_get i).
Proof.
  intros w w'. unfold history_get.
  destruct (history w) as [v|]; [|discriminate].
  destruct (Vector.get v i); discriminate.
Qed.

Lemma nb_disable_raw_mode : never_blocks disable_raw_mode.
Proof.
  intros w w'.
  destruct w as [? ? ? ? ? tc ? ? raw ? ? ?].
  destruct tc as [|[|] [|[|] r]]; destruct raw; intros H; cbv in H;
    discriminate H.
Qed.

Ltac nb_tac :=
  repeat first
    [ apply nb_disable_raw_mode | apply nb_die | apply nb_or_die
    | apply nb_ret | apply nb_get | apply nb_modify | apply nb_undefined
    | apply nb_sys_write | apply nb_with_block | apply nb_history_get
    | apply nb_bind; [|intros ?]
    | match goal with
      | |- never_blocks (if ?c then _ else _) => destruct c
      | |- never_blocks (match ?x with _ => _ end) => destruct x
      end ].

Lemma nb_handle_key l key : never_blocks (handle_key l key).
Proof.
  unfold handle_key, insert_char, backspace, history_move, cursor_left,
    cursor_right, repaint_line, move_cursor_to, move_cursor_left,
    move_cursor_right, store, memmove, load_bytes, strlen.
  nb_tac.
Qed.

Lemma nb_end_of_loop buf l : never_blocks (end_of_loop buf l).
Proof.
  unfold end_of_loop, store, load_bytes, write_block. nb_tac.
Qed.

(* ================================================================== *)
(** * The claims *)

(** a state of the edit loop: buffer size 8, two history entries, "abc"
    from an earlier call and the line "hi" being typed, cursor after
    the "h" *)
Definition sample_locals : locals := mk_locals 8 2 5 3 1%nat 1 2.

Definition sample_world : world :=
  mk_world (raw_of cooked) [] [] [] [] [] [] cooked true
    (Some [0%nat; 1%nat]) 1
    [ [97; 98; 99; 0; 0; 0; 0; 0]; [104; 105; 0; 7; 7; 7; 7; 7] ] 0.

Lemma sample_line_ok (b : block) (bs c n : Z) :
  blk_strlen b = Some n -> (0 <=? c) && (c <=? n) = true ->
  (bs <=? zlen b) && (zlen b <=? INT_MAX) = true ->
  line_ok bs b c n.
Proof.
  intros Hs Hc Hcap.
  apply andb_prop in Hc as [H1 H2]. apply andb_prop in Hcap as [H3 H4].
  apply Z.leb_le in H1, H2, H3, H4. constructor; auto.
Qed.

Lemma sample_inv : editor_inv sample_locals sample_world.
Proof.
  constructor.
  - reflexivity.
  - exists [0%nat; 1%nat]. repeat split.
    + repeat constructor; simpl; intuition discriminate.
    + intros p [<-|[<-|[]]]; eexists; (split; [reflexivity|]).
      * exists 3. now apply sample_line_ok.
      * exists 2. now apply sample_line_ok.
  - eexists. split; [reflexivity|]. now apply sample_line_ok.
Qed.



(** the text of the line being edited: the string in the block of
    [current_buf] *)
Definition line_text (w : world) (l : locals) : option (list Z) :=
  option_map c_string (nth_error (heap w) (current_buf l)).

Lemma zget_nil (i : Z) : zget [] i = 0.
Proof. unfold zget. now destruct (Z.to_nat i). Qed.

Lemma zget_cons_zero (c : Z) (r : list Z) : zget (c :: r) 0 = c.
Proof. reflexivity. Qed.

(** blocks that agree up to the terminator hold the same string *)
Lemma c_string_agree (b b' : block) (n : Z) :
  blk_strlen b = Some n ->
  (forall i, 0 <= i <= n -> zget b i = zget b' i) ->
  c_string b = c_string b'.
Proof.
  revert b' n. induction b as [|c r IH]; intros b' n Hs Hag;
    cbn [blk_strlen] in Hs; [discriminate|].
  cbn [c_string]. destruct (Z.eqb_spec c 0) as [->|Hc].
  - injection Hs as <-. specialize (Hag 0 ltac:(lia)).
    rewrite zget_cons_zero in Hag.
    destruct b' as [|c' r']; [reflexivity|].
    rewrite zget_cons_zero in Hag. subst c'. reflexivity.
  - destruct (blk_strlen r) as [m|] eqn:Hm; cbn [option_map] in Hs;
      [|discriminate].
    injection Hs as <-.
    pose proof (blk_strlen_sound r Hm) as (Hm0 & _).
    pose proof (Hag 0 ltac:(lia)) as H0. rewrite zget_cons_zero in H0.
    destruct b' as [|c' r'].
    + rewrite zget_nil in H0. contradiction.
    + rewrite zget_cons_zero in H0. subst c'. cbn [c_string].
      destruct (Z.eqb_spec c 0); [contradiction|].
      f_equal. apply IH with m; [reflexivity|].
      intros i Hi. specialize (Hag (i + 1) ltac:(lia)).
      now rewrite !zget_cons_succ in Hag by lia.
Qed.

Lemma handle_key_printable (l : locals) (key : Z) :
  isprint key = true ->
  handle_key l key = (l' <- insert_char l key ;; ret (Continue l')).
Proof. intros H. unfold handle_key. now rewrite H. Qed.

Lemma handle_key_backspace (l : locals) :
  handle_key l KEY_BACKSPACE = backspace l.
Proof. reflexivity. Qed.

(** insertion, then Backspace when the insertion went through *)
Definition insert_then_backspace (l : locals) (key : Z) : M ctl :=
  c <- handle_key l key ;;
  match c with
  | Continue l1 => handle_key l1 KEY_BACKSPACE
  | _ => ret c
  end.

Lemma nb_insert_then_backspace l key :
  never_blocks (insert_then_backspace l key).
Proof.
  unfold insert_then_backspace. apply nb_bind; [apply nb_handle_key|].
  intros [l1|l1|r]; [apply nb_handle_key|apply nb_ret..].
Qed.

(** C6: in a state of the edit loop (line-buffer invariant, length below
    the bound of the loop), inserting a printable byte at the cursor and
    then pressing Backspace gives back the line as it was: the same text,
    the same length and the same cursor offset.  In the block the only
    byte that can differ is the one after the terminator (index length + 1),
    which now is a NUL.  The two steps end the process only when a write to
    the terminal fails. *)
Theorem C6_insert_then_backspace (l : locals) (key : Z) (w : world) :
  editor_inv l w ->
  num_chars l < to_size (buf_size l - 1) ->
  isprint key = true ->
  match insert_then_backspace l key w with
  | Done c w' =>
      c = Continue l
      /\ line_text w' l = line_text w l
      /\ (exists b b',
            nth_error (heap w) (current_buf l) = Some b
            /\ blk_store b (num_chars l + 1) 0 = Some b'
            /\ heap w' = replace_nth (current_buf l) b' (heap w))
      /\ history w' = history w /\ history_index w' = history_index w
  | Exited _ _ => ~ no_fault (write_faults w)
  | Blocked _ | Aborted _ | Undefined | OutOfFuel => False
  end.
Proof.
  intros Hinv Hguard Hkey.
  destruct (editor_inv_bounds Hinv) as (Hbs & Hc & Hn).
  rewrite to_size_small in Hguard by (unfold SIZE_MOD, INT_MAX in *; lia).
  pose proof Hinv as [_ _ (b & Hb & Hok)].
  destruct (blk_insert_backspace key Hok Hguard Hkey)
    as (b1 & b2 & Hins & Hbsp & Hst & Hok2).
  assert (Hlt : (current_buf l < length (heap w))%nat)
    by (apply nth_error_Some; congruence).
  assert (Hsat :
    sat (insert_then_backspace l key w)
        (fun c w' =>
           c = Continue l
           /\ heap w' = replace_nth (current_buf l) b2 (heap w)
           /\ history w' = history w /\ history_index w' = history_index w)
        (fun _ _ => ~ no_fault (write_faults w)) False).
  { unfold insert_then_backspace. rewrite (@handle_key_printable l key Hkey).
    apply sat_bind. apply sat_bind.
    eapply sat_weaken; [apply (insert_char_effect l key w Hb)| |auto|].
    2: { rewrite Hins. discriminate. }
    intros l1 w1 (b1' & Hins' & Hh1 & -> & Hst1 & Hi1 & Hwf1).
    rewrite Hins in Hins'. injection Hins' as <-.
    cbn [ret sat]. rewrite handle_key_backspace.
    rewrite to_size_small, to_int_small
      by (unfold SIZE_MOD, INT_MAX in *; lia).
    set (l1 := set_num_chars (num_chars l + 1)
                 (set_cursor_pos (cursor_pos l + 1) l)).
    assert (Hb1 : nth_error (heap w1) (current_buf l1) = Some b1).
    { rewrite Hh1. exact (nth_error_replace_nth_same b1 Hb). }
    assert (Hc1 : cursor_pos l1 <> 0) by (cbn; lia).
    eapply sat_weaken; [apply (backspace_effect l1 w1 Hb1 Hc1)| | |].
    - intros c w2 (b2' & Hbsp' & Hh2 & -> & Hst2 & Hi2 & _).
      cbn in Hbsp'. rewrite Hbsp in Hbsp'. injection Hbsp' as <-.
      cbn [l1 cursor_pos num_chars set_num_chars set_cursor_pos buf_size
           history_len cy cx current_buf].
      rewrite to_size_small, to_int_small
        by (unfold SIZE_MOD, INT_MAX in *; lia).
      repeat split.
      + f_equal. subst l1. destruct l. unfold set_num_chars, set_cursor_pos.
        cbn. f_equal; lia.
      + rewrite Hh2, Hh1. cbn. now apply replace_nth_twice.
      + now rewrite (steady_history Hst2), (steady_history Hst1).
      + congruence.
    - intros ? ? Hnf Hnf0. apply Hnf. auto.
    - cbn. rewrite Hbsp. discriminate. }
  pose proof (@nb_insert_then_backspace l key w) as Hnb.
  destruct (insert_then_backspace l key w) as [c w'|s w'|w'|w'| |];
    cbn [sat] in Hsat; try assumption.
  - destruct Hsat as (-> & Hh & Hhist & Hidx).
    repeat split; try assumption.
    + unfold line_text. rewrite Hh, Hb.
      rewrite (nth_error_replace_nth_same b2 Hb). cbn [option_map]. f_equal.
      symmetry. apply c_string_agree with (num_chars l).
      * exact (line_strlen Hok).
      * apply blk_store_spec in Hst as (_ & _ & Hg).
        intros i Hi. rewrite Hg by lia.
        destruct (Z.eqb_spec i (num_chars l + 1)); [lia|reflexivity].
    + exists b, b2. auto.
  - exact (Hnb w' eq_refl).
Qed.

Lemma C6_insert_then_backspace_witness :
  match insert_then_backspace sample_locals (chr "X") sample_world with
  | Done c w' =>
      c = Continue sample_locals
      /\ line_text w' sample_locals = Some (bytes "hi")
  | _ => False
  end.
Proof.
  pose proof (@C6_insert_then_backspace sample_locals (chr "X") sample_world
                sample_inv eq_refl eq_refl) as H.
  destruct (insert_then_backspace sample_locals (chr "X") sample_world)
    as [c w'|s w'|w'|w'| |] eqn:Hrun;
    vm_compute in Hrun; try discriminate Hrun.
  destruct H as (Hc & Ht & _). split; [exact Hc|exact Ht].
Defined.

Lemma handle_key_arrow (l : locals) (key : Z) :
  key = KEY_ARROW_UP \/ key = KEY_ARROW_DOWN ->
  handle_key l key = history_move l key.
Proof. intros [->| ->]; reflexivity. Qed.

(** C4: Arrow-Up at history index 0 and Arrow-Down at the index of the
    last entry change nothing (not the history, not the line, not even the
    terminal output).  Anywhere else the key moves [history_index] by one,
    up or down, makes the block of that entry the line being edited, and
    sets the length and the cursor offset to the length of the string in
    it.  The step ends the process only when a write to the terminal
    fails. *)
Theorem C4_history_arrows (l : locals) (key : Z) (w : world) (v : list ptr) :
  editor_inv l w ->
  history w = Some v ->
  key = KEY_ARROW_UP \/ key = KEY_ARROW_DOWN ->
  let at_end :=
    (key = KEY_ARROW_UP /\ history_index w = 0)
    \/ (key = KEY_ARROW_DOWN /\ history_index w = Vector.length v - 1) in
  (at_end -> handle_key l key w = Done (Continue l) w)
  /\ (~ at_end ->
      match handle_key l key w with
      | Done c w' =>
          exists p b n,
            history_index w'
            = history_index w + (if key =? KEY_ARROW_UP then -1 else 1)
            /\ Vector.get v (history_index w') = Some p
            /\ nth_error (heap w) p = Some b
            /\ blk_strlen b = Some n
            /\ c = Continue (set_num_chars n
                               (set_cursor_pos n (set_current_buf p l)))
            /\ heap w' = heap w /\ history w' = history w
      | Exited _ _ => ~ no_fault (write_faults w)
      | Blocked _ | Aborted _ | Undefined | OutOfFuel => False
      end).
Proof.
  intros Hinv Hv Hkey at_end.
  pose proof Hinv as [_ (v' & Hv' & Hlen & Hmax & Hnd & Hget & Hent) _].
  rewrite Hv in Hv'. injection Hv' as <-.
  destruct (Vector_get_In _ _ Hget) as [_ Hhi].
  rewrite (@handle_key_arrow l key Hkey).
  assert (Hbd : at_boundary l key w = true <-> at_end).
  { unfold at_boundary, at_end. rewrite Hlen.
    rewrite to_size_small by lia.
    destruct Hkey as [-> | ->]; cbn;
      destruct (Z.eqb_spec (history_index w) 0),
               (Z.eqb_spec (history_index w) (Vector.length v - 1));
      split; intros H; try discriminate H; auto;
      destruct H as [[H1 H2]|[H1 H2]]; try discriminate H1; congruence. }
  split.
  { intros Hat. apply history_move_at_boundary. now apply Hbd. }
  intros Hnot.
  destruct (at_boundary l key w) eqn:Hat.
  { exfalso. apply Hnot. now apply Hbd. }
  assert (Hstep : moved_index key w
                  = history_index w + (if key =? KEY_ARROW_UP then -1 else 1)
                  /\ 0 <= moved_index key w < Vector.length v).
  { unfold moved_index, at_end in *.
    destruct Hkey as [-> | ->]; cbn;
      rewrite to_size_small by
        (destruct (Z.eq_dec (history_index w) 0),
                  (Z.eq_dec (history_index w) (Vector.length v - 1));
         try lia; exfalso; apply Hnot; auto);
      (split; [reflexivity|]);
      destruct (Z.eq_dec (history_index w) 0),
               (Z.eq_dec (history_index w) (Vector.length v - 1));
      try lia; exfalso; apply Hnot; auto. }
  destruct Hstep as [Hstep Hrange].
  destruct (recall_defined l w Hv Hrange Hent)
    as (p & b & n & Hrec & Hp & Hb & Hok).
  pose proof (history_move_effect l key w Hat) as Hsat.
  pose proof (@nb_handle_key l key w) as Hnb.
  rewrite (@handle_key_arrow l key Hkey) in Hnb.
  destruct (history_move l key w) as [c w'|s w'|w'|w'| |]; cbn [sat] in Hsat;
    try assumption; try congruence.
  - destruct Hsat as (p' & n' & Hrec' & -> & Hi & Hh & Hst).
    rewrite Hrec in Hrec'. injection Hrec' as <- <-.
    destruct (line_ok_bounds Hok) as (? & ? & ? & _).
    rewrite to_int_small by (unfold INT_MAX in *; lia).
    exists p, b, n. rewrite Hi. repeat split; auto.
    + exact (line_strlen Hok).
    + exact (steady_history Hst).
  - exact (Hnb w' eq_refl).
Qed.

Lemma C4_history_arrows_witness :
  (* Arrow-Up from the last of two entries recalls "abc" *)
  match handle_key sample_locals KEY_ARROW_UP sample_world with
  | Done c w' =>
      history_index w' = 0
      /\ c = Continue (set_num_chars 3
                         (set_cursor_pos 3
                            (set_current_buf 0%nat sample_locals)))
  | _ => False
  end
  (* Arrow-Down on the last entry does nothing *)
  /\ handle_key sample_locals KEY_ARROW_DOWN sample_world
     = Done (Continue sample_locals) sample_world.
Proof.
  split.
  - pose proof (proj2 (@C4_history_arrows sample_locals KEY_ARROW_UP
                         sample_world [0%nat; 1%nat] sample_inv eq_refl
                         (or_introl eq_refl))) as H.
    cbv zeta in H.
    assert (Hnot : ~ ((KEY_ARROW_UP = KEY_ARROW_UP
                       /\ history_index sample_world = 0)
                      \/ (KEY_ARROW_UP = KEY_ARROW_DOWN
                          /\ history_index sample_world
                             = Vector.length [0%nat; 1%nat] - 1))).
    { intros [[_ H0]|[H0 _]]; discriminate H0. }
    specialize (H Hnot).
    destruct (handle_key sample_locals KEY_ARROW_UP sample_world)
      as [c w'|s w'|w'|w'| |] eqn:Hrun;
      vm_compute in Hrun; try discriminate Hrun.
    injection Hrun as <- <-. split; reflexivity.
  - apply (proj1 (@C4_history_arrows sample_locals KEY_ARROW_DOWN
                    sample_world [0%nat; 1%nat] sample_inv eq_refl
                    (or_intror eq_refl))).
    right. split; reflexivity.
Defined.

(* ------------------------------------------------------------------ *)
(** ** Leaving the loop *)

Lemma blk_store_same (b : block) (i : Z) :
  0 <= i < zlen b -> blk_store b i (zget b i) = Some b.
Proof.
  intros Hi. destruct (blk_store b i (zget b i)) as [b'|] eqn:Hst.
  - f_equal. apply blk_store_spec in Hst as (_ & Hl & Hg).
    apply zget_ext; [exact Hl|].
    intros j Hj. rewrite Hg by lia.
    destruct (Z.eqb_spec j i); [now subst|reflexivity].
  - exfalso. revert Hst. now apply blk_store_ok.
Qed.

(** copying the line with its terminator to the start of an array that
    has room for it *)
Lemma copy_line (b : block) (n : Z) (dst : list Z) :
  blk_strlen b = Some n -> n + 1 <= zlen dst ->
  exists data dst',
    blk_read b 0 (n + 1) = Some data
    /\ blk_write dst 0 data = Some dst'
    /\ zlen dst' = zlen dst
    /\ c_string dst' = c_string b.
Proof.
  intros Hs Hroom. pose proof (blk_strlen_sound b Hs) as (Hn & Hz & Hnz).
  destruct (blk_read b 0 (n + 1)) as [data|] eqn:Hrd.
  2: { exfalso. revert Hrd. apply blk_read_ok; lia. }
  pose proof (blk_read_spec _ _ _ Hrd) as (_ & _ & _ & Hld & Hgd).
  destruct (blk_write dst 0 data) as [dst'|] eqn:Hwr.
  2: { exfalso. revert Hwr. apply blk_write_ok; lia. }
  pose proof (blk_write_spec _ _ _ Hwr) as (_ & _ & Hl & Hg).
  exists data, dst'. repeat split; auto.
  symmetry. apply c_string_agree with n; [exact Hs|].
  intros i Hi. rewrite Hg by lia. rewrite Hld.
  destruct (Z.leb_spec 0 i), (Z.ltb_spec i (0 + (n + 1))); try lia.
  cbn [andb]. rewrite Hgd by lia. f_equal. lia.
Qed.

(** what the code after [end_of_loop] leaves in the caller's array and in
    the heap *)
Lemma finish_heap_spec (buf : list Z) (l : locals) (w : world)
      (v : list ptr) :
  editor_inv l w -> history w = Some v ->
  num_chars l < buf_size l -> buf_size l <= zlen buf ->
  exists buf' h' last,
    finish_heap (heap w) v (history_index w) buf l = Some (buf', h')
    /\ zlen buf' = zlen buf
    /\ Some (c_string buf') = line_text w l
    /\ Vector.get v (Vector.length v - 1) = Some last
    /\ option_map c_string (nth_error h' last) = line_text w l
    /\ (forall p, p <> last -> nth_error h' p = nth_error (heap w) p)
    /\ (history_index w = Vector.length v - 1 ->
        last = current_buf l /\ h' = heap w)
    /\ (history_index w <> Vector.length v - 1 -> last <> current_buf l).
Proof.
  intros Hinv Hv Hn Hroom.
  destruct (editor_inv_bounds Hinv) as (Hbs & Hc & _).
  pose proof Hinv as [_ (v' & Hv' & Hlen & Hmax & Hnd & Hget & Hent)
                        (b & Hb & Hok)].
  rewrite Hv in Hv'. injection Hv' as <-.
  destruct (Vector_get_In _ _ Hget) as [Hin Hhi].
  destruct (line_ok_bounds Hok) as (_ & Hnb & _ & Hz & _).
  pose proof (line_strlen Hok) as Hs.
  unfold finish_heap, line_text, num_chars_to_copy. rewrite Hb. cbn [obind].
  pose proof (@blk_store_same b (num_chars l) ltac:(lia)) as Hst0.
  rewrite Hz in Hst0. rewrite Hst0. cbn [obind].
  rewrite (replace_nth_same _ _ Hb).
  destruct (Z.ltb_spec (num_chars l) (buf_size l)); [|lia].
  rewrite Hlen. rewrite !to_size_small by (unfold SIZE_MOD, INT_MAX in *; lia).
  destruct (@copy_line b (num_chars l) buf Hs ltac:(lia))
    as (data & buf' & Hrd & Hwr & Hl & Hcs).
  rewrite Hrd. cbn [obind]. rewrite Hwr. cbn [obind].
  assert (Hlast : 0 <= Vector.length v - 1 < Vector.length v) by lia.
  destruct (recall_defined l w Hv Hlast Hent)
    as (last & bl & nl & _ & Hgl & Hbl & Hokl).
  destruct (Z.ltb_spec (history_index w) (Vector.length v - 1)) as [Hlt|Hge].
  - rewrite Hgl. cbn [obind]. rewrite Hbl. cbn [obind].
    pose proof (line_capacity Hokl) as Hcapl.
    destruct (blk_write bl 0 data) as [bl'|] eqn:Hwl.
    2: { exfalso. revert Hwl.
         apply blk_read_spec in Hrd as (_ & _ & _ & Hld & _).
         apply blk_write_ok; lia. }
    cbn [obind]. exists buf', (replace_nth last bl' (heap w)), last.
    assert (Hltl : (last < length (heap w))%nat)
      by (apply nth_error_Some; congruence).
    assert (Hne : last <> current_buf l).
    { intros ->. unfold Vector.get, Vector.length in *.
      destruct ((0 <=? history_index w) && (history_index w <? zlen v));
        [|discriminate].
      destruct ((0 <=? zlen v - 1) && (zlen v - 1 <? zlen v));
        [|discriminate].
      pose proof (proj1 (NoDup_nth_error v) Hnd
                    (Z.to_nat (history_index w)) (Z.to_nat (zlen v - 1))) as Hi.
      assert (Z.to_nat (history_index w) = Z.to_nat (zlen v - 1)); [|lia].
      apply Hi; [|congruence].
      apply nth_error_Some. congruence. }
    cbn [option_map].
    split; [reflexivity|]. split; [exact Hl|]. split; [now rewrite Hcs|].
    split; [reflexivity|]. split; [|split; [|split; [lia|auto]]].
    + rewrite (nth_error_replace_nth_same bl' Hbl). cbn [option_map].
      f_equal. destruct (@copy_line b (num_chars l) bl Hs ltac:(lia))
        as (data' & bl'' & Hrd' & Hwr' & _ & Hcs').
      congruence.
    + intros p Hp. rewrite nth_error_replace_nth by exact Hltl.
      destruct (Nat.eqb_spec p last); [contradiction|reflexivity].
  - exists buf', (heap w), last.
    assert (Heq : history_index w = Vector.length v - 1) by lia.
    assert (Hlc : last = current_buf l) by (rewrite Heq in Hget; congruence).
    cbn [option_map].
    split; [reflexivity|]. split; [exact Hl|]. split; [now rewrite Hcs|].
    split; [exact Hgl|]. split; [|split; [auto|split; [auto|lia]]].
    rewrite Hlc, Hb. reflexivity.
Qed.

(** the outcome of the code after [end_of_loop], for a line that fits the
    caller's array *)
Lemma end_of_loop_result (buf : list Z) (l : locals) (w : world)
      (v : list ptr) :
  editor_inv l w -> history w = Some v ->
  num_chars l < buf_size l -> buf_size l <= zlen buf ->
  exists buf' h',
    finish_heap (heap w) v (history_index w) buf l = Some (buf', h')
    /\ match end_of_loop buf l w with
       | Done a w' =>
           a = (RL_SUCCESS, buf') /\ heap w' = h'
           /\ history w' = history w
           /\ history_index w' = history_index w
           /\ input w' = input w
           /\ term w' = original_state w
       | Exited _ _ => ~ no_fault (tcset_faults w)
       | Blocked _ | Aborted _ | Undefined | OutOfFuel => False
       end.
Proof.
  intros Hinv Hv Hn Hroom.
  destruct (finish_heap_spec buf Hinv Hv Hn Hroom)
    as (buf' & h' & last & Hfin & _).
  exists buf', h'. split; [exact Hfin|].
  pose proof (end_of_loop_effect buf l w Hv) as Hsat.
  pose proof (@nb_end_of_loop buf l w) as Hnb.
  destruct (end_of_loop buf l w) as [a w'|s w'|w'|w'| |]; cbn [sat] in Hsat;
    try assumption; try congruence.
  - destruct Hsat as (buf'' & h'' & Hfin' & -> & Hh & Hi & w1 & Hst & Hr).
    rewrite Hfin in Hfin'. injection Hfin' as <- <-.
    destruct Hr as (r & _ & ->). cbn.
    repeat split; auto.
    + exact (steady_history Hst).
    + exact (steady_input Hst).
    + exact (steady_original Hst).
  - exact (Hnb w' eq_refl).
Qed.

(** C2: when the loop is left by submission with a line that fits the
    buffer, the code after [end_of_loop] leaves the line in the last
    history entry; when the history cursor is not on the last entry this is
    a copy, and the recalled entry that was edited keeps the line too; when
    the cursor is on the last entry the heap is not written at all.  In both
    cases every block other than that of the last entry is as before. *)
Theorem C2_submit_mirrors_to_tail (buf : list Z) (l : locals) (w : world)
        (v : list ptr) :
  editor_inv l w -> history w = Some v ->
  num_chars l < buf_size l -> buf_size l <= zlen buf ->
  exists last,
    Vector.get v (Vector.length v - 1) = Some last
    /\ match end_of_loop buf l w with
       | Done a w' =>
           fst a = RL_SUCCESS
           /\ history w' = history w
           /\ option_map c_string (nth_error (heap w') last) = line_text w l
           /\ line_text w' l = line_text w l
           /\ (forall p, p <> last ->
                 nth_error (heap w') p = nth_error (heap w) p)
           /\ (history_index w = Vector.length v - 1 ->
               last = current_buf l /\ heap w' = heap w)
           /\ (history_index w <> Vector.length v - 1 ->
               last <> current_buf l)
       | Exited _ _ => ~ no_fault (tcset_faults w)
       | Blocked _ | Aborted _ | Undefined | OutOfFuel => False
       end.
Proof.
  intros Hinv Hv Hn Hroom.
  destruct (finish_heap_spec buf Hinv Hv Hn Hroom)
    as (buf' & h' & last & Hfin & _ & _ & Hlast & Htail & Hother & Hat & Hnot).
  exists last. split; [exact Hlast|].
  destruct (end_of_loop_result buf Hinv Hv Hn Hroom)
    as (buf'' & h'' & Hfin' & Hres).
  rewrite Hfin in Hfin'. injection Hfin' as <- <-.
  destruct (end_of_loop buf l w) as [a w'|s w'|w'|w'| |]; try assumption.
  destruct Hres as (-> & Hh & Hhist & _). unfold line_text in *. rewrite Hh.
  split; [reflexivity|]. split; [exact Hhist|]. split; [exact Htail|].
  split; [|auto].
  destruct (Nat.eq_dec (current_buf l) last) as [<-|Hne]; [exact Htail|].
  now rewrite Hother by exact Hne.
Qed.

Definition sample_recalled_locals : locals := mk_locals 8 2 5 3 0%nat 3 3.
Definition sample_recalled_world : world := set_history_index 0 sample_world.

Lemma sample_recalled_inv :
  editor_inv sample_recalled_locals sample_recalled_world.
Proof.
  constructor.
  - reflexivity.
  - exists [0%nat; 1%nat]. repeat split.
    + repeat constructor; simpl; intuition discriminate.
    + intros p [<-|[<-|[]]]; eexists; (split; [reflexivity|]).
      * exists 3. now apply sample_line_ok.
      * exists 2. now apply sample_line_ok.
  - eexists. split; [reflexivity|]. now apply sample_line_ok.
Qed.

Lemma C2_submit_mirrors_to_tail_witness :
  (* the cursor is on the recalled entry "abc": the last entry gets it *)
  match end_of_loop (repeat 0 8) sample_recalled_locals
          sample_recalled_world with
  | Done a w' =>
      option_map c_string (nth_error (heap w') 1%nat) = Some (bytes "abc")
      /\ option_map c_string (nth_error (heap w') 0%nat) = Some (bytes "abc")
  | _ => False
  end
  (* the cursor is on the last entry, "hi": nothing is written *)
  /\ match end_of_loop (repeat 0 8) sample_locals sample_world with
     | Done a w' => heap w' = heap sample_world
     | _ => False
     end.
Proof.
  split.
  - destruct (@C2_submit_mirrors_to_tail (repeat 0 8) sample_recalled_locals
                sample_recalled_world [0%nat; 1%nat] sample_recalled_inv
                eq_refl eq_refl ltac:(cbn; lia)) as (last & Hlast & H).
    injection Hlast as <-.
    destruct (end_of_loop (repeat 0 8) sample_recalled_locals
                sample_recalled_world) as [a w'|s w'|w'|w'| |] eqn:Hrun;
      vm_compute in Hrun; try discriminate Hrun.
    destruct H as (_ & _ & Ht & Hl & _). split; [exact Ht|exact Hl].
  - destruct (@C2_submit_mirrors_to_tail (repeat 0 8) sample_locals
                sample_world [0%nat; 1%nat] sample_inv
                eq_refl eq_refl ltac:(cbn; lia)) as (last & Hlast & H).
    injection Hlast as <-.
    destruct (end_of_loop (repeat 0 8) sample_locals sample_world)
      as [a w'|s w'|w'|w'| |] eqn:Hrun;
      vm_compute in Hrun; try discriminate Hrun.
    destruct H as (_ & _ & _ & _ & _ & Hat & _).
    exact (proj2 (Hat eq_refl)).
Defined.

(* ------------------------------------------------------------------ *)
(** ** One turn of the loop, by the key read *)

Lemma edit_loop_exit (fuel : nat) (l : locals) (w : world) :
  ~ num_chars l < to_size (buf_size l - 1) ->
  edit_loop fuel l w = Done (EndOfLoop l) w.
Proof.
  intros H.
  assert (Hg : (num_chars l <? to_size (buf_size l - 1)) = false)
    by (apply Z.ltb_ge; lia).
  destruct fuel; cbn [edit_loop]; rewrite Hg; reflexivity.
Qed.

Lemma run_editor_exit (buf : list Z) (l : locals) (w : world) :
  ~ num_chars l < to_size (buf_size l - 1) ->
  run_editor buf l w = end_of_loop buf l w.
Proof.
  intros H. unfold run_editor, bind, get.
  now rewrite edit_loop_exit by exact H.
Qed.

(** the rest of the loop after one key *)
Definition after_key (fuel : nat) (c : ctl) : M loop_exit :=
  match c with
  | Continue l' => edit_loop fuel l'
  | GotoEnd l' => ret (EndOfLoop l')
  | Return r => ret (Returned r)
  end.

Lemma edit_loop_key (fuel : nat) (l : locals) (w : world) (k : Z)
      (r : list read_event) :
  num_chars l < to_size (buf_size l - 1) ->
  raw_mode_enabled w = true ->
  next_key (input w) = Some (k, r) ->
  edit_loop (S fuel) l w
  = (c <- handle_key l k ;; after_key fuel c) (take_input r w).
Proof.
  intros Hg Hraw Hk. cbn [edit_loop].
  destruct (Z.ltb_spec (num_chars l) (to_size (buf_size l - 1))); [|lia].
  unfold bind at 1. now rewrite (read_key_next w Hraw Hk).
Qed.

Lemma run_editor_goto_end (buf : list Z) (l : locals) (w w' : world) (k : Z)
      (r : list read_event) :
  num_chars l < to_size (buf_size l - 1) ->
  raw_mode_enabled w = true ->
  next_key (input w) = Some (k, r) ->
  handle_key l k (take_input r w) = Done (GotoEnd l) w' ->
  run_editor buf l w = end_of_loop buf l w'.
Proof.
  intros Hg Hraw Hk Hh. unfold run_editor. unfold bind at 1, get.
  unfold bind at 1.
  rewrite (@edit_loop_key (length (input w)) l w k r Hg Hraw Hk).
  unfold bind at 1. now rewrite Hh.
Qed.

Lemma run_editor_ctrl_d (buf : list Z) (l : locals) (w : world)
      (r : list read_event) :
  num_chars l < to_size (buf_size l - 1) ->
  raw_mode_enabled w = true ->
  next_key (input w) = Some (CTRL_KEY (chr "d"), r) ->
  num_chars l <> 0 ->
  run_editor buf l w = end_of_loop buf l (take_input r w).
Proof.
  intros Hg Hraw Hk Hn. apply run_editor_goto_end with (CTRL_KEY (chr "d")) r;
    auto.
  unfold handle_key. change (isprint (CTRL_KEY (chr "d"))) with false.
  cbn [Z.eqb CTRL_KEY chr]. cbn.
  destruct (Z.eqb_spec (num_chars l) 0); [contradiction|reflexivity].
Qed.

Lemma run_editor_enter (buf : list Z) (l : locals) (w : world)
      (r : list read_event) (f : list bool) :
  num_chars l < to_size (buf_size l - 1) ->
  raw_mode_enabled w = true ->
  next_key (input w) = Some (KEY_ENTER, r) ->
  next_fault (write_faults w) = (false, f) ->
  run_editor buf l w
  = end_of_loop buf l
      (set_output (output w ++ [13; 10]) (set_write_faults f (take_input r w))).
Proof.
  intros Hg Hraw Hk Hf. apply run_editor_goto_end with KEY_ENTER r; auto.
  unfold handle_key. change (isprint KEY_ENTER) with false.
  change (KEY_ENTER =? KEY_ENTER) with true. cbv iota.
  unfold bind, sys_write. cbn [write_faults set_input take_input set_errno]. rewrite Hf.
  reflexivity.
Qed.

Lemma editor_inv_input (l : locals) (w : world) (r : list read_event) :
  editor_inv l w -> editor_inv l (set_input r w).
Proof. intros [Hs Hv Hl]. constructor; assumption. Qed.

Lemma editor_inv_take_input (l : locals) (w : world)
      (r : list read_event) :
  editor_inv l w -> editor_inv l (take_input r w).
Proof. intros [Hs Hv Hl]. constructor; assumption. Qed.

Lemma editor_inv_echo (l : locals) (w : world) (o : list Z) (f : list bool) :
  editor_inv l w -> editor_inv l (set_output o (set_write_faults f w)).
Proof. intros [Hs Hv Hl]. constructor; assumption. Qed.

(** the code after [end_of_loop] returns SUCCESS and the line *)
Lemma end_of_loop_submits (buf : list Z) (l : locals) (w : world)
      (v : list ptr) :
  editor_inv l w -> history w = Some v ->
  num_chars l < buf_size l -> buf_size l <= zlen buf ->
  match end_of_loop buf l w with
  | Done (res, buf') w' =>
      res = RL_SUCCESS /\ Some (c_string buf') = line_text w l
      /\ zlen buf' = zlen buf /\ input w' = input w
      /\ term w' = original_state w
  | Exited _ _ => ~ no_fault (tcset_faults w)
  | Blocked _ | Aborted _ | Undefined | OutOfFuel => False
  end.
Proof.
  intros Hinv Hv Hn Hroom.
  destruct (finish_heap_spec buf Hinv Hv Hn Hroom)
    as (buf' & h' & last & Hfin & Hl & Hcs & _).
  destruct (end_of_loop_result buf Hinv Hv Hn Hroom)
    as (buf'' & h'' & Hfin' & Hres).
  rewrite Hfin in Hfin'. injection Hfin' as <- <-.
  destruct (end_of_loop buf l w) as [[res b'] w'|s w'|w'|w'| |];
    try assumption.
  destruct Hres as ([= -> ->] & _ & _ & _ & Hi & Ht). auto.
Qed.

Lemma run_editor_eof (buf : list Z) (l : locals) (w : world)
      (r : list read_event) :
  num_chars l < to_size (buf_size l - 1) ->
  raw_mode_enabled w = true ->
  next_key (input w) = Some (CTRL_KEY (chr "d"), r) ->
  num_chars l = 0 ->
  run_editor buf l w
  = (disable_raw_mode ;;; ret (RL_EOF, buf)) (take_input r w).
Proof.
  intros Hg Hraw Hk Hn. unfold run_editor. unfold bind at 1, get.
  unfold bind at 1.
  rewrite (@edit_loop_key (length (input w)) l w _ r Hg Hraw Hk).
  unfold handle_key. change (isprint (CTRL_KEY (chr "d"))) with false.
  cbn [Z.eqb CTRL_KEY chr]. cbn -[disable_raw_mode].
  rewrite Hn. cbn -[disable_raw_mode].
  unfold bind. destruct (disable_raw_mode (take_input r w)); reflexivity.
Qed.

(** C3: when the loop reads Ctrl+D with an empty line, [rl_read_line]
    restores the terminal attributes and returns RL_EOF at once: nothing is
    written to the terminal, the caller's array, the history vector and
    every history block are as they were before the key.  When the line is
    not empty the loop is left for the code after [end_of_loop], with the
    same variables as after Enter; Enter differs only in that it first
    echoes CR LF.  That code returns RL_SUCCESS with the line in the
    caller's array. *)
Theorem C3_ctrl_d (buf : list Z) (l : locals) (w : world)
        (r : list read_event) (v : list ptr) :
  raw_mode_enabled w = true ->
  num_chars l < to_size (buf_size l - 1) ->
  next_key (input w) = Some (CTRL_KEY (chr "d"), r) ->
  (num_chars l = 0 ->
   match run_editor buf l w with
   | Done a w' =>
       a = (RL_EOF, buf)
       /\ term w' = original_state w
       /\ input w' = r /\ output w' = output w
       /\ history w' = history w /\ history_index w' = history_index w
       /\ heap w' = heap w
   | Exited _ w' =>
       ~ no_fault (tcset_faults w)
       /\ output w' = output w /\ history w' = history w /\ heap w' = heap w
   | Blocked _ | Aborted _ | Undefined | OutOfFuel => False
   end)
  /\ (num_chars l <> 0 ->
      run_editor buf l w = end_of_loop buf l (take_input r w)
      /\ (forall w0 r0 f,
            raw_mode_enabled w0 = true ->
            next_key (input w0) = Some (KEY_ENTER, r0) ->
            next_fault (write_faults w0) = (false, f) ->
            run_editor buf l w0
            = end_of_loop buf l
                (set_output (output w0 ++ [13; 10])
                   (set_write_faults f (take_input r0 w0))))
      /\ (editor_inv l w -> history w = Some v -> buf_size l <= zlen buf ->
          match run_editor buf l w with
          | Done (res, buf') w' =>
              res = RL_SUCCESS /\ Some (c_string buf') = line_text w l
          | Exited _ _ => ~ no_fault (tcset_faults w)
          | Blocked _ | Aborted _ | Undefined | OutOfFuel => False
          end)).
Proof.
  intros Hraw Hg Hk. split.
  - intros Hn. rewrite (@run_editor_eof buf l w r Hg Hraw Hk Hn).
    pose proof (@nb_disable_raw_mode (take_input r w)) as Hnb.
    pose proof (@sat_disable_raw_mode (take_input r w)
                  (fun _ w' => returns_from (take_input r w) w')
                  (fun _ w' => disable_fails (take_input r w) w') False
                  ltac:(auto) ltac:(auto)) as Hsat.
    unfold bind.
    destruct (disable_raw_mode (take_input r w)) as [a w'|s w'|w'|w'| |];
      cbn [sat] in Hsat; try assumption.
    + destruct Hsat as (t & _ & ->). cbn. auto 10.
    + destruct Hsat as (t & Ht & ->). cbn in Ht. split.
      * intros Hnf. now destruct (no_fault_next Hnf Ht).
      * unfold die_world. cbn.
        destruct (raw_mode_enabled w); [|cbn; auto].
        destruct (next_fault t) as [[|] t']; cbn; auto.
    + exact (Hnb w' eq_refl).
  - intros Hn. split; [now apply run_editor_ctrl_d|]. split.
    + intros w0 r0 f Hraw0 Hk0 Hf. now apply run_editor_enter.
    + intros Hinv Hv Hroom.
      rewrite (@run_editor_ctrl_d buf l w r Hg Hraw Hk Hn).
      destruct (editor_inv_bounds Hinv) as (Hbs & _).
      rewrite to_size_small in Hg by (unfold SIZE_MOD, INT_MAX in *; lia).
      pose proof (@end_of_loop_submits buf l (take_input r w) v
                    (@editor_inv_take_input l w r Hinv) Hv ltac:(lia) Hroom) as H.
      destruct (end_of_loop buf l (take_input r w))
        as [[res b'] w'|s w'|w'|w'| |]; try assumption.
      destruct H as (-> & Hcs & _). auto.
Qed.

Definition sample_empty_locals : locals := mk_locals 8 2 5 3 1%nat 0 0.

Definition sample_empty_world : world :=
  mk_world (raw_of cooked) (keys [CTRL_KEY (chr "d")]) [] [] [] [] [] cooked
    true (Some [0%nat; 1%nat]) 1
    [ [97; 98; 99; 0; 0; 0; 0; 0]; [0; 7; 7; 7; 7; 7; 7; 7] ] 0.

Lemma C3_ctrl_d_witness :
  (* empty line: end of input, the history as it was *)
  match run_editor (repeat 9 8) sample_empty_locals sample_empty_world with
  | Done a w' =>
      a = (RL_EOF, repeat 9 8) /\ term w' = cooked
      /\ heap w' = heap sample_empty_world
  | _ => False
  end
  (* the line "hi": submitted *)
  /\ match run_editor (repeat 9 8) sample_locals
             (set_input (keys [CTRL_KEY (chr "d")]) sample_world) with
     | Done (res, buf') w' =>
         res = RL_SUCCESS /\ Some (c_string buf') = Some (bytes "hi")
     | _ => False
     end.
Proof.
  split.
  - pose proof (proj1 (@C3_ctrl_d (repeat 9 8) sample_empty_locals
                         sample_empty_world [] [0%nat; 1%nat]
                         eq_refl eq_refl eq_refl) eq_refl) as H.
    destruct (run_editor (repeat 9 8) sample_empty_locals sample_empty_world)
      as [a w'|s w'|w'|w'| |] eqn:Hrun;
      vm_compute in Hrun; try discriminate Hrun.
    destruct H as (Ha & Ht & _ & _ & _ & _ & Hh). auto.
  - pose proof (proj2 (@C3_ctrl_d (repeat 9 8) sample_locals
                         (set_input (keys [CTRL_KEY (chr "d")]) sample_world)
                         [] [0%nat; 1%nat] eq_refl eq_refl eq_refl)
                  ltac:(discriminate)) as (_ & _ & H).
    specialize (H (@editor_inv_input _ _ _ sample_inv) eq_refl
                  ltac:(cbn; lia)).
    destruct (run_editor (repeat 9 8) sample_locals
                (set_input (keys [CTRL_KEY (chr "d")]) sample_world))
      as [[res b'] w'|s w'|w'|w'| |] eqn:Hrun;
      vm_compute in Hrun; try discriminate Hrun.
    exact H.
Defined.

(** C10: at the head of the loop with the line length at [buf_size - 1]
    the loop is left at once, whatever the fuel: no key is read and nothing
    is written; [rl_read_line] goes on with the code after [end_of_loop],
    which returns RL_SUCCESS with the line in the caller's array.  Enter
    takes the same way out of the loop, after echoing CR LF. *)
Theorem C10_full_line_submits (buf : list Z) (l : locals) (w : world)
        (v : list ptr) :
  editor_inv l w -> history w = Some v -> buf_size l <= zlen buf ->
  num_chars l = buf_size l - 1 ->
  (forall fuel, edit_loop fuel l w = Done (EndOfLoop l) w)
  /\ run_editor buf l w = end_of_loop buf l w
  /\ match run_editor buf l w with
     | Done (res, buf') w' =>
         res = RL_SUCCESS /\ Some (c_string buf') = line_text w l
         /\ input w' = input w
     | Exited _ _ => ~ no_fault (tcset_faults w)
     | Blocked _ | Aborted _ | Undefined | OutOfFuel => False
     end
  /\ (forall l0 w0 r0 f,
        num_chars l0 < to_size (buf_size l0 - 1) ->
        raw_mode_enabled w0 = true ->
        next_key (input w0) = Some (KEY_ENTER, r0) ->
        next_fault (write_faults w0) = (false, f) ->
        run_editor buf l0 w0
        = end_of_loop buf l0
            (set_output (output w0 ++ [13; 10])
               (set_write_faults f (take_input r0 w0)))).
Proof.
  intros Hinv Hv Hroom Hfull.
  destruct (editor_inv_bounds Hinv) as (Hbs & _).
  assert (Hg : ~ num_chars l < to_size (buf_size l - 1)).
  { rewrite to_size_small by (unfold SIZE_MOD, INT_MAX in *; lia). lia. }
  split; [intros fuel; now apply edit_loop_exit|].
  split; [now apply run_editor_exit|].
  split.
  - rewrite (run_editor_exit buf l w Hg).
    pose proof (@end_of_loop_submits buf l w v Hinv Hv ltac:(lia) Hroom) as H.
    destruct (end_of_loop buf l w) as [[res b'] w'|s w'|w'|w'| |];
      try assumption.
    destruct H as (-> & Hcs & _ & Hi & _). auto.
  - intros l0 w0 r0 f Hg0 Hraw0 Hk0 Hf. now apply run_editor_enter.
Qed.

(** a full line: buffer size 4 and the line "abc" *)
Definition sample_full_locals : locals := mk_locals 4 1 5 3 0%nat 3 3.

Definition sample_full_world : world :=
  mk_world (raw_of cooked) (keys (bytes "more")) [] [] [] [] [] cooked true
    (Some [0%nat]) 0 [ [97; 98; 99; 0] ] 0.

Lemma sample_full_inv : editor_inv sample_full_locals sample_full_world.
Proof.
  constructor.
  - reflexivity.
  - exists [0%nat]. repeat split.
    + repeat constructor; simpl; intuition discriminate.
    + intros p [<-|[]]; eexists; (split; [reflexivity|]).
      exists 3. now apply sample_line_ok.
  - eexists. split; [reflexivity|]. now apply sample_line_ok.
Qed.

Lemma C10_full_line_submits_witness :
  match run_editor (repeat 9 4) sample_full_locals sample_full_world with
  | Done (res, buf') w' =>
      res = RL_SUCCESS /\ buf' = bytes "abc" ++ [0]
      /\ input w' = keys (bytes "more")
  | _ => False
  end.
Proof.
  pose proof (@C10_full_line_submits (repeat 9 4) sample_full_locals
                sample_full_world [0%nat] sample_full_inv eq_refl
                ltac:(cbn; lia) eq_refl) as (_ & _ & H & _).
  destruct (run_editor (repeat 9 4) sample_full_locals sample_full_world)
    as [[res b'] w'|s w'|w'|w'| |] eqn:Hrun;
    vm_compute in Hrun; try discriminate Hrun.
  injection Hrun as <- <- <-.
  destruct H as (Hres & _ & Hin). split; [exact Hres|split; reflexivity].
Defined.

(* ------------------------------------------------------------------ *)
(** ** Whole calls *)

(** C5: a call of [rl_read_line] that returns, with whatever result,
    leaves the history vector as it was with one pointer appended, the
    block allocated by this call; the entries that were there keep their
    places.  Arrow-Up and Arrow-Down write neither the vector nor any
    block. *)
Theorem C5_history_grows_by_one :
  (forall buf bs prompt w res buf' w',
      rl_read_line buf bs prompt w = Done (res, buf') w' ->
      history w' = Some (hist w ++ [length (heap w)])
      /\ Vector.length (hist w') = Vector.length (hist w) + 1)
  /\ (forall l key w c w',
        key = KEY_ARROW_UP \/ key = KEY_ARROW_DOWN ->
        handle_key l key w = Done c w' ->
        history w' = history w /\ heap w' = heap w).
Proof.
  split.
  - intros buf bs prompt w res buf' w' Hrun.
    pose proof (rl_read_line_summary buf bs prompt w) as H.
    rewrite Hrun in H. cbn [sat] in H. destruct H as (_ & _ & _ & Hh).
    split; [exact Hh|].
    unfold hist at 1. rewrite Hh. unfold Vector.length, zlen.
    rewrite length_app. cbn [length]. lia.
  - intros l key w c w' Hkey Hrun.
    rewrite (@handle_key_arrow l key Hkey) in Hrun.
    destruct (at_boundary l key w) eqn:Hbd.
    + rewrite (@history_move_at_boundary l key w Hbd) in Hrun.
      injection Hrun as _ <-. auto.
    + pose proof (@history_move_effect l key w Hbd) as H.
      rewrite Hrun in H. cbn [sat] in H.
      destruct H as (p & n & _ & _ & _ & Hh & Hst).
      split; [exact (steady_history Hst)|exact Hh].
Qed.

Definition run (inp : list Z) : outcome (ReadLineResult * list Z) :=
  rl_read_line (repeat 0 8) 8 (Some (bytes "> ")) (world0 (cpr ++ keys inp)).

Lemma C5_history_grows_by_one_witness :
  (* one call each that returns SUCCESS, END_OF_INPUT, INTERRUPTED *)
  Forall (fun inp =>
            match run inp with
            | Done _ w' => history w' = Some [0%nat]
            | _ => False
            end)
         [ bytes "hi" ++ [KEY_ENTER]; [CTRL_KEY (chr "d")];
           bytes "hi" ++ [CTRL_KEY (chr "c")] ].
Proof.
  apply Forall_cons; [|apply Forall_cons; [|apply Forall_cons;
                                              [|apply Forall_nil]]];
    match goal with
    | |- context [run ?inp] =>
        let o := eval vm_compute in (run inp) in
        assert (E1 : rl_read_line (repeat 0 8) 8 (Some (bytes "> "))
                       (world0 (cpr ++ keys inp)) = o)
          by (vm_compute; reflexivity);
        assert (E2 : run inp = o) by (vm_compute; reflexivity);
        cbv beta; rewrite E2;
        exact (proj1 (proj1 C5_history_grows_by_one _ _ _ _ _ _ _ E1))
    end.
Defined.

(** a terminal whose attributes cannot be set back: the second and the
    third [tcsetattr] fail *)
Definition world_stuck : world :=
  mk_world cooked (cpr ++ keys [CTRL_KEY (chr "c")]) [] [] []
    [false; true; true] [] cooked false None 0 [] 0.

(** C9, as stated, fails: Ctrl+C is read, [disable_raw_mode] fails, [die]
    tries once more and fails again, and the process ends with the terminal
    in raw mode. *)
Lemma C9_raw_mode_left_on :
  match rl_read_line (repeat 0 4) 4 None world_stuck with
  | Exited _ w' => term w' = raw_of cooked /\ term w' <> term world_stuck
  | _ => False
  end.
Proof. vm_compute. split; [reflexivity|discriminate]. Qed.

Lemma next_fault_inv (l : list bool) (b : bool) (r : list bool) :
  next_fault l = (b, r) -> (l = [] /\ b = false /\ r = []) \/ l = b :: r.
Proof.
  destruct l as [|x l]; cbn [next_fault]; intros [= <- <-]; auto.
Qed.

Lemma reported_fields (w : world) :
  term (reported w) = term w
  /\ tcset_faults (reported w) = tcset_faults w
  /\ raw_mode_enabled (reported w) = raw_mode_enabled w
  /\ original_state (reported w) = original_state w.
Proof. unfold reported. destruct (errno w =? 0); auto. Qed.

(** [die], step by step: the flag is clear afterwards; when it was set one
    [tcsetattr] is made, which puts the saved attributes in force unless it
    fails; when it was clear none is made *)
Lemma die_world_terminal (w : world) :
  raw_mode_enabled (die_world w) = false
  /\ (raw_mode_enabled w = false ->
      term (die_world w) = term w
      /\ tcset_faults (die_world w) = tcset_faults w)
  /\ (raw_mode_enabled w = true ->
      exists b r,
        next_fault (tcset_faults w) = (b, r)
        /\ tcset_faults (die_world w) = r
        /\ term (die_world w) = if b : bool then term w else original_state w).
Proof.
  unfold die_world. destruct (raw_mode_enabled w) eqn:Hraw.
  - destruct (next_fault (tcset_faults w)) as [[|] r] eqn:Hn.
    + split; [reflexivity|]. split; [discriminate|].
      intros _. exists true, r. auto.
    + destruct (reported_fields
                  (set_term (original_state w)
                     (set_tcset_faults r (set_raw_mode_enabled false w))))
        as (Ht & Hf & Hr & _).
      rewrite Ht, Hf, Hr. split; [reflexivity|]. split; [discriminate|].
      intros _. exists false, r. auto.
  - destruct (reported_fields w) as (Ht & Hf & Hr & _).
    rewrite Ht, Hf, Hr. split; [exact Hraw|]. split; [auto|discriminate].
Qed.

(** the [tcsetattr] calls made from [w] to [w'], as the script shows them:
    the first did not fail and the last did *)
Definition restore_failed (w w' : world) : Prop :=
  exists pre, tcset_faults w = false :: pre ++ true :: tcset_faults w'.

Ltac script_length H :=
  apply (f_equal (@length bool)) in H;
  repeat (rewrite ?length_app in H; cbn [length] in H); lia.

(** the terminal when the process ends in a call entered in [w0] *)
Lemma exit_case_terminal (w0 w' : world) :
  exit_case w0 w' ->
  raw_mode_enabled w' = false
  /\ (quiescent w0 ->
      (term w' = term w0 \/ term w' = raw_of (term w0))
      /\ (term w' <> term w0 -> restore_failed w0 w')
      /\ (restore_failed w0 w' -> tcset_faults w' <> [] ->
          term w' = raw_of (term w0))).
Proof.
  unfold restore_failed, quiescent.
  intros [w [Ht Hf Ho Hr] ->|r w Hn Hterm Hscr Horig Hraw ->|w [Ho Hr Ht Hs] Hd].
  - (* before raw mode is enabled *)
    destruct (die_world_terminal w) as (Hflag & Hoff & Hon).
    split; [exact Hflag|]. intros Hq.
    assert (Hsame : term (die_world w) = term w0).
    { destruct (raw_mode_enabled w) eqn:Hraw.
      - destruct (Hon eq_refl) as (b & r & _ & _ & ->).
        destruct b; [exact Ht|]. rewrite Ho. apply Hq. congruence.
      - destruct (Hoff eq_refl) as [-> _]. exact Ht. }
    split; [now left|]. split; [intros H; contradiction|].
    intros [pre Hpre] Hne. exfalso.
    destruct (raw_mode_enabled w) eqn:Hraw.
    + destruct (Hon eq_refl) as (b & r & Hnf & Hr' & _).
      rewrite Hr' in *. rewrite Hf in Hnf.
      destruct (next_fault_inv _ Hnf) as [(_ & _ & ->)|Hl]; [now apply Hne|].
      rewrite Hl in Hpre. script_length Hpre.
    + destruct (Hoff eq_refl) as [_ Hsc]. rewrite Hsc, Hf in Hpre.
      script_length Hpre.
  - (* the enabling call fails *)
    destruct (die_world_terminal w) as (Hflag & Hoff & Hon).
    split; [exact Hflag|]. intros Hq.
    assert (Hsame : term (die_world w) = term w0).
    { destruct (raw_mode_enabled w) eqn:Hraw'.
      - destruct (Hon eq_refl) as (b & r' & _ & _ & ->).
        destruct b; congruence.
      - destruct (Hoff eq_refl) as [-> _]. exact Hterm. }
    split; [now left|]. split; [intros H; contradiction|].
    intros [pre Hpre] _. exfalso.
    destruct (next_fault_inv _ Hn) as [(_ & Hb & _)|Hl]; [discriminate Hb|].
    rewrite Hl in Hpre. discriminate Hpre.
  - (* after raw mode is enabled *)
    assert (Hw0 : forall b r, next_fault (tcset_faults w) = (b, r) ->
                    tcset_faults w0 = false :: b :: r \/ r = []).
    { intros b r Hn.
      destruct (next_fault_inv _ Hs) as [(_ & _ & He)|Hl].
      - right. rewrite He in Hn. now injection Hn as _ <-.
      - destruct (next_fault_inv _ Hn) as [(_ & _ & ->)|Hl']; [now right|].
        left. now rewrite Hl, Hl'. }
    destruct Hd as [->|(r & Hn & ->)].
    + destruct (die_world_terminal w) as (Hflag & _ & Hon).
      split; [exact Hflag|]. intros _.
      destruct (Hon Hr) as (b & r & Hn & Hsc & Hterm).
      rewrite Hsc, Hterm. destruct b.
      * split; [right; exact Ht|]. split; [|intros _ _; exact Ht].
        intros _. exists [].
        destruct (Hw0 _ _ Hn) as [->|Hnil]; [reflexivity|].
        destruct (next_fault_inv _ Hn) as [(_ & Hb & _)|Hl];
          [discriminate Hb|].
        destruct (next_fault_inv _ Hs) as [(_ & _ & He)|Hl0].
        -- rewrite He in Hl. discriminate Hl.
        -- rewrite Hl0, Hl. reflexivity.
      * split; [left; exact Ho|]. split; [intros H; now elim H|].
        intros [pre Hpre] Hne. exfalso.
        destruct (Hw0 _ _ Hn) as [Hl|Hnil]; [|now apply Hne].
        rewrite Hl in Hpre. injection Hpre as Hpre.
        destruct pre as [|x pre]; [discriminate Hpre|].
        injection Hpre as _ Hpre. script_length Hpre.
    + set (w1 := set_errno ENOTTY (set_tcset_faults r w)).
      destruct (die_world_terminal w1) as (Hflag & _ & Hon).
      split; [exact Hflag|]. intros _.
      destruct (Hon Hr) as (b & r2 & Hn2 & Hsc & Hterm).
      rewrite Hsc, Hterm. cbn [term original_state w1 set_errno
                                 set_tcset_faults] in *.
      change (tcset_faults w1) with r in Hn2.
      assert (Hl0 : tcset_faults w0 = false :: true :: r).
      { destruct (next_fault_inv _ Hn) as [(_ & Hb & _)|Hl];
          [discriminate Hb|].
        destruct (next_fault_inv _ Hs) as [(_ & _ & He)|Hl0].
        - rewrite He in Hl. discriminate Hl.
        - now rewrite Hl0, Hl. }
      destruct b.
      * split; [right; exact Ht|]. split; [|intros _ _; exact Ht].
        intros _. exists [true]. rewrite Hl0.
        destruct (next_fault_inv _ Hn2) as [(_ & Hb & _)|Hl];
          [discriminate Hb|].
        now rewrite Hl.
      * split; [left; exact Ho|]. split; [intros H; now elim H|].
        intros [pre Hpre] Hne. exfalso.
        destruct (next_fault_inv _ Hn2) as [(_ & _ & ->)|Hl];
          [now apply Hne|].
        rewrite Hl0, Hl in Hpre. injection Hpre as Hpre.
        destruct pre as [|x [|y pre]]; try discriminate Hpre;
          [injection Hpre as Hpre|injection Hpre as _ _ Hpre];
          script_length Hpre.
Qed.

(** the state in which the [die] that ends the process is called *)
Lemma exit_case_die (w0 w' : world) :
  exit_case w0 w' -> quiescent w0 ->
  exists wd,
    w' = die_world wd
    /\ (raw_mode_enabled wd = true -> original_state wd = term w0)
    /\ (term wd = term w0
        \/ (raw_mode_enabled wd = true /\ term wd = raw_of (term w0))).
Proof.
  unfold quiescent.
  intros [w [Ht Hf Ho Hr] ->|r w Hn Hterm Hscr Horig Hraw ->|w [Ho Hr Ht Hs] Hd]
         Hq.
  - exists w. split; [reflexivity|]. split; [|now left].
    intros Hraw. rewrite Ho. apply Hq. congruence.
  - exists w. split; [reflexivity|]. split; [intros _; exact Horig|now left].
  - destruct Hd as [->|(r & Hn & ->)].
    + exists w. split; [reflexivity|]. split; [intros _; exact Ho|].
      right. split; [exact Hr|exact Ht].
    + exists (set_errno ENOTTY (set_tcset_faults r w)).
      split; [reflexivity|]. split; [intros _; exact Ho|].
      right. split; [exact Hr|exact Ht].
Qed.

(** C9, amended.  Whenever [rl_read_line] returns, the terminal has the
    attributes it had when the call began, and they are the saved ones.
    [die] clears [raw_mode_enabled]; when the flag was set it makes one
    [tcsetattr], which puts the saved attributes in force unless it fails,
    and when the flag was clear it makes none ([die_world] is the state it
    leaves).  When the process ends in a call that began with the flag
    clear or with the saved attributes in force (as the first call of a
    process does, and every call after one that returned: [quiescent]),
    the [die] that ends it is called with the
    attributes of before the call saved, and with these or, once raw mode
    is enabled, the raw ones in force.  So the terminal is left with the
    attributes of before the call or with the raw ones; with the raw ones
    only when the first [tcsetattr] of the call was made and the last one
    failed; and never when no [tcsetattr] fails. *)
Theorem C9_terminal_restored :
  (forall (buf : list Z) (bs : Z) (prompt : option (list Z)) (w : world),
      match rl_read_line buf bs prompt w with
      | Done _ w' =>
          term w' = term w /\ original_state w' = term w' /\ quiescent w'
      | Exited _ w' =>
          raw_mode_enabled w' = false
          /\ (quiescent w ->
              (exists wd,
                  w' = die_world wd
                  /\ (raw_mode_enabled wd = true ->
                      original_state wd = term w)
                  /\ (term wd = term w
                      \/ (raw_mode_enabled wd = true
                          /\ term wd = raw_of (term w))))
              /\ (term w' = term w \/ term w' = raw_of (term w))
              /\ (term w' <> term w -> restore_failed w w')
              /\ (no_fault (tcset_faults w) -> term w' = term w))
      | Blocked _ | Aborted _ | Undefined | OutOfFuel => True
      end)
  /\ (forall (msg : string) (w : world),
        (exists msg', @die unit msg w = Exited msg' (die_world w))
        /\ raw_mode_enabled (die_world w) = false
        /\ (raw_mode_enabled w = false ->
            term (die_world w) = term w
            /\ tcset_faults (die_world w) = tcset_faults w)
        /\ (raw_mode_enabled w = true ->
            exists b r,
              next_fault (tcset_faults w) = (b, r)
              /\ tcset_faults (die_world w) = r
              /\ term (die_world w)
                 = if b : bool then term w else original_state w)).
Proof.
  split.
  - intros buf bs prompt w.
    pose proof (rl_read_line_summary buf bs prompt w) as H.
    destruct (rl_read_line buf bs prompt w) as [a w'|s w'|w'|w'| |];
      cbn [sat] in H; try exact I.
    + destruct H as (Ht & Ho & _). split; [exact Ht|].
      split; [congruence|]. intros _. congruence.
    + destruct (exit_case_terminal H) as (Hflag & Hq).
      split; [exact Hflag|]. intros Hqw.
      destruct (Hq Hqw) as (Hor & Hraw & _).
      split; [exact (exit_case_die H Hqw)|].
      split; [exact Hor|]. split; [exact Hraw|].
      intros Hnf.
      destruct (termios_eq_dec (term w') (term w)) as [|Hne]; [assumption|].
      exfalso. destruct (Hraw Hne) as [pre Hpre].
      rewrite Hpre in Hnf. inversion Hnf as [|x l _ Hrest]; subst.
      apply Forall_app in Hrest as [_ Hrest].
      inversion Hrest as [|y l' Hy _]. discriminate Hy.
  - intros msg w. split; [exact (@die_exits unit msg w)|].
    exact (die_world_terminal w).
Qed.

(** a terminal on which the [tcsetattr] of [disable_raw_mode] fails and the
    one of [die] does not *)
Definition world_retry : world :=
  mk_world cooked (cpr ++ keys [CTRL_KEY (chr "c")]) [] [] []
    [false; true; false] [] cooked false None 0 [] 0.

Lemma C9_terminal_restored_witness :
  (* Ctrl+C: [disable_raw_mode] fails, [die] restores the attributes *)
  match rl_read_line (repeat 0 4) 4 None world_retry with
  | Exited _ w' =>
      term w' = cooked /\ raw_mode_enabled w' = false
      /\ tcset_faults w' = []
  | _ => False
  end.
Proof.
  pose proof (proj1 C9_terminal_restored (repeat 0 4) 4 None world_retry)
    as H.
  match type of H with
  | match ?r with _ => _ end =>
      let o := eval vm_compute in r in
      assert (E : r = o) by (vm_compute; reflexivity);
      rewrite E in H; rewrite E
  end.
  destruct H as (Hflag & Hq).
  destruct (Hq ltac:(intros Hraw; discriminate Hraw)) as (_ & _ & Hraw & _).
  split; [|split; [exact Hflag|reflexivity]].
  match goal with
  | |- ?t = cooked =>
      destruct (termios_eq_dec t cooked) as [Heq|Hne]; [exact Heq|]
  end.
  exfalso. destruct (Hraw Hne) as [pre Hpre].
  cbn [tcset_faults world_retry] in Hpre.
  injection Hpre as Hpre.
  destruct pre as [|x [|y pre]]; try discriminate Hpre.
  destruct pre; discriminate Hpre.
Defined.

(** the world after a first call with an array of 4 in which "abc" was
    typed: the line is full and the call returns *)
Definition world_after_abc : option world :=
  world_of (rl_read_line (repeat 0 4) 4 None
              (world0 (cpr ++ keys (bytes "abc")))).

(** the loop of a second call, with an array of 8, after Arrow-Up has
    recalled "abc": the variables and the block of the line *)
Definition recalled_abc_locals : locals := mk_locals 8 2 5 3 0%nat 3 3.
Definition recalled_abc_block : block := bytes "abc" ++ [0].

(** C7 fails on the code.  A call with an array of 4 leaves an entry of 4
    bytes that holds "abc".  In a later call with an array of 8, Arrow-Up
    makes it the line: length 3 is below the capacity 4, the cursor is at
    3, the NUL is at index 3, and the loop goes on since 3 < 8 - 1.  The
    insertion of a byte then stores the new terminator at index 4, past the
    end of the block. *)
Theorem C7_recalled_block_overflow :
  exists w1,
    world_after_abc = Some w1
    /\ nth_error (heap w1) 0%nat = Some recalled_abc_block
    (* the invariant of the claim holds before the key *)
    /\ num_chars recalled_abc_locals < zlen recalled_abc_block
    /\ 0 <= cursor_pos recalled_abc_locals <= num_chars recalled_abc_locals
    /\ nth_error recalled_abc_block (Z.to_nat (num_chars recalled_abc_locals))
       = Some 0
    /\ num_chars recalled_abc_locals
       < to_size (buf_size recalled_abc_locals - 1)
    (* the step, in any world that holds the block, and the whole call *)
    /\ (forall w, nth_error (heap w) 0%nat = Some recalled_abc_block ->
                  write_faults w = [] ->
                  handle_key recalled_abc_locals (chr "d") w = Undefined)
    (* the second call is defined up to the key after Arrow-Up, where it
       waits with the recalled entry as the line *)
    /\ (exists w2,
          rl_read_line (repeat 0 8) 8 None
            (next_call (keys (KEY_ESC :: bytes "[A")) w1) = Blocked w2
          /\ history_index w2 = 0
          /\ nth_error (heap w2) 0%nat = Some recalled_abc_block)
    /\ rl_read_line (repeat 0 8) 8 None
         (next_call (keys (KEY_ESC :: bytes "[A") ++ keys (bytes "d")) w1)
       = Undefined.
Proof.
  eexists. split; [vm_compute; reflexivity|].
  split; [reflexivity|]. split; [reflexivity|].
  split; [split; discriminate|]. split; [reflexivity|].
  split; [reflexivity|].
  split; [|split; [eexists; split; [vm_compute; reflexivity|
                                    split; reflexivity]
                  |vm_compute; reflexivity]].
  intros w Hb Hwf.
  unfold handle_key. change (isprint (chr "d")) with true. cbv iota.
  unfold insert_char, bind, sys_write, or_die, ret. rewrite Hwf.
  cbn [next_fault]. simpl_world.
  unfold recalled_abc_locals. simpl_world.
  change (to_size 3 <? 3) with false. cbv iota.
  unfold store, with_block. simpl_world. rewrite Hb.
  vm_compute. reflexivity.
Qed.

(** the world after a first call with an array of 8 in which "abcdef" was
    typed and submitted *)
Definition world_after_abcdef : option world :=
  world_of (rl_read_line (repeat 0 8) 8 None
              (world0 (cpr ++ keys (bytes "abcdef" ++ [KEY_ENTER])))).

(** C1 fails on the code: after that call, a call with an array of 4 in
    which Arrow-Up recalls "abcdef" returns RL_SUCCESS with "abcd" in the
    array and no NUL anywhere in it. *)
Theorem C1_truncated_copy_not_terminated :
  exists w1,
    world_after_abcdef = Some w1
    /\ option_map c_string (nth_error (heap w1) 0%nat) = Some (bytes "abcdef")
    /\ match rl_read_line [9; 9; 9; 9] 4 None
               (next_call (keys (KEY_ESC :: bytes "[A")) w1) with
       | Done (res, buf') _ =>
           res = RL_SUCCESS /\ buf' = bytes "abcd" /\ ~ In 0 buf'
       | _ => False
       end.
Proof.
  eexists. split; [vm_compute; reflexivity|].
  split; [reflexivity|].
  vm_compute. repeat split.
  intros [H|[H|[H|[H|[]]]]]; discriminate H.
Qed.

(* ================================================================== *)
(** * Further properties of the code *)

(* ------------------------------------------------------------------ *)
(** ** Further properties: keys *)

(** X1 ([CTRL_KEY]): the macro maps the letters a..z to 1..26, the code
    Ctrl sends with that letter, and gives the same code for the capital
    letter. *)
Theorem CTRL_KEY_letters (k : Z) :
  chr "a" <= k <= chr "z" ->
  CTRL_KEY k = k - 96 /\ CTRL_KEY (k - 32) = CTRL_KEY k
  /\ 1 <= CTRL_KEY k <= 26.
Proof.
  unfold CTRL_KEY. change (chr "a") with 97. change (chr "z") with 122.
  intros Hk.
  assert (H : Z.land k 31 = k - 96 /\ Z.land (k - 32) 31 = k - 96).
  { assert (Hc : k = 97 \/ k = 98 \/ k = 99 \/ k = 100 \/ k = 101 \/ k = 102
                 \/ k = 103 \/ k = 104 \/ k = 105 \/ k = 106 \/ k = 107
                 \/ k = 108 \/ k = 109 \/ k = 110 \/ k = 111 \/ k = 112
                 \/ k = 113 \/ k = 114 \/ k = 115 \/ k = 116 \/ k = 117
                 \/ k = 118 \/ k = 119 \/ k = 120 \/ k = 121 \/ k = 122)
      by lia.
    repeat (destruct Hc as [->|Hc]; [split; reflexivity|]).
    subst k. split; reflexivity. }
  destruct H as [H1 H2]. rewrite H1, H2. lia.
Qed.

Lemma CTRL_KEY_letters_witness :
  CTRL_KEY (chr "b") = 2 /\ CTRL_KEY (chr "B") = CTRL_KEY (chr "b").
Proof.
  destruct (@CTRL_KEY_letters (chr "b") ltac:(cbv; split; discriminate))
    as (H1 & H2 & _).
  split; [exact H1|exact H2].
Defined.

(** the wait loop of [read_key] passes over timeouts *)
Lemma wait_byte_timeouts (n : nat) (inp : list read_event) :
  wait_byte (repeat RTimeout n ++ inp) = wait_byte inp.
Proof. induction n as [|n IH]; [reflexivity|exact IH]. Qed.

Lemma errno_after_timeouts (n : nat) (evs : list read_event) (e : Z) :
  errno_after (repeat RTimeout n ++ evs) e = errno_after evs e.
Proof. induction n as [|n IH]; [reflexivity|exact IH]. Qed.

Lemma take_input_timeouts (n : nat) (i r : list read_event) (w : world) :
  (length r <= length i)%nat ->
  take_input r (set_input (repeat RTimeout n ++ i) w)
  = take_input r (set_input i w).
Proof.
  intros Hl. unfold take_input. simpl_world. f_equal.
  rewrite length_app, repeat_length.
  rewrite firstn_app, repeat_length.
  rewrite firstn_all2 by (rewrite repeat_length; lia).
  rewrite errno_after_timeouts. f_equal. f_equal. lia.
Qed.

(** X2 ([read_key]): reads that time out before an answer comes change
    nothing: the key, the answers left and the rest of the state are as if
    the timeouts had not happened; and when nothing but timeouts comes the
    call waits for ever. *)
Theorem read_key_skips_timeouts (w : world) (n : nat)
        (inp : list read_event) :
  raw_mode_enabled w = true ->
  read_key (set_input (repeat RTimeout n ++ inp) w)
  = read_key (set_input inp w)
  /\ read_key (set_input (repeat RTimeout n) w) = Blocked (set_input [] w).
Proof.
  intros Hraw.
  assert (H : forall i, read_key (set_input (repeat RTimeout n ++ i) w)
                        = read_key (set_input i w)).
  { intros i. unfold read_key, bind, get, assert. simpl_world.
    rewrite Hraw. simpl_world. rewrite wait_byte_timeouts.
    destruct (wait_byte i) as [c r|r|] eqn:Hw.
    - pose proof (wait_byte_length _ Hw) as Hl.
      destruct (negb (c =? KEY_ESC)).
      + unfold modify, ret. now rewrite take_input_timeouts by lia.
      + pose proof (read_esc_seq_length r) as Hl'.
        destruct (read_esc_seq r) as [k r']. cbn [snd] in Hl'.
        unfold modify, ret. now rewrite take_input_timeouts by lia.
    - pose proof (wait_error_length _ Hw) as Hl.
      unfold modify. now rewrite take_input_timeouts by lia.
    - now rewrite take_input_timeouts by (cbn; lia). }
  split; [apply H|].
  specialize (H []). rewrite app_nil_r in H. rewrite H.
  unfold read_key, bind, get, assert. simpl_world. rewrite Hraw. reflexivity.
Qed.

Lemma read_key_skips_timeouts_witness :
  read_key (set_input (repeat RTimeout 3) (set_raw_mode_enabled true (world0 [])))
  = Blocked (set_raw_mode_enabled true (world0 [])).
Proof.
  exact (proj2 (@read_key_skips_timeouts
                  (set_raw_mode_enabled true (world0 [])) 3 [] eq_refl)).
Defined.

Lemma take_input_error (n : nat) (rest : list read_event) (w : world) :
  input w = repeat RTimeout n ++ RError :: rest ->
  take_input rest w = set_errno EIO (set_input rest w).
Proof.
  intros Hin. unfold take_input, set_errno, set_input. simpl_world. f_equal.
  rewrite Hin, length_app, repeat_length. cbn [length].
  replace (n + S (length rest) - length rest)%nat with (n + 1)%nat by lia.
  rewrite firstn_app, repeat_length.
  rewrite firstn_all2 by (rewrite repeat_length; lia).
  rewrite errno_after_timeouts.
  replace (n + 1 - n)%nat with 1%nat by lia. reflexivity.
Qed.

(** X3 ([read_key]): a read that fails with an error other than a timeout
    ends the process: [die] clears the flag and asks once for the saved
    attributes; nothing is written to the terminal ([errno] is set, so the
    report is left to [perror]) and the heap and the history are not
    touched.  When that [tcsetattr] succeeds the message is that of
    [read_key] and the saved attributes are in force. *)
Theorem read_key_error_dies (w : world) (n : nat) (rest : list read_event) :
  raw_mode_enabled w = true ->
  input w = repeat RTimeout n ++ RError :: rest ->
  exists msg w',
    read_key w = Exited msg w'
    /\ w' = die_world (take_input rest w)
    /\ raw_mode_enabled w' = false
    /\ output w' = output w /\ heap w' = heap w /\ history w' = history w
    /\ (forall r, next_fault (tcset_faults w) = (false, r) ->
                  msg = "failed to read input"
                  /\ term w' = original_state w).
Proof.
  intros Hraw Hin.
  assert (Hw : wait_byte (input w) = WError rest)
    by (rewrite Hin, wait_byte_timeouts; reflexivity).
  unfold read_key, bind, get, assert, modify. rewrite Hraw, Hw.
  rewrite !(take_input_error n rest w Hin).
  unfold die, bind, die_rec, die_world, reported. simpl_world.
  rewrite Hraw.
  unfold disable_raw_mode_with, bind, get, modify, tcsetattr. simpl_world.
  destruct (next_fault (tcset_faults w)) as [[|] r] eqn:Hn; simpl_world.
  - unfold report_error, bind, get, exit_failure, ret. simpl_world.
    do 2 eexists. split; [reflexivity|].
    simpl_world. repeat (split; [reflexivity|]). intros r1 [=].
  - unfold report_error, bind, get, exit_failure, ret. simpl_world.
    change (EIO =? 0) with false. cbv iota.
    do 2 eexists. split; [reflexivity|].
    simpl_world. repeat (split; [reflexivity|]). reflexivity.
Qed.

Lemma read_key_error_dies_witness :
  exists w',
    read_key (set_raw_mode_enabled true (world0 [RTimeout; RError]))
    = Exited "failed to read input" w'
    /\ term w' = cooked.
Proof.
  destruct (@read_key_error_dies
              (set_raw_mode_enabled true (world0 [RTimeout; RError])) 1 []
              eq_refl eq_refl) as (msg & w' & Hrun & _ & _ & _ & _ & _ & H).
  destruct (H [] eq_refl) as [-> Ht].
  exists w'. split; [exact Hrun|exact Ht].
Defined.

(** X4 ([read_key]): after ESC [ and a digit, a byte other than '~' makes
    the decoder read two more answers and return KEY_ESC: a sequence of
    five bytes such as ESC [ 1 5 ~ takes the answer that follows it with
    it. *)
Theorem read_esc_seq_takes_six (d x : Z) (e5 e6 : read_event)
        (rest : list read_event) :
  isdigit (schar d) = true -> schar x <> chr "~" -> is_byte e5 ->
  read_esc_seq (RByte (chr "[") :: RByte d :: RByte x :: e5 :: e6 :: rest)
  = (KEY_ESC, rest).
Proof.
  unfold isdigit. intros Hd Hx H5.
  cbn [read_esc_seq read1].
  change (schar (chr "[")) with (chr "[").
  change (chr "[" =? KEY_ESC) with false.
  change (chr "[" =? chr "[") with true. cbv iota.
  rewrite Hd. cbv iota.
  destruct (Z.eqb_spec (schar x) (chr "~")) as [|_]; [contradiction|].
  cbn [negb]. cbv iota.
  destruct e5 as [b5| | |]; try contradiction.
  destruct e6 as [b6| | |]; reflexivity.
Qed.

Lemma read_esc_seq_takes_six_witness :
  (* F5, ESC [ 1 5 ~, then the letter a *)
  read_esc_seq (keys (bytes "[15~a")) = (KEY_ESC, []).
Proof.
  exact (@read_esc_seq_takes_six (chr "1") (chr "5") (RByte (chr "~"))
           (RByte (chr "a")) [] eq_refl ltac:(discriminate) I).
Defined.

(* ------------------------------------------------------------------ *)
(** ** Further properties: [die] and raw mode *)

(** X5 ([die]): [die] never returns.  It clears [raw_mode_enabled] and, when
    the flag was set, calls [tcsetattr] exactly once; when that call fails
    the inner [die] finds the flag cleared and ends the process with the
    message of [disable_raw_mode], so the mutual recursion stops at depth
    one whatever the system answers.  The [die] that reports sends one byte
    to the terminal, a newline, when [errno] is clear, and none when it is
    set; nothing else of the state is touched. *)
Theorem die_ends_process (A : Type) (msg : string) (w : world) :
  (forall n, die_rec (S n) msg w = die_rec 1 msg w)
  /\ exists msg' w',
      @die A msg w = Exited msg' w'
      /\ raw_mode_enabled w' = false
      /\ input w' = input w /\ heap w' = heap w /\ history w' = history w
      /\ (raw_mode_enabled w = false ->
          msg' = msg /\ term w' = term w
          /\ tcset_faults w' = tcset_faults w /\ errno w' = errno w
          /\ output w' = output w ++ (if errno w =? 0 then [10] else []))
      /\ (raw_mode_enabled w = true ->
          tcset_faults w' = snd (next_fault (tcset_faults w))
          /\ if fst (next_fault (tcset_faults w))
             then msg' = "failed to disable raw mode (tcsetattr)"
                  /\ term w' = term w /\ errno w' = ENOTTY
                  /\ output w' = output w
             else msg' = msg /\ term w' = original_state w
                  /\ errno w' = errno w
                  /\ output w'
                     = output w ++ (if errno w =? 0 then [10] else [])).
Proof.
  split; [intros n; apply die_rec_fuel|].
  destruct w as [t i o wf tg tc mf os raw h hi hp e].
  destruct raw; [destruct tc as [|[|] r]|];
    cbv -[Z.eqb app]; try destruct (e =? 0);
    do 2 eexists; (split; [reflexivity|]);
    rewrite ?app_nil_r;
    repeat (split; [reflexivity|]);
    (split; intros Hf; [try discriminate Hf|try discriminate Hf]);
    repeat split.
Qed.

Lemma die_ends_process_witness :
  (* [die] after a malformed position report: raw mode is on, [errno] is
     clear, [tcsetattr] succeeds, and a newline goes to the terminal *)
  exists w',
    @die unit "failed to get cursor position"
         (set_raw_mode_enabled true (set_output CPR_QUERY (world0 [])))
    = Exited "failed to get cursor position" w'
    /\ term w' = cooked /\ output w' = CPR_QUERY ++ [10].
Proof.
  destruct (proj2 (@die_ends_process unit "failed to get cursor position"
              (set_raw_mode_enabled true (set_output CPR_QUERY (world0 [])))))
    as (msg & w' & Hrun & _ & _ & _ & _ & _ & H).
  destruct (H eq_refl) as (_ & -> & Ht & _ & Ho).
  exists w'. split; [exact Hrun|]. split; [exact Ht|exact Ho].
Defined.

(** bits cleared with [x & ~m] are clear *)
Lemma land_lnot_clear (x m f : Z) :
  Z.land (Z.lnot m) f = 0 -> Z.land (Z.land x (Z.lnot m)) f = 0.
Proof.
  intros H. rewrite <- Z.land_assoc, H. apply Z.land_0_r.
Qed.

(** X6 ([enable_raw_mode]): when [tcgetattr] and [tcsetattr] succeed, the
    attributes that were in force are saved in [original_state], the flag is
    set, and the attributes now in force read with a timeout of a tenth of
    a second and no minimum, have echo, canonical mode, signals and output
    processing off, and eight-bit characters without parity.  Input,
    output, heap and history are not touched. *)
Theorem enable_raw_mode_sets_raw (w : world) (r1 r2 : list bool) :
  next_fault (tcget_faults w) = (false, r1) ->
  next_fault (tcset_faults w) = (false, r2) ->
  exists w',
    enable_raw_mode w = Done tt w'
    /\ original_state w' = term w /\ raw_mode_enabled w' = true
    /\ term w' = raw_of (term w)
    /\ c_cc_VMIN (term w') = 0 /\ c_cc_VTIME (term w') = 1
    /\ Forall (fun f => Z.land (c_lflag (term w')) f = 0)
         [Flags.ECHO; Flags.ECHONL; Flags.ICANON; Flags.ISIG; Flags.IEXTEN]
    /\ Forall (fun f => Z.land (c_iflag (term w')) f = 0)
         [Flags.IGNBRK; Flags.BRKINT; Flags.PARMRK; Flags.ISTRIP;
          Flags.INLCR; Flags.IGNCR; Flags.ICRNL; Flags.IXON]
    /\ Z.land (c_oflag (term w')) Flags.OPOST = 0
    /\ Z.land (c_cflag (term w')) (Z.lor Flags.CSIZE Flags.PARENB) = Flags.CS8
    /\ input w' = input w /\ output w' = output w
    /\ heap w' = heap w /\ history w' = history w.
Proof.
  intros H1 H2.
  unfold enable_raw_mode, bind, tcgetattr, tcsetattr, modify, get, or_die, ret.
  rewrite H1. simpl_world. rewrite H2. simpl_world.
  eexists. split; [reflexivity|]. simpl_world.
  repeat (split; [reflexivity|]).
  split; [|split; [|split; [|split]]].
  - unfold raw_of. cbn [c_lflag].
    repeat (apply Forall_cons; [apply land_lnot_clear; reflexivity|]).
    apply Forall_nil.
  - unfold raw_of. cbn [c_iflag].
    repeat (apply Forall_cons; [apply land_lnot_clear; reflexivity|]).
    apply Forall_nil.
  - unfold raw_of. cbn [c_oflag]. apply land_lnot_clear. reflexivity.
  - unfold raw_of. cbn [c_cflag].
    rewrite Z.land_lor_distr_l, land_lnot_clear by reflexivity. reflexivity.
  - repeat split.
Qed.

Lemma enable_raw_mode_sets_raw_witness :
  exists w',
    enable_raw_mode (world0 []) = Done tt w'
    /\ original_state w' = cooked
    /\ Z.land (c_lflag (term w')) Flags.ICANON = 0.
Proof.
  destruct (@enable_raw_mode_sets_raw (world0 []) [] [] eq_refl eq_refl)
    as (w' & Hrun & Ho & _ & _ & _ & _ & Hl & _).
  exists w'. split; [exact Hrun|]. split; [exact Ho|].
  inversion Hl as [|? ? _ Hl1]. inversion Hl1 as [|? ? _ Hl2].
  inversion Hl2 as [|? ? Hc _]. exact Hc.
Defined.

(** X7 ([enable_raw_mode], [disable_raw_mode]): entering raw mode and
    leaving it again puts back the attributes that were in force.  The flag
    [raw_mode_enabled] stays set: [disable_raw_mode] does not clear it. *)
Theorem raw_mode_round_trip (w : world) (r1 : list bool) :
  next_fault (tcget_faults w) = (false, r1) ->
  no_fault (tcset_faults w) ->
  exists w',
    (enable_raw_mode ;;; disable_raw_mode) w = Done tt w'
    /\ term w' = term w /\ original_state w' = term w
    /\ raw_mode_enabled w' = true
    /\ input w' = input w /\ output w' = output w
    /\ heap w' = heap w /\ history w' = history w.
Proof.
  intros H1 Hnf.
  destruct (next_fault (tcset_faults w)) as [b r2] eqn:H2.
  destruct (no_fault_next Hnf H2) as [-> Hnf2].
  destruct (next_fault r2) as [b r3] eqn:H3.
  destruct (no_fault_next Hnf2 H3) as [-> _].
  unfold bind at 1.
  unfold enable_raw_mode, bind, tcgetattr, tcsetattr, modify, get, or_die, ret.
  rewrite H1. simpl_world. rewrite H2. simpl_world.
  unfold disable_raw_mode, disable_raw_mode_with, bind, get, tcsetattr, ret.
  simpl_world. rewrite H3. simpl_world.
  eexists. split; [reflexivity|]. simpl_world. repeat split.
Qed.

Lemma raw_mode_round_trip_witness :
  exists w',
    (enable_raw_mode ;;; disable_raw_mode) (world0 []) = Done tt w'
    /\ term w' = cooked /\ raw_mode_enabled w' = true.
Proof.
  destruct (@raw_mode_round_trip (world0 []) [] eq_refl (Forall_nil _))
    as (w' & Hrun & Ht & _ & Hr & _).
  exists w'. split; [exact Hrun|]. split; [exact Ht|exact Hr].
Defined.

(* ------------------------------------------------------------------ *)
(** ** Further properties: the cursor position report *)

Lemma isdigit_digit (d : Z) : 0 <= d < 10 -> isdigit (chr "0" + d) = true.
Proof.
  unfold isdigit. change (chr "0") with 48. change (chr "9") with 57.
  intros H. apply andb_true_intro. split; apply Z.leb_le; lia.
Qed.

(** reading back the digits [dec_digits] writes *)
Lemma scan_dec_digits (f : nat) :
  forall n acc, 0 <= n < 10 ^ Z.of_nat f ->
                scan_digits 0 (dec_digits f n acc) = scan_digits n acc.
Proof.
  induction f as [|f IH]; intros n acc Hn.
  - change (10 ^ Z.of_nat 0) with 1 in Hn. assert (n = 0) as -> by lia.
    reflexivity.
  - rewrite Nat2Z.inj_succ, Z.pow_succ_r in Hn by lia.
    cbn [dec_digits].
    assert (Hd : 0 <= n mod 10 < 10) by (apply Z.mod_pos_bound; lia).
    destruct (Z.eqb_spec (n / 10) 0) as [Hq|Hq].
    + cbn [scan_digits]. rewrite isdigit_digit by exact Hd.
      f_equal. pose proof (Z.div_mod n 10 ltac:(lia)). lia.
    + rewrite IH by (split; [apply Z.div_pos; lia
                            |apply Z.div_lt_upper_bound; lia]).
      cbn [scan_digits]. rewrite isdigit_digit by exact Hd.
      f_equal. pose proof (Z.div_mod n 10 ltac:(lia)). lia.
Qed.

(** [dec_digits] writes digits before what it was given, no more of them
    than the number has *)
Lemma dec_digits_app (f : nat) :
  forall n acc k, 0 <= n < 10 ^ Z.of_nat k -> (1 <= k)%nat ->
    exists ds, dec_digits f n acc = ds ++ acc
               /\ Forall (fun c => isdigit c = true) ds
               /\ (length ds <= k)%nat
               /\ (f <> O -> ds <> []).
Proof.
  induction f as [|f IH]; intros n acc k Hn Hk.
  - exists []. repeat split; auto. simpl. lia.
  - cbn [dec_digits].
    assert (Hd : 0 <= n mod 10 < 10) by (apply Z.mod_pos_bound; lia).
    destruct (Z.eqb_spec (n / 10) 0) as [Hq|Hq].
    + exists [chr "0" + n mod 10]. repeat split.
      * constructor; [now apply isdigit_digit|constructor].
      * simpl. lia.
      * discriminate.
    + destruct k as [|[|k]]; [lia| |].
      { exfalso. apply Hq. apply Z.div_small.
        change (10 ^ Z.of_nat 1) with 10 in Hn. lia. }
      rewrite Nat2Z.inj_succ, Z.pow_succ_r in Hn by lia.
      destruct (IH (n / 10) ((chr "0" + n mod 10) :: acc) (S k))
        as (ds & Heq & Hds & Hlen & _);
        [split; [apply Z.div_pos; lia|apply Z.div_lt_upper_bound; lia]
        |lia|].
      exists (ds ++ [chr "0" + n mod 10]). repeat split.
      * rewrite Heq, <- app_assoc. reflexivity.
      * apply Forall_app. split; [exact Hds|].
        constructor; [now apply isdigit_digit|constructor].
      * rewrite length_app. simpl. lia.
      * intros _ H. apply app_eq_nil in H as [_ H]. discriminate.
Qed.

Lemma decimal_digits (n : Z) :
  0 <= n < 65536 ->
  exists d ds, decimal n = d :: ds
               /\ Forall (fun c => isdigit c = true) (d :: ds)
               /\ (length (d :: ds) <= 5)%nat.
Proof.
  intros Hn. unfold decimal.
  destruct (@dec_digits_app 20 n [] 5%nat) as (ds & Heq & Hds & Hlen & Hne).
  { change (10 ^ Z.of_nat 5) with 100000. lia. }
  { lia. }
  rewrite app_nil_r in Heq. rewrite Heq.
  destruct ds as [|d ds]; [now destruct Hne|].
  exists d, ds. auto.
Qed.

(** [%hu] reads back what [%d] wrote, up to a character that is no digit *)
Lemma scan_hu_decimal (n : Z) (rest : list Z) :
  0 <= n < 65536 ->
  match rest with c :: _ => isdigit c = false | [] => True end ->
  scan_hu (decimal n ++ rest) = Some (n, rest).
Proof.
  intros Hn Hrest.
  destruct (decimal_digits Hn) as (d & ds & Heq & Hds & _).
  assert (Hscan : scan_digits 0 (decimal n ++ rest) = (n, rest)).
  { unfold decimal.
    destruct (@dec_digits_app 20 n rest 5%nat) as (ds' & Heq' & _);
      [change (10 ^ Z.of_nat 5) with 100000; lia|lia|].
    assert (Hsame : dec_digits 20 n [] ++ rest = dec_digits 20 n rest).
    { clear. generalize 20%nat as f. intros f.
      change rest with ([] ++ rest) at 2. generalize (@nil Z) as acc.
      revert n. induction f as [|f IH]; intros n acc; [reflexivity|].
      cbn [dec_digits]. destruct (n / 10 =? 0); [reflexivity|].
      rewrite IH. reflexivity. }
    rewrite Hsame, scan_dec_digits
      by (change (10 ^ Z.of_nat 20) with 100000000000000000000; lia).
    destruct rest as [|c r]; [reflexivity|].
    cbn [scan_digits]. now rewrite Hrest. }
  unfold scan_hu. rewrite Heq in *. cbn [app] in *.
  inversion Hds as [|? ? Hd _]; subst.
  assert (Hsp : isspace d = false /\ (d =? chr "-") = false
                /\ (d =? chr "+") = false).
  { unfold isdigit in Hd. apply andb_prop in Hd as [H1 H2].
    apply Z.leb_le in H1, H2. change (chr "0") with 48 in H1.
    change (chr "9") with 57 in H2. unfold isspace.
    change (chr "-") with 45. change (chr "+") with 43.
    repeat split; bool_cases. }
  destruct Hsp as (Hs1 & Hs2 & Hs3).
  cbn [skip_space]. rewrite Hs1, Hs2, Hs3, Hd, Hscan.
  unfold to_ushort. rewrite Z.mod_small by (change (2 ^ 16) with 65536; lia).
  reflexivity.
Qed.

(** the [for] loop of [get_cursor_position] on an answer that ends in R
    before the array is full *)
Lemma read_response_report (s : list Z) :
  forall n rest,
    (length s < n)%nat ->
    Forall (fun c => 0 <= c < 128 /\ c <> chr "R") s ->
    read_response n (keys s ++ RByte (chr "R") :: rest) = (s, true, rest).
Proof.
  induction s as [|c s IH]; intros n rest Hlen Hs;
    (destruct n as [|n]; [simpl in Hlen; lia|]).
  - reflexivity.
  - inversion Hs as [|? ? [Hc HR] Hs']; subst.
    cbn [keys map app read_response read1].
    rewrite schar_small by exact Hc.
    destruct (Z.eqb_spec c (chr "R")) as [|_]; [contradiction|].
    fold (keys s). rewrite IH; [reflexivity|simpl in Hlen; lia|exact Hs'].
Qed.

(** the report ESC [ row ; col R is read back as (row, col) *)
Lemma get_cursor_position_report (w : world) (row col : Z)
      (rest : list read_event) (r : list bool) :
  next_fault (write_faults w) = (false, r) ->
  0 <= row < 65536 -> 0 <= col < 65536 ->
  input w = keys (27 :: bytes "[" ++ decimal row ++ bytes ";" ++ decimal col)
            ++ RByte (chr "R") :: rest ->
  get_cursor_position w
  = Done (Some (row, col))
         (set_input rest
            (set_output (output w ++ CPR_QUERY) (set_write_faults r w))).
Proof.
  intros Hw Hrow Hcol Hin.
  destruct (decimal_digits Hrow) as (d1 & ds1 & Heq1 & Hds1 & Hl1).
  destruct (decimal_digits Hcol) as (d2 & ds2 & Heq2 & Hds2 & Hl2).
  assert (Hdig : forall l, Forall (fun c => isdigit c = true) l ->
                           Forall (fun c => 0 <= c < 128 /\ c <> chr "R") l).
  { intros l H. eapply Forall_impl; [|exact H]. cbv beta. intros c Hc.
    unfold isdigit in Hc. apply andb_prop in Hc as [H1 H2].
    apply Z.leb_le in H1, H2. change (chr "0") with 48 in H1.
    change (chr "9") with 57 in H2. change (chr "R") with 82. lia. }
  unfold get_cursor_position, bind, sys_write. rewrite Hw. cbn [negb].
  unfold get. simpl_world. rewrite Hin.
  rewrite read_response_report.
  - unfold modify, ret. simpl_world. cbn [bytes app].
    change (27 =? 27) with true. change (chr "[" =? chr "[") with true.
    cbn [negb orb].
    unfold sscanf_hu_hu.
    rewrite scan_hu_decimal by (auto; reflexivity).
    change (chr ";" =? chr ";") with true. cbv iota.
    rewrite <- (app_nil_r (decimal col)).
    rewrite scan_hu_decimal by (auto; exact I).
    rewrite (@take_input_quiet
               (keys (27 :: bytes "[" ++ decimal row ++ bytes ";"
                         ++ decimal col) ++ [RByte (chr "R")]) rest).
    + reflexivity.
    + apply Forall_app. split; [apply keys_quiet|repeat constructor].
    + simpl_world. rewrite Hin, <- app_assoc. reflexivity.
  - cbn [bytes app length]. rewrite !length_app, Heq1, Heq2.
    cbn [bytes length] in *. lia.
  - cbn [bytes app]. rewrite Heq1, Heq2.
    constructor; [change (chr "R") with 82; lia|].
    constructor; [change (chr "[") with 91; change (chr "R") with 82; lia|].
    apply Forall_app. split; [now apply Hdig|].
    constructor; [change (chr ";") with 59; change (chr "R") with 82; lia|].
    now apply Hdig.
Qed.

(** X8 ([get_cursor_position], [move_cursor_to]): the report
    ESC [ row ; col R, with the numbers written as [%d] writes them, is
    read back as (row, col) for all values of an [unsigned short]; the
    query is written first and nothing after the R is taken from the
    input. *)
Theorem cursor_report_round_trip (w : world) (row col : Z)
        (rest : list read_event) (r : list bool) :
  next_fault (write_faults w) = (false, r) ->
  0 <= row < 65536 -> 0 <= col < 65536 ->
  input w = keys (27 :: bytes "[" ++ decimal row ++ bytes ";" ++ decimal col)
            ++ RByte (chr "R") :: rest ->
  get_cursor_position w
  = Done (Some (row, col))
         (set_input rest
            (set_output (output w ++ CPR_QUERY) (set_write_faults r w))).
Proof. apply get_cursor_position_report. Qed.

Lemma cursor_report_round_trip_witness :
  exists w',
    get_cursor_position (world0 (keys (27 :: bytes "[24;80Rxy")))
    = Done (Some (24, 80)) w'
    /\ input w' = keys (bytes "xy").
Proof.
  eexists. split.
  - exact (@cursor_report_round_trip
             (world0 (keys (27 :: bytes "[24;80Rxy"))) 24 80
             (keys (bytes "xy")) [] eq_refl
             ltac:(lia) ltac:(lia) eq_refl).
  - reflexivity.
Defined.

(** X9 ([get_cursor_position]): sixteen bytes without an R among them fill
    [res]; the loop ends with [i = 16] and the terminator is stored at
    [res[16]], outside the array. *)
Theorem cursor_report_overflow (w : world) (bs : list Z)
        (rest : list read_event) (r : list bool) :
  next_fault (write_faults w) = (false, r) ->
  length bs = 16%nat ->
  Forall (fun b => schar b <> chr "R") bs ->
  input w = keys bs ++ rest ->
  get_cursor_position w = Undefined.
Proof.
  intros Hw Hlen Hbs Hin.
  assert (Hrd : forall s n rest0,
             length s = n -> Forall (fun b => schar b <> chr "R") s ->
             read_response n (keys s ++ rest0) = (map schar s, false, rest0)).
  { induction s as [|c s IH]; intros n rest0 Hl Hs; subst n;
      [reflexivity|].
    inversion Hs as [|? ? Hc Hs']; subst.
    cbn [keys map app length read_response read1].
    destruct (Z.eqb_spec (schar c) (chr "R")) as [|_]; [contradiction|].
    fold (keys s). rewrite (IH (length s) rest0 eq_refl Hs'). reflexivity. }
  unfold get_cursor_position, bind, sys_write. rewrite Hw. cbn [negb].
  unfold get. simpl_world. rewrite Hin, (Hrd bs 16%nat rest Hlen Hbs).
  reflexivity.
Qed.

Lemma cursor_report_overflow_witness :
  get_cursor_position (world0 (keys (27 :: bytes "[123456;1234567R")))
  = Undefined.
Proof.
  apply (@cursor_report_overflow
           (world0 (keys (27 :: bytes "[123456;1234567R")))
           (27 :: bytes "[123456;1234567") [RByte (chr "R")] [] eq_refl
           eq_refl).
  - repeat (constructor; [discriminate|]). constructor.
  - reflexivity.
Defined.

(* ------------------------------------------------------------------ *)
(** ** Further properties: the history *)

Lemma replace_nth_last {A} (h : list A) (x y : A) :
  replace_nth (length h) y (h ++ [x]) = h ++ [y].
Proof.
  unfold replace_nth.
  rewrite firstn_app, Nat.sub_diag, firstn_all. cbn [firstn].
  rewrite app_nil_r. f_equal. f_equal.
  rewrite skipn_all2; [reflexivity|]. rewrite length_app. simpl. lia.
Qed.

Lemma nth_error_last {A} (h : list A) (x : A) :
  nth_error (h ++ [x]) (length h) = Some x.
Proof. rewrite nth_error_app2, Nat.sub_diag by lia. reflexivity. Qed.

(** filling a fresh block of [n] bytes with [n] bytes *)
Lemma blk_write_fresh (data : list Z) :
  blk_write (repeat 0 (length data)) 0 data = Some data.
Proof.
  unfold blk_write, zlen. rewrite repeat_length.
  destruct (Z.leb_spec (0 + Z.of_nat (length data)) (Z.of_nat (length data)));
    [|lia].
  cbn [Z.leb andb Z.to_nat firstn app Nat.add].
  rewrite skipn_all2 by (rewrite repeat_length; lia).
  now rewrite app_nil_r.
Qed.

(** what [add_to_history] returns and leaves *)
Lemma add_to_history_done (buf : list Z) (bs : Z) (w : world) :
  0 <= bs <= zlen buf ->
  exists ok w',
    add_to_history buf bs w = Done ok w'
    /\ ok = negb (fst (next_fault (malloc_faults w)))
    /\ (ok = true ->
        heap w' = heap w ++ [firstn (Z.to_nat bs) buf]
        /\ history w' = Some (hist w ++ [length (heap w)]))
    /\ (ok = false -> heap w' = heap w /\ history w' = Some (hist w))
    /\ term w' = term w /\ input w' = input w /\ output w' = output w
    /\ history_index w' = history_index w.
Proof.
  intros Hbs.
  assert (Hrd : blk_read buf 0 bs = Some (firstn (Z.to_nat bs) buf)).
  { unfold blk_read.
    destruct (Z.leb_spec 0 bs); [|lia].
    destruct (Z.leb_spec (0 + bs) (zlen buf)); [|lia]. reflexivity. }
  assert (Hlen : length (firstn (Z.to_nat bs) buf) = Z.to_nat bs).
  { rewrite length_firstn. unfold zlen in Hbs. lia. }
  set (data := firstn (Z.to_nat bs) buf) in *.
  unfold add_to_history, hist.
  unfold bind at 1. unfold get at 1.
  unfold bind at 1.
  destruct (history w) as [v|] eqn:Hv;
    unfold modify at 1, ret at 1;
    unfold bind at 1; unfold malloc; simpl_world;
    (destruct (next_fault (malloc_faults w)) as [[|] r] eqn:Hm;
     simpl_world; cbn [fst negb];
     [ unfold ret; do 2 eexists; split; [reflexivity|]; simpl_world;
       repeat split; try discriminate; try assumption
     | rewrite Hrd; unfold bind, write_block, with_block; simpl_world;
       rewrite nth_error_last, <- Hlen, blk_write_fresh; cbn [option_map];
       unfold get, modify, ret; simpl_world; rewrite ?Hv;
       do 2 eexists; split; [reflexivity|]; simpl_world;
       rewrite replace_nth_last;
       repeat split; try discriminate; try assumption ]).
Qed.

(** X10 ([add_to_history]): the call appends to the heap a block holding
    the first [buf_size] bytes of the caller's array, whatever they are, and
    the pointer to it to the vector, which it creates when [history] is
    NULL; the blocks and the entries that were there stay.  When [malloc]
    fails it returns false; the vector has then been created all the
    same. *)
Theorem add_to_history_copies (buf : list Z) (bs : Z) (w : world) :
  0 <= bs <= zlen buf ->
  exists ok w',
    add_to_history buf bs w = Done ok w'
    /\ ok = negb (fst (next_fault (malloc_faults w)))
    /\ (ok = true ->
        heap w' = heap w ++ [firstn (Z.to_nat bs) buf]
        /\ history w' = Some (hist w ++ [length (heap w)]))
    /\ (ok = false -> heap w' = heap w /\ history w' = Some (hist w))
    /\ term w' = term w /\ input w' = input w /\ output w' = output w
    /\ history_index w' = history_index w.
Proof. apply add_to_history_done. Qed.

Lemma add_to_history_copies_witness :
  exists w',
    add_to_history (bytes "stale") 3 (world0 []) = Done true w'
    /\ heap w' = [bytes "sta"] /\ history w' = Some [0%nat].
Proof.
  destruct (@add_to_history_copies (bytes "stale") 3 (world0 [])
              ltac:(cbv; split; discriminate))
    as (ok & w' & Hrun & -> & H & _).
  exists w'. split; [exact Hrun|]. exact (H eq_refl).
Defined.

(* ------------------------------------------------------------------ *)
(** ** Further properties: the text of the line *)

Lemma zget_app (a b : list Z) (i : Z) :
  0 <= i ->
  zget (a ++ b) i = if i <? zlen a then zget a i else zget b (i - zlen a).
Proof.
  unfold zget, zlen. intros Hi.
  destruct (Z.ltb_spec i (Z.of_nat (length a))).
  - apply app_nth1. lia.
  - rewrite app_nth2 by lia. f_equal. lia.
Qed.

Lemma zget_firstn (k : nat) (b : list Z) (i : Z) :
  0 <= i < Z.of_nat k -> zget (firstn k b) i = zget b i.
Proof.
  unfold zget. intros Hi. rewrite nth_firstn.
  destruct (Nat.ltb_spec (Z.to_nat i) k); [reflexivity|lia].
Qed.

Lemma zget_skipn (k : nat) (b : list Z) (i : Z) :
  0 <= i -> zget (skipn k b) i = zget b (i + Z.of_nat k).
Proof.
  unfold zget. intros Hi. rewrite nth_skipn. f_equal. lia.
Qed.

(** the string in a block is its first [strlen] bytes *)
Lemma c_string_firstn (b : block) (n : Z) :
  blk_strlen b = Some n -> c_string b = firstn (Z.to_nat n) b.
Proof.
  revert n. induction b as [|c r IH]; intros n; cbn [blk_strlen c_string];
    [discriminate|].
  destruct (c =? 0); [intros [= <-]; reflexivity|].
  destruct (blk_strlen r) as [m|] eqn:Hm; cbn [option_map]; [|discriminate].
  intros [= <-]. pose proof (blk_strlen_sound r Hm) as (Hm0 & _).
  rewrite Z2Nat.inj_succ by lia. cbn [firstn]. f_equal. now apply IH.
Qed.

Lemma c_string_length (b : block) (n : Z) :
  blk_strlen b = Some n -> zlen (c_string b) = n.
Proof.
  intros Hs. pose proof (blk_strlen_sound b Hs) as (Hn & _).
  rewrite (c_string_firstn b Hs). unfold zlen in *.
  rewrite length_firstn. lia.
Qed.

Lemma zget_c_string (b : block) (n i : Z) :
  blk_strlen b = Some n -> 0 <= i < n -> zget (c_string b) i = zget b i.
Proof.
  intros Hs Hi. rewrite (c_string_firstn b Hs). apply zget_firstn. lia.
Qed.

(** the text after an insertion at the cursor *)
Lemma insert_text (bs : Z) (b b' : block) (c n key : Z) :
  line_ok bs b c n -> line_ok bs b' (c + 1) (n + 1) ->
  (forall i, 0 <= i ->
     zget b' i = if i <? c then zget b i
                 else if i =? c then key
                 else if i <=? n + 1 then zget b (i - 1)
                 else zget b i) ->
  c_string b'
  = firstn (Z.to_nat c) (c_string b) ++ key :: skipn (Z.to_nat c) (c_string b).
Proof.
  intros Hok Hok' Hg.
  pose proof (line_strlen Hok) as Hs. pose proof (line_strlen Hok') as Hs'.
  pose proof (line_cursor Hok) as Hc.
  pose proof (c_string_length b Hs) as Hl.
  pose proof (c_string_length b' Hs') as Hl'.
  assert (Hlf : zlen (firstn (Z.to_nat c) (c_string b)) = c).
  { unfold zlen in *. rewrite length_firstn. lia. }
  apply zget_ext.
  - rewrite Hl'. unfold zlen in *. rewrite length_app. cbn [length].
    rewrite length_firstn, length_skipn. lia.
  - rewrite Hl'. intros i Hi.
    rewrite (@zget_c_string b' _ i Hs') by lia. rewrite Hg by lia.
    rewrite zget_app by lia. rewrite Hlf.
    destruct (Z.ltb_spec i c).
    + rewrite zget_firstn by lia. now rewrite (@zget_c_string b _ i Hs) by lia.
    + destruct (Z.eqb_spec i c) as [->|Hne].
      * now rewrite Z.sub_diag.
      * destruct (Z.leb_spec i (n + 1)); [|lia].
        replace (i - c) with (i - c - 1 + 1) by lia.
        rewrite zget_cons_succ by lia.
        rewrite zget_skipn by lia.
        rewrite (@zget_c_string b _ _ Hs) by lia. f_equal. lia.
Qed.

(** the text after a Backspace *)
Lemma backspace_text (bs : Z) (b b' : block) (c n : Z) :
  line_ok bs b c n -> c <> 0 -> line_ok bs b' (c - 1) (n - 1) ->
  (forall i, 0 <= i ->
     zget b' i = if i <? c - 1 then zget b i
                 else if i <? n then zget b (i + 1)
                 else zget b i) ->
  c_string b'
  = firstn (Z.to_nat (c - 1)) (c_string b) ++ skipn (Z.to_nat c) (c_string b).
Proof.
  intros Hok Hc0 Hok' Hg.
  pose proof (line_strlen Hok) as Hs. pose proof (line_strlen Hok') as Hs'.
  pose proof (line_cursor Hok) as Hc.
  pose proof (c_string_length b Hs) as Hl.
  pose proof (c_string_length b' Hs') as Hl'.
  assert (Hlf : zlen (firstn (Z.to_nat (c - 1)) (c_string b)) = c - 1).
  { unfold zlen in *. rewrite length_firstn. lia. }
  apply zget_ext.
  - rewrite Hl'. unfold zlen in *. rewrite length_app.
    rewrite length_firstn, length_skipn. lia.
  - rewrite Hl'. intros i Hi.
    rewrite (@zget_c_string b' _ i Hs') by lia. rewrite Hg by lia.
    rewrite zget_app by lia. rewrite Hlf.
    destruct (Z.ltb_spec i (c - 1)).
    + rewrite zget_firstn by lia. now rewrite (@zget_c_string b _ i Hs) by lia.
    + destruct (Z.ltb_spec i n); [|lia].
      rewrite zget_skipn by lia.
      rewrite (@zget_c_string b _ _ Hs) by lia. f_equal. lia.
Qed.

(** the bytes [move_cursor_to] writes *)
Definition move_to_bytes (row col : Z) : list Z :=
  27 :: bytes "[" ++ decimal row ++ bytes ";" ++ decimal col ++ bytes "H".

(** a write in a run where no write fails *)
Ltac no_write_fault Hnf :=
  exfalso; revert Hnf; write_fault.

(** what [insert_char] writes to the terminal: the key, and when the
    cursor is inside the line the moved tail and the cursor position *)
Lemma insert_char_output (l : locals) (key : Z) (w : world) (b : block) :
  nth_error (heap w) (current_buf l) = Some b ->
  no_fault (write_faults w) ->
  sat (insert_char l key w)
      (fun _ w' =>
         output w'
         = output w ++ byte_of_int key
             :: (if to_size (cursor_pos l) <? num_chars l then
                   match
                     obind (blk_memmove b (cursor_pos l + 1) (cursor_pos l)
                              (to_size (num_chars l - cursor_pos l + 1)))
                       (fun b1 => blk_read b1 (cursor_pos l + 1)
                                    (to_size (num_chars l - cursor_pos l)))
                   with
                   | Some tail =>
                       tail ++ move_to_bytes (cy l)
                                 (to_ushort (cx l + cursor_pos l + 1))
                   | None => []
                   end
                 else []))
      (fun _ _ => False) True.
Proof.
  intros Hb Hnf. unfold insert_char.
  assert (Hlt : (current_buf l < length (heap w))%nat)
    by (apply nth_error_Some; congruence).
  io_steps; try solve [no_write_fault Hnf].
  destruct (to_size (cursor_pos l) <? num_chars l).
  - io_steps. mem_step Hb; [|exact I].
    rewrite Hmv. cbn [obind].
    pose proof (nth_error_replace_nth_same b' Hb) as Hb1.
    io_steps. mem_step Hb1; [|exact I].
    rewrite Hrd.
    io_steps; try solve [no_write_fault Hnf].
    mem_step Hb1; [|exact I].
    norm. rewrite replace_nth_twice by exact Hlt.
    pose proof (nth_error_replace_nth_same b'0 Hb) as Hb2.
    io_steps. mem_step Hb2; [|exact I].
    io_steps. unfold move_to_bytes. rewrite <- !app_assoc. reflexivity.
  - io_steps. mem_step Hb; [|exact I].
    pose proof (nth_error_replace_nth_same b' Hb) as Hb2.
    io_steps. mem_step Hb2; [|exact I].
    io_steps. reflexivity.
Qed.

(** what [backspace] writes to the terminal: the cursor is sent to the
    place where the line began, the line is cleared and written again *)
Lemma backspace_output (l : locals) (w : world) (b : block) :
  nth_error (heap w) (current_buf l) = Some b ->
  cursor_pos l <> 0 ->
  no_fault (write_faults w) ->
  sat (backspace l w)
      (fun _ w' =>
         exists b' d,
           blk_backspace b (cursor_pos l) (num_chars l) = Some b'
           /\ blk_read b' 0 (to_size (num_chars l - 1)) = Some d
           /\ output w'
              = output w ++ move_to_bytes (cy l) (cx l)
                  ++ (27 :: bytes "[K") ++ d)
      (fun _ _ => False) True.
Proof.
  intros Hb Hc Hnf. unfold backspace, blk_backspace.
  assert (Hlt : (current_buf l < length (heap w))%nat)
    by (apply nth_error_Some; congruence).
  destruct (Z.eqb_spec (cursor_pos l) 0) as [|_]; [contradiction|].
  io_steps. mem_step Hb; [|exact I].
  rewrite Hmv. cbn [obind].
  pose proof (nth_error_replace_nth_same b' Hb) as Hb1.
  io_steps. mem_step Hb1; [|exact I].
  rewrite Hst. cbn [obind]. norm. rewrite replace_nth_twice by exact Hlt.
  pose proof (nth_error_replace_nth_same b'0 Hb) as Hb2.
  io_steps; try solve [no_write_fault Hnf].
  mem_step Hb2; [|exact I].
  rewrite Hrd. cbn [obind].
  io_steps; try solve [no_write_fault Hnf].
  exists b'0, d. split; [reflexivity|]. split; [exact Hrd|].
  unfold move_to_bytes. rewrite <- !app_assoc. reflexivity.
Qed.

(** the tail an insertion inside the line writes again is the text from
    the cursor on *)
Lemma insert_tail (bs : Z) (b : block) (c n : Z) :
  line_ok bs b c n -> n < bs - 1 -> c < n ->
  obind (blk_memmove b (c + 1) c (to_size (n - c + 1)))
    (fun b1 => blk_read b1 (c + 1) (to_size (n - c)))
  = Some (skipn (Z.to_nat c) (c_string b)).
Proof.
  intros Hok Hguard Hcn.
  destruct (line_ok_bounds Hok) as (Hc & Hn & Hmax & Hz & Hnz).
  pose proof (line_capacity Hok) as Hcap.
  pose proof (line_strlen Hok) as Hs.
  pose proof (c_string_length b Hs) as Hl.
  rewrite !to_size_small by (unfold SIZE_MOD, INT_MAX in *; lia).
  destruct (blk_memmove b (c + 1) c (n - c + 1)) as [b1|] eqn:Hmv.
  2: { exfalso. revert Hmv. apply blk_memmove_ok; lia. }
  cbn [obind].
  pose proof (blk_memmove_spec _ _ _ _ Hmv) as (_ & _ & _ & _ & _ & Hl1 & Hg1).
  destruct (blk_read b1 (c + 1) (n - c)) as [d|] eqn:Hrd.
  2: { exfalso. revert Hrd. apply blk_read_ok; lia. }
  pose proof (blk_read_spec _ _ _ Hrd) as (_ & _ & _ & Hld & Hgd).
  f_equal. apply zget_ext.
  - rewrite Hld. unfold zlen in *. rewrite length_skipn. lia.
  - rewrite Hld. intros i Hi. rewrite Hgd by lia. rewrite Hg1 by lia.
    destruct (Z.leb_spec (c + 1) (c + 1 + i)); [|lia].
    destruct (Z.ltb_spec (c + 1 + i) (c + 1 + (n - c + 1))); [|lia].
    cbn [andb]. rewrite zget_skipn by lia.
    rewrite (@zget_c_string b _ _ Hs) by lia. f_equal. lia.
Qed.

(** the line a Backspace writes again is the new text *)
Lemma backspace_repaint (bs : Z) (b' : block) (c n : Z) (d : list Z) :
  line_ok bs b' c n ->
  blk_read b' 0 (to_size n) = Some d -> d = c_string b'.
Proof.
  intros Hok Hrd.
  destruct (line_ok_bounds Hok) as (Hc & Hn & Hmax & _).
  pose proof (line_strlen Hok) as Hs.
  pose proof (c_string_length b' Hs) as Hl.
  rewrite to_size_small in Hrd by (unfold SIZE_MOD, INT_MAX in *; lia).
  pose proof (blk_read_spec _ _ _ Hrd) as (_ & _ & _ & Hld & Hgd).
  apply zget_ext.
  - congruence.
  - rewrite Hld. intros i Hi. rewrite Hgd by lia.
    rewrite (@zget_c_string b' _ _ Hs) by lia. reflexivity.
Qed.

(** a printable key in a state of the edit loop *)
Lemma handle_key_insert (l : locals) (key : Z) (w : world) (s : list Z) :
  editor_inv l w ->
  num_chars l < to_size (buf_size l - 1) ->
  isprint key = true ->
  line_text w l = Some s ->
  let l' := set_num_chars (num_chars l + 1)
              (set_cursor_pos (cursor_pos l + 1) l) in
  match handle_key l key w with
  | Done c w' =>
      c = Continue l'
      /\ line_text w' l'
         = Some (firstn (Z.to_nat (cursor_pos l)) s
                 ++ key :: skipn (Z.to_nat (cursor_pos l)) s)
      /\ editor_inv l' w'
      /\ steady w w' /\ history_index w' = history_index w
      /\ (forall p, p <> current_buf l ->
                    nth_error (heap w') p = nth_error (heap w) p)
      /\ (no_fault (write_faults w) ->
          no_fault (write_faults w')
          /\ output w'
             = output w
               ++ key :: (if cursor_pos l <? num_chars l
                          then skipn (Z.to_nat (cursor_pos l)) s
                               ++ move_to_bytes (cy l)
                                    (to_ushort (cx l + cursor_pos l + 1))
                          else []))
  | Exited _ _ => ~ no_fault (write_faults w)
  | Blocked _ | Aborted _ | Undefined | OutOfFuel => False
  end.
Proof.
  intros Hinv Hguard Hkey Htext l'.
  destruct (editor_inv_bounds Hinv) as (Hbs & Hc & Hn).
  rewrite to_size_small in Hguard by (unfold SIZE_MOD, INT_MAX in *; lia).
  pose proof Hinv as [_ _ (b & Hb & Hok)].
  destruct (blk_insert_spec key Hok Hguard Hkey)
    as (b1 & Hins & Hl1 & Hg1 & Hok1).
  destruct (isprint_byte key Hkey) as [Hbyte _].
  assert (Hlt : (current_buf l < length (heap w))%nat)
    by (apply nth_error_Some; congruence).
  unfold line_text in Htext. rewrite Hb in Htext. injection Htext as <-.
  pose proof (insert_char_effect l key w Hb) as Hsat.
  pose proof (@insert_char_output l key w b Hb) as Hout.
  pose proof (@nb_handle_key l key w) as Hnb.
  rewrite (@handle_key_printable l key Hkey) in *.
  unfold bind in *.
  destruct (insert_char l key w) as [l1 w'|m w'|w'|w'| |];
    cbn [sat ret] in *; try assumption;
    try (rewrite Hins in Hsat; discriminate Hsat).
  - destruct Hsat as (b1' & Hins' & Hh & -> & Hst & Hi & Hwf).
    rewrite Hins in Hins'. injection Hins' as <-.
    rewrite to_size_small, to_int_small
      by (unfold SIZE_MOD, INT_MAX in *; lia).
    fold l'.
    split; [reflexivity|]. split; [|split; [|split; [|split; [|split]]]];
      try assumption.
    + unfold line_text. subst l'. simpl_world. rewrite Hh.
      rewrite (nth_error_replace_nth_same b1 Hb). cbn [option_map]. f_equal.
      exact (insert_text key Hok Hok1 Hg1).
    + exact (editor_inv_line Hinv Hb Hok1 Hh Hst Hi).
    + intros p Hp. rewrite Hh, nth_error_replace_nth by exact Hlt.
      destruct (Nat.eqb_spec p (current_buf l)); [contradiction|reflexivity].
    + intros Hnf. split; [now apply Hwf|].
      rewrite (Hout Hnf), Hbyte.
      rewrite (@to_size_small (cursor_pos l))
        by (unfold SIZE_MOD, INT_MAX in *; lia).
      destruct (Z.ltb_spec (cursor_pos l) (num_chars l)); [|reflexivity].
      now rewrite (insert_tail Hok Hguard) by assumption.
  - exact (Hnb w' eq_refl).
Qed.

(** X11 (the branch [if (isprint(key))] of [rl_read_line]): in a state of
    the edit loop a printable key is inserted at the cursor: the text of
    the line becomes the text before the cursor, the key, and the text from
    the cursor on; length and cursor offset grow by one; no block other
    than that of the line changes.  The terminal receives the key and, when
    the cursor was inside the line, the text from the cursor on and the
    sequence that puts the cursor after the key.  The turn ends the
    process only when a write fails. *)
Theorem insert_at_cursor (l : locals) (key : Z) (w : world) (s : list Z) :
  editor_inv l w ->
  num_chars l < to_size (buf_size l - 1) ->
  isprint key = true ->
  line_text w l = Some s ->
  let l' := set_num_chars (num_chars l + 1)
              (set_cursor_pos (cursor_pos l + 1) l) in
  match handle_key l key w with
  | Done c w' =>
      c = Continue l'
      /\ line_text w' l'
         = Some (firstn (Z.to_nat (cursor_pos l)) s
                 ++ key :: skipn (Z.to_nat (cursor_pos l)) s)
      /\ editor_inv l' w'
      /\ steady w w' /\ history_index w' = history_index w
      /\ (forall p, p <> current_buf l ->
                    nth_error (heap w') p = nth_error (heap w) p)
      /\ (no_fault (write_faults w) ->
          no_fault (write_faults w')
          /\ output w'
             = output w
               ++ key :: (if cursor_pos l <? num_chars l
                          then skipn (Z.to_nat (cursor_pos l)) s
                               ++ move_to_bytes (cy l)
                                    (to_ushort (cx l + cursor_pos l + 1))
                          else []))
  | Exited _ _ => ~ no_fault (write_faults w)
  | Blocked _ | Aborted _ | Undefined | OutOfFuel => False
  end.
Proof. apply handle_key_insert. Qed.

Lemma insert_at_cursor_witness :
  (* "hi" with the cursor after the h: X gives "hXi" *)
  exists w',
    handle_key sample_locals (chr "X") sample_world
    = Done (Continue (mk_locals 8 2 5 3 1%nat 2 3)) w'
    /\ line_text w' (mk_locals 8 2 5 3 1%nat 2 3) = Some (bytes "hXi")
    /\ output w' = bytes "Xi" ++ 27 :: bytes "[5;5H".
Proof.
  pose proof (@insert_at_cursor sample_locals (chr "X") sample_world
                (bytes "hi") sample_inv eq_refl eq_refl eq_refl) as H.
  cbv zeta in H.
  destruct (handle_key sample_locals (chr "X") sample_world)
    as [c w'|m w'|w'|w'| |]; try contradiction.
  - destruct H as (-> & Ht & _ & _ & _ & _ & Ho).
    exists w'. split; [reflexivity|]. split; [exact Ht|].
    exact (proj2 (Ho (Forall_nil _))).
  - exfalso. apply H. constructor.
Defined.

(** X12 (the case KEY_BACKSPACE of [rl_read_line], [repaint_line]): in a
    state of the edit loop with the cursor not at the start, Backspace
    removes the byte before the cursor: the text becomes the text before
    that byte and the text from the cursor on; length and cursor offset
    shrink by one; no block other than that of the line changes.  The
    terminal receives the move to the place where the line began, the
    sequence that clears the line, and the new text, and nothing after it:
    the cursor of the terminal is left after the last byte of the line
    wherever the cursor offset is.  The turn ends the process only when a
    write fails. *)
Theorem backspace_before_cursor (l : locals) (w : world) (s : list Z) :
  editor_inv l w ->
  cursor_pos l <> 0 ->
  line_text w l = Some s ->
  let l' := set_num_chars (num_chars l - 1)
              (set_cursor_pos (cursor_pos l - 1) l) in
  let s' := firstn (Z.to_nat (cursor_pos l - 1)) s
            ++ skipn (Z.to_nat (cursor_pos l)) s in
  match handle_key l KEY_BACKSPACE w with
  | Done c w' =>
      c = Continue l'
      /\ line_text w' l' = Some s'
      /\ editor_inv l' w'
      /\ steady w w' /\ history_index w' = history_index w
      /\ (forall p, p <> current_buf l ->
                    nth_error (heap w') p = nth_error (heap w) p)
      /\ (no_fault (write_faults w) ->
          no_fault (write_faults w')
          /\ output w'
             = output w ++ move_to_bytes (cy l) (cx l)
                 ++ (27 :: bytes "[K") ++ s')
  | Exited _ _ => ~ no_fault (write_faults w)
  | Blocked _ | Aborted _ | Undefined | OutOfFuel => False
  end.
Proof.
  intros Hinv Hc0 Htext l' s'.
  destruct (editor_inv_bounds Hinv) as (Hbs & Hc & Hn).
  pose proof Hinv as [_ _ (b & Hb & Hok)].
  destruct (blk_backspace_spec Hok Hc0) as (b1 & Hbsp & Hl1 & Hg1 & Hok1).
  assert (Hlt : (current_buf l < length (heap w))%nat)
    by (apply nth_error_Some; congruence).
  unfold line_text in Htext. rewrite Hb in Htext. injection Htext as <-.
  pose proof (backspace_effect l w Hb Hc0) as Hsat.
  pose proof (@backspace_output l w b Hb Hc0) as Hout.
  pose proof (@nb_handle_key l KEY_BACKSPACE w) as Hnb.
  rewrite handle_key_backspace in *.
  destruct (backspace l w) as [c w'|m w'|w'|w'| |];
    cbn [sat] in *; try assumption;
    try (rewrite Hbsp in Hsat; discriminate Hsat).
  - destruct Hsat as (b1' & Hbsp' & Hh & -> & Hst & Hi & Hwf).
    rewrite Hbsp in Hbsp'. injection Hbsp' as <-.
    rewrite to_size_small, to_int_small
      by (unfold SIZE_MOD, INT_MAX in *; lia).
    fold l'.
    assert (Hs' : c_string b1 = s')
      by exact (backspace_text Hok Hc0 Hok1 Hg1).
    split; [reflexivity|]. split; [|split; [|split; [|split; [|split]]]];
      try assumption.
    + unfold line_text. subst l'. simpl_world. rewrite Hh.
      rewrite (nth_error_replace_nth_same b1 Hb). cbn [option_map].
      now f_equal.
    + exact (editor_inv_line Hinv Hb Hok1 Hh Hst Hi).
    + intros p Hp. rewrite Hh, nth_error_replace_nth by exact Hlt.
      destruct (Nat.eqb_spec p (current_buf l)); [contradiction|reflexivity].
    + intros Hnf. split; [now apply Hwf|].
      destruct (Hout Hnf) as (b2 & d & Hb2 & Hrd & ->).
      rewrite Hbsp in Hb2. injection Hb2 as <-.
      now rewrite (backspace_repaint Hok1 Hrd), Hs'.
  - exact (Hnb w' eq_refl).
Qed.

Lemma backspace_before_cursor_witness :
  (* "hi" with the cursor after the h: "i" is left *)
  exists w',
    handle_key sample_locals KEY_BACKSPACE sample_world
    = Done (Continue (mk_locals 8 2 5 3 1%nat 0 1)) w'
    /\ line_text w' (mk_locals 8 2 5 3 1%nat 0 1) = Some (bytes "i")
    /\ output w' = 27 :: bytes "[5;3H" ++ 27 :: bytes "[Ki".
Proof.
  pose proof (@backspace_before_cursor sample_locals sample_world
                (bytes "hi") sample_inv ltac:(discriminate) eq_refl) as H.
  cbv zeta in H.
  destruct (handle_key sample_locals KEY_BACKSPACE sample_world)
    as [c w'|m w'|w'|w'| |]; try contradiction.
  - destruct H as (-> & Ht & _ & _ & _ & _ & Ho).
    exists w'. split; [reflexivity|]. split; [exact Ht|].
    exact (proj2 (Ho (Forall_nil _))).
  - exfalso. apply H. constructor.
Defined.

(* ------------------------------------------------------------------ *)
(** ** Further properties: the cursor keys *)

Lemma handle_key_left (l : locals) (key : Z) :
  key = KEY_ARROW_LEFT \/ key = CTRL_KEY (chr "b") ->
  handle_key l key = cursor_left l.
Proof. intros [->| ->]; reflexivity. Qed.

Lemma handle_key_right (l : locals) (key : Z) :
  key = KEY_ARROW_RIGHT \/ key = CTRL_KEY (chr "f") ->
  handle_key l key = cursor_right l.
Proof. intros [->| ->]; reflexivity. Qed.

Lemma set_cursor_pos_same (l : locals) : set_cursor_pos (cursor_pos l) l = l.
Proof. now destruct l. Qed.

(** the move to the left, in a state of the edit loop *)
Lemma cursor_left_done (l : locals) (w : world) :
  editor_inv l w ->
  exists w',
    cursor_left l w
    = Done (Continue (set_cursor_pos (Z.max 0 (cursor_pos l - 1)) l)) w'
    /\ heap w' = heap w /\ history_index w' = history_index w
    /\ steady w w'
    /\ (cursor_pos l = 0 -> w' = w)
    /\ (cursor_pos l <> 0 -> no_fault (write_faults w) ->
        no_fault (write_faults w')
        /\ output w' = output w ++ 27 :: bytes "[D").
Proof.
  intros Hinv. destruct (editor_inv_bounds Hinv) as (_ & Hc & Hn).
  unfold cursor_left.
  destruct (Z.eqb_spec (cursor_pos l) 0) as [H0|H0].
  - exists w. rewrite H0. cbn [Z.max Z.sub Z.opp Z.add Z.compare Z.pos_sub].
    rewrite <- H0, set_cursor_pos_same.
    repeat split; auto using steady_refl. contradiction.
  - rewrite to_int_small by (unfold INT_MAX in *; lia).
    rewrite Z.max_r by lia.
    unfold bind, move_cursor_left, sys_write, ret.
    destruct (next_fault (write_faults w)) as [[|] r] eqn:Hf;
      eexists; (split; [reflexivity|]); simpl_world;
      (split; [reflexivity|]); (split; [reflexivity|]);
      (split; [steady_tac|]); (split; [contradiction|]); intros _ Hnf;
      destruct (no_fault_next Hnf Hf) as [Hb Hr]; [discriminate|auto].
Qed.

(** the move to the right, in a state of the edit loop *)
Lemma cursor_right_done (l : locals) (w : world) :
  editor_inv l w ->
  exists w',
    cursor_right l w
    = Done (Continue (set_cursor_pos
                        (Z.min (num_chars l) (cursor_pos l + 1)) l)) w'
    /\ heap w' = heap w /\ history_index w' = history_index w
    /\ steady w w'
    /\ (cursor_pos l = num_chars l -> w' = w)
    /\ (cursor_pos l <> num_chars l -> no_fault (write_faults w) ->
        no_fault (write_faults w')
        /\ output w' = output w ++ 27 :: bytes "[C").
Proof.
  intros Hinv. destruct (editor_inv_bounds Hinv) as (_ & Hc & Hn).
  unfold cursor_right.
  rewrite to_size_small by (unfold SIZE_MOD, INT_MAX in *; lia).
  destruct (Z.eqb_spec (cursor_pos l) (num_chars l)) as [H0|H0].
  - exists w. rewrite Z.min_l by lia. rewrite <- H0, set_cursor_pos_same.
    repeat split; auto using steady_refl. contradiction.
  - rewrite to_int_small by (unfold INT_MAX in *; lia).
    rewrite Z.min_r by lia.
    unfold bind, move_cursor_right, sys_write, ret.
    destruct (next_fault (write_faults w)) as [[|] r] eqn:Hf;
      eexists; (split; [reflexivity|]); simpl_world;
      (split; [reflexivity|]); (split; [reflexivity|]);
      (split; [steady_tac|]); (split; [contradiction|]); intros _ Hnf;
      destruct (no_fault_next Hnf Hf) as [Hb Hr]; [discriminate|auto].
Qed.

(** moving the cursor keeps the state of the edit loop *)
Lemma editor_inv_cursor (l : locals) (w w' : world) (c : Z) :
  editor_inv l w -> 0 <= c <= num_chars l ->
  heap w' = heap w -> history_index w' = history_index w -> steady w w' ->
  editor_inv (set_cursor_pos c l) w'.
Proof.
  intros Hinv Hc Hh Hi Hst.
  pose proof Hinv as [_ _ (b & Hb & Hok)].
  replace (set_cursor_pos c l)
    with (set_num_chars (num_chars l) (set_cursor_pos c l))
    by (destruct l; reflexivity).
  apply editor_inv_line with (w:=w) (b:=b) (b':=b); auto.
  - destruct Hok. constructor; auto.
  - rewrite Hh. symmetry. now apply replace_nth_same.
Qed.

(** X13 (the cases of Arrow-Left, Ctrl+B, Arrow-Right and Ctrl+F in
    [rl_read_line]): in a state of the edit loop these keys move the cursor
    offset by one and keep it between 0 and the length of the line; at the
    end they would cross nothing is written and nothing changes.  The heap
    is not touched, the state stays one of the edit loop, and the turn
    always ends normally: the result of the write of the escape sequence
    is not looked at. *)
Theorem cursor_keys_move (l : locals) (key : Z) (w : world) :
  editor_inv l w ->
  (key = KEY_ARROW_LEFT \/ key = CTRL_KEY (chr "b"))
  \/ (key = KEY_ARROW_RIGHT \/ key = CTRL_KEY (chr "f")) ->
  let left := (key =? KEY_ARROW_LEFT) || (key =? CTRL_KEY (chr "b")) in
  let c' := if left then Z.max 0 (cursor_pos l - 1)
            else Z.min (num_chars l) (cursor_pos l + 1) in
  exists w',
    handle_key l key w = Done (Continue (set_cursor_pos c' l)) w'
    /\ editor_inv (set_cursor_pos c' l) w'
    /\ heap w' = heap w /\ history w' = history w
    /\ history_index w' = history_index w
    /\ (c' = cursor_pos l -> w' = w)
    /\ (c' <> cursor_pos l -> no_fault (write_faults w) ->
        output w' = output w ++ 27 :: bytes (if left then "[D" else "[C")).
Proof.
  intros Hinv Hkey left c'.
  destruct (editor_inv_bounds Hinv) as (_ & Hc & Hn).
  destruct Hkey as [Hk|Hk].
  - assert (Hl : left = true) by (destruct Hk as [->| ->]; reflexivity).
    subst c'. rewrite Hl. rewrite (handle_key_left l Hk).
    destruct (cursor_left_done Hinv) as (w' & Hrun & Hh & Hi & Hst & H0 & Ho).
    exists w'. split; [exact Hrun|].
    split; [apply editor_inv_cursor with w; auto; lia|].
    split; [exact Hh|]. split; [exact (steady_history Hst)|].
    split; [exact Hi|]. split.
    + intros He. apply H0. lia.
    + intros Hne Hnf. apply Ho; [lia|exact Hnf].
  - assert (Hl : left = false) by (destruct Hk as [->| ->]; reflexivity).
    subst c'. rewrite Hl. rewrite (handle_key_right l Hk).
    destruct (cursor_right_done Hinv) as (w' & Hrun & Hh & Hi & Hst & H0 & Ho).
    exists w'. split; [exact Hrun|].
    split; [apply editor_inv_cursor with w; auto; lia|].
    split; [exact Hh|]. split; [exact (steady_history Hst)|].
    split; [exact Hi|]. split.
    + intros He. apply H0. lia.
    + intros Hne Hnf. apply Ho; [lia|exact Hnf].
Qed.

Lemma cursor_keys_move_witness :
  exists w',
    handle_key sample_locals KEY_ARROW_LEFT sample_world
    = Done (Continue (set_cursor_pos 0 sample_locals)) w'
    /\ output w' = output sample_world ++ 27 :: bytes "[D".
Proof.
  destruct (@cursor_keys_move sample_locals KEY_ARROW_LEFT sample_world
              sample_inv (or_introl (or_introl eq_refl)))
    as (w' & Hrun & _ & _ & _ & _ & _ & Ho).
  exists w'. split; [exact Hrun|].
  apply Ho; [discriminate|constructor].
Defined.

(** two keys in a row, when the first one lets the loop go on *)
Definition two_keys (l : locals) (k1 k2 : Z) : M ctl :=
  c <- handle_key l k1 ;;
  match c with
  | Continue l1 => handle_key l1 k2
  | _ => ret c
  end.

(** X14 (the same cases): a move to the left and one to the right undo
    each other wherever the first one moves the cursor: the variables of
    the loop are as before, and the heap, the history and its index have
    not changed. *)
Theorem cursor_moves_undo (l : locals) (w : world) :
  editor_inv l w ->
  (cursor_pos l <> 0 ->
   exists w', two_keys l KEY_ARROW_LEFT KEY_ARROW_RIGHT w
              = Done (Continue l) w'
              /\ heap w' = heap w /\ history w' = history w
              /\ history_index w' = history_index w)
  /\ (cursor_pos l <> num_chars l ->
      exists w', two_keys l KEY_ARROW_RIGHT KEY_ARROW_LEFT w
                 = Done (Continue l) w'
                 /\ heap w' = heap w /\ history w' = history w
                 /\ history_index w' = history_index w).
Proof.
  intros Hinv. destruct (editor_inv_bounds Hinv) as (_ & Hc & Hn).
  unfold two_keys, bind.
  rewrite (@handle_key_left l KEY_ARROW_LEFT (or_introl eq_refl)).
  rewrite (@handle_key_right l KEY_ARROW_RIGHT (or_introl eq_refl)).
  split; intros Hne.
  - destruct (cursor_left_done Hinv) as (w1 & Hrun & Hh & Hi & Hst & _).
    rewrite Hrun. rewrite Z.max_r by lia.
    set (l1 := set_cursor_pos (cursor_pos l - 1) l).
    assert (Hinv1 : editor_inv l1 w1)
      by (apply editor_inv_cursor with w; auto; lia).
    rewrite (@handle_key_right l1 KEY_ARROW_RIGHT (or_introl eq_refl)).
    destruct (cursor_right_done Hinv1)
      as (w2 & Hrun2 & Hh2 & Hi2 & Hst2 & _).
    rewrite Hrun2. exists w2. subst l1. simpl_world.
    rewrite Z.min_r by lia.
    replace (cursor_pos l - 1 + 1) with (cursor_pos l) by lia.
    split; [destruct l; reflexivity|].
    split; [congruence|].
    split; [|congruence].
    now rewrite (steady_history Hst2), (steady_history Hst).
  - destruct (cursor_right_done Hinv) as (w1 & Hrun & Hh & Hi & Hst & _).
    rewrite Hrun. rewrite Z.min_r by lia.
    set (l1 := set_cursor_pos (cursor_pos l + 1) l).
    assert (Hinv1 : editor_inv l1 w1)
      by (apply editor_inv_cursor with w; auto; lia).
    rewrite (@handle_key_left l1 KEY_ARROW_LEFT (or_introl eq_refl)).
    destruct (cursor_left_done Hinv1)
      as (w2 & Hrun2 & Hh2 & Hi2 & Hst2 & _).
    rewrite Hrun2. exists w2. subst l1. simpl_world.
    rewrite Z.max_r by lia.
    replace (cursor_pos l + 1 - 1) with (cursor_pos l) by lia.
    split; [destruct l; reflexivity|].
    split; [congruence|].
    split; [|congruence].
    now rewrite (steady_history Hst2), (steady_history Hst).
Qed.

Lemma cursor_moves_undo_witness :
  exists w',
    two_keys sample_locals KEY_ARROW_LEFT KEY_ARROW_RIGHT sample_world
    = Done (Continue sample_locals) w'
    /\ heap w' = heap sample_world.
Proof.
  destruct (proj1 (@cursor_moves_undo sample_locals sample_world sample_inv)
              ltac:(discriminate))
    as (w' & Hrun & Hh & _).
  exists w'. split; [exact Hrun|exact Hh].
Defined.

(* ------------------------------------------------------------------ *)
(** ** Further properties: leaving the loop *)

Lemma run_editor_sigint (buf : list Z) (l : locals) (w : world)
      (r : list read_event) :
  num_chars l < to_size (buf_size l - 1) ->
  raw_mode_enabled w = true ->
  next_key (input w) = Some (CTRL_KEY (chr "c"), r) ->
  run_editor buf l w
  = (disable_raw_mode ;;; ret (RL_SIGINT, buf)) (take_input r w).
Proof.
  intros Hg Hraw Hk. unfold run_editor. unfold bind at 1, get.
  unfold bind at 1.
  rewrite (@edit_loop_key (length (input w)) l w _ r Hg Hraw Hk).
  unfold handle_key. change (isprint (CTRL_KEY (chr "c"))) with false.
  cbn [Z.eqb CTRL_KEY chr]. cbn -[disable_raw_mode].
  unfold bind. destruct (disable_raw_mode (take_input r w)); reflexivity.
Qed.

(** X15 (the case of Ctrl+C in [rl_read_line]): when the loop reads Ctrl+C
    the call restores the saved attributes and returns RL_SIGINT, whatever
    the line holds.  The caller's array is not written, nothing is written
    to the terminal, and heap and history stay as they are: the text typed
    so far remains in its history entry.  The process ends instead only
    when [tcsetattr] fails. *)
Theorem ctrl_c_interrupts (buf : list Z) (l : locals) (w : world)
        (r : list read_event) :
  num_chars l < to_size (buf_size l - 1) ->
  raw_mode_enabled w = true ->
  next_key (input w) = Some (CTRL_KEY (chr "c"), r) ->
  match run_editor buf l w with
  | Done (res, buf') w' =>
      res = RL_SIGINT /\ buf' = buf
      /\ heap w' = heap w /\ history w' = history w
      /\ history_index w' = history_index w
      /\ output w' = output w /\ input w' = r
      /\ term w' = original_state w
  | Exited msg _ =>
      msg = "failed to disable raw mode (tcsetattr)"
      /\ fst (next_fault (tcset_faults w)) = true
  | Blocked _ | Aborted _ | Undefined | OutOfFuel => False
  end.
Proof.
  intros Hg Hraw Hk. rewrite (@run_editor_sigint buf l w r Hg Hraw Hk).
  unfold bind, disable_raw_mode, disable_raw_mode_with, bind, get, tcsetattr.
  simpl_world.
  destruct (next_fault (tcset_faults w)) as [[|] r2]; simpl_world.
  - unfold die, bind, die_rec. simpl_world. rewrite Hraw.
    unfold bind, modify, disable_raw_mode_with, bind, get, tcsetattr.
    simpl_world.
    destruct (next_fault r2) as [[|] r3]; simpl_world;
      unfold exit_failure; cbn; auto.
  - unfold ret. cbn. repeat split.
Qed.

(** evaluating the run a statement is about *)
Ltac eval_run H :=
  match type of H with
  | match ?r with _ => _ end =>
      let o := eval vm_compute in r in
      let E := fresh "E" in
      assert (E : r = o) by (vm_compute; reflexivity);
      rewrite E in H
  end.

Lemma ctrl_c_interrupts_witness :
  exists w',
    run_editor (repeat 9 8) sample_locals
      (set_input (keys [CTRL_KEY (chr "c")]) sample_world)
    = Done (RL_SIGINT, repeat 9 8) w'
    /\ heap w' = heap sample_world.
Proof.
  pose proof (@ctrl_c_interrupts (repeat 9 8) sample_locals
                (set_input (keys [CTRL_KEY (chr "c")]) sample_world) []
                eq_refl eq_refl eq_refl) as H.
  destruct (run_editor (repeat 9 8) sample_locals
              (set_input (keys [CTRL_KEY (chr "c")]) sample_world))
    as [[res b'] w'|m w'|w'|w'| |]; try contradiction.
  - destruct H as (-> & -> & Hh & _). exists w'. split; [reflexivity|exact Hh].
  - destruct H as [_ H]. discriminate H.
Defined.

(** X16 ([rl_read_line], the [while] loop): every turn of the loop takes
    at least one answer from the input, so the loop ends within as many
    turns as there are answers: the fuel of the model is not used up, and
    two amounts of fuel above the number of answers give the same run. *)
Theorem edit_loop_fuel (f1 f2 : nat) (l : locals) (w : world) :
  (length (input w) < f1)%nat -> (length (input w) < f2)%nat ->
  edit_loop f1 l w = edit_loop f2 l w /\ edit_loop f1 l w <> OutOfFuel.
Proof.
  revert f2 l w. induction f1 as [|n IH]; intros f2 l w H1 H2; [lia|].
  destruct f2 as [|m]; [lia|].
  cbn [edit_loop].
  destruct (num_chars l <? to_size (buf_size l - 1));
    [|split; [reflexivity|discriminate]].
  destruct (raw_mode_enabled w) eqn:Hraw.
  2: { unfold bind, read_key, bind, get, assert.
       rewrite Hraw. split; [reflexivity|discriminate]. }
  pose proof (@sat_read_key w
                (fun _ w1 => (length (input w1) < length (input w))%nat)
                (fun _ _ => True) True Hraw) as Hrk.
  unfold bind.
  destruct (read_key w) as [k w1|s w1|w1|w1| |] eqn:Hk;
    try (split; [reflexivity|discriminate]).
  - assert (Hlen : (length (input w1) < length (input w))%nat).
    { apply Hrk; [|auto]. intros k0 r Hn. simpl_world.
      exact (next_key_length _ Hn). }
    pose proof (handle_key_steady l k w1) as Hst.
    destruct (handle_key l k w1) as [[l'|l'|r] w2|s w2|w2|w2| |];
      cbn [sat] in Hst; try (split; [reflexivity|discriminate]).
    + apply IH; rewrite (steady_input Hst); lia.
    + contradiction.
  - exfalso. unfold read_key, bind, get, assert in Hk. rewrite Hraw in Hk.
    destruct (wait_byte (input w)) as [c r|r|].
    + destruct (negb (c =? KEY_ESC)); [discriminate Hk|].
      destruct (read_esc_seq r). discriminate Hk.
    + unfold modify in Hk. destruct (@die_exits Z "failed to read input"
                                       (take_input r w)) as [m' Hm].
      rewrite Hm in Hk. discriminate Hk.
    + discriminate Hk.
Qed.

(** the line "hi" with the cursor after the "h", and three keys to come:
    a, b and Enter *)
Definition sample_typing_world : world :=
  set_input (keys (bytes "ab" ++ [KEY_ENTER])) sample_world.

Lemma edit_loop_fuel_witness :
  (* three turns of the loop, each taking one answer: with fuel 4 and with
     fuel 9 the loop is left by Enter with "habi" as the line *)
  edit_loop 4 sample_locals sample_typing_world
  = edit_loop 9 sample_locals sample_typing_world
  /\ exists l' w',
       edit_loop 9 sample_locals sample_typing_world = Done (EndOfLoop l') w'
       /\ num_chars l' = 4 /\ cursor_pos l' = 3 /\ input w' = []
       /\ line_text w' l' = Some (bytes "habi").
Proof.
  destruct (@edit_loop_fuel 4 9 sample_locals sample_typing_world
              ltac:(cbn; lia) ltac:(cbn; lia)) as [Heq _].
  split; [exact Heq|].
  rewrite <- Heq. vm_compute. do 2 eexists.
  split; [reflexivity|]. repeat split.
Defined.

(* ------------------------------------------------------------------ *)
(** ** Further properties: a session with one buffer size *)

(** Between the calls of a session that always passes arrays of [bs]
    bytes: the history entries are distinct blocks, and each holds a string
    shorter than [bs] in at least [bs] bytes. *)
Definition session_ok (bs : Z) (w : world) : Prop :=
  NoDup (hist w)
  /\ forall p, In p (hist w) ->
       exists b n, nth_error (heap w) p = Some b
                   /\ line_ok bs b n n /\ n < bs.

(** the loop of [get_cursor_position] is left by [break]: an R, a timeout
    or an error comes within sixteen answers *)
Definition report_ends (inp : list read_event) : Prop :=
  snd (fst (read_response 16 inp)) = true.

(** in the edit loop of such a session the line and every entry are
    shorter than the buffer size *)
Definition tight (l : locals) (w : world) : Prop :=
  num_chars l < buf_size l
  /\ forall p b, In p (hist w) -> nth_error (heap w) p = Some b ->
       exists n, blk_strlen b = Some n /\ n < buf_size l.

Lemma hist_steady (w w' : world) : steady w w' -> hist w' = hist w.
Proof. intros H. unfold hist. now rewrite (steady_history H). Qed.

Lemma tight_frame (l l' : locals) (w w' : world) :
  tight l w -> hist w' = hist w -> heap w' = heap w ->
  buf_size l' = buf_size l -> num_chars l' < buf_size l' -> tight l' w'.
Proof.
  intros [_ H] Hh Hp Hbs Hn. split; [exact Hn|].
  rewrite Hh, Hp, Hbs. exact H.
Qed.

Lemma tight_line (l l' : locals) (w w' : world) (b b' : block) (n' : Z) :
  tight l w -> hist w' = hist w ->
  nth_error (heap w) (current_buf l) = Some b ->
  heap w' = replace_nth (current_buf l) b' (heap w) ->
  blk_strlen b' = Some n' -> n' < buf_size l ->
  buf_size l' = buf_size l -> num_chars l' = n' -> tight l' w'.
Proof.
  intros [_ H] Hh Hb Hp Hs Hn Hbs Hnum. split; [lia|].
  assert (Hlt : (current_buf l < length (heap w))%nat)
    by (apply nth_error_Some; congruence).
  rewrite Hh, Hp, Hbs. intros p b0 Hin.
  rewrite nth_error_replace_nth by exact Hlt.
  destruct (Nat.eqb_spec p (current_buf l)).
  - intros [= <-]. eauto.
  - now apply H.
Qed.

(** every step of the loop body keeps the line and the entries short *)
Lemma handle_key_tight (l : locals) (key : Z) (w : world) :
  editor_inv l w -> tight l w ->
  num_chars l < to_size (buf_size l - 1) ->
  sat (handle_key l key w)
      (fun c w' =>
         match c with
         | Continue l' | GotoEnd l' =>
             tight l' w' /\ buf_size l' = buf_size l
         | Return r =>
             heap w' = heap w /\ history_index w' = history_index w
             /\ r <> RL_SUCCESS
         end)
      (fun _ _ => True) True.
Proof.
  intros Hinv Ht Hguard.
  destruct (editor_inv_bounds Hinv) as (Hbs & Hc & Hn).
  rewrite to_size_small in Hguard by (unfold SIZE_MOD, INT_MAX in *; lia).
  pose proof Hinv as [_ (v & Hv & Hlen & Hmax & Hnd & Hget & Hent)
                        (b & Hb & Hok)].
  assert (Hself : tight l w /\ buf_size l = buf_size l) by auto.
  unfold handle_key.
  destruct (isprint key) eqn:Hprint.
  { apply sat_bind.
    destruct (blk_insert_spec key Hok Hguard Hprint)
      as (b1 & Hins & _ & _ & Hok1).
    eapply sat_weaken; [apply (insert_char_effect l key w Hb)| |auto|auto].
    intros l' w' (b' & Hins' & Hh & -> & Hst & Hi & _). cbn [ret sat].
    rewrite Hins in Hins'. injection Hins' as <-.
    rewrite to_size_small, to_int_small
      by (unfold SIZE_MOD, INT_MAX in *; lia).
    split; [|reflexivity].
    apply tight_line with (l:=l) (w:=w) (b:=b) (b':=b1) (n':=num_chars l + 1);
      auto using hist_steady.
    - exact (line_strlen Hok1).
    - lia. }
  destruct (key =? KEY_ENTER).
  { io_steps; [|exact I]. split; [|reflexivity].
    apply tight_frame with l w; auto. apply Ht. }
  destruct (key =? CTRL_KEY (chr "c")).
  { io_steps. apply sat_disable_raw_mode; [|intros; exact I].
    intros w' (r & _ & ->). io_steps.
    split; [reflexivity|split; [reflexivity|discriminate]]. }
  destruct (key =? CTRL_KEY (chr "d")).
  { destruct (num_chars l =? 0).
    - io_steps. apply sat_disable_raw_mode; [|intros; exact I].
      intros w' (r & _ & ->). io_steps.
      split; [reflexivity|split; [reflexivity|discriminate]].
    - exact Hself. }
  destruct (key =? KEY_BACKSPACE).
  { destruct (Z.eq_dec (cursor_pos l) 0) as [H0|H0].
    - rewrite backspace_at_start by exact H0. exact Hself.
    - destruct (blk_backspace_spec Hok H0) as (b1 & Hbs1 & _ & _ & Hok1).
      eapply sat_weaken; [apply (backspace_effect l w Hb H0)| |auto|auto].
      intros c w' (b' & Hbs' & Hh & -> & Hst & Hi & _).
      rewrite Hbs1 in Hbs'. injection Hbs' as <-.
      rewrite to_size_small, to_int_small
        by (unfold SIZE_MOD, INT_MAX in *; lia).
      split; [|reflexivity].
      apply tight_line with (l:=l) (w:=w) (b:=b) (b':=b1)
                            (n':=num_chars l - 1);
        auto using hist_steady.
      + exact (line_strlen Hok1).
      + lia. }
  destruct ((key =? KEY_ARROW_UP) || (key =? KEY_ARROW_DOWN))%bool eqn:Harrow.
  { destruct (at_boundary l key w) eqn:Hbd.
    - rewrite history_move_at_boundary by exact Hbd. exact Hself.
    - eapply sat_weaken; [apply (history_move_effect l key w Hbd)| |auto|auto].
      intros c w' (p' & n' & Hrec' & -> & Hi & Hh & Hst).
      split; [|reflexivity].
      unfold recall in Hrec'. rewrite Hv in Hrec'. cbn [obind] in Hrec'.
      destruct (Vector.get v (moved_index key w)) as [p|] eqn:Hp;
        cbn [obind] in Hrec'; [|discriminate].
      destruct (nth_error (heap w) p) as [b1|] eqn:Hb1;
        cbn [obind] in Hrec'; [|discriminate].
      destruct (blk_strlen b1) as [n|] eqn:Hn1;
        cbn [obind] in Hrec'; [|discriminate].
      destruct (blk_read b1 0 n); cbn [obind] in Hrec'; [|discriminate].
      injection Hrec' as <- <-.
      destruct Ht as [_ Ht].
      destruct (Ht p b1) as (n2 & Hn2 & Hlt); auto.
      { unfold hist. rewrite Hv. exact (proj1 (Vector_get_In _ _ Hp)). }
      assert (n2 = n) as -> by congruence.
      split; [exact Hlt|].
      rewrite (hist_steady Hst), Hh. exact Ht. }
  destruct ((key =? CTRL_KEY (chr "b")) || (key =? KEY_ARROW_LEFT))%bool.
  { eapply sat_weaken; [apply cursor_left_effect| |auto|intros []].
    intros c w' (-> & Hh & Hi & Hst & _).
    split; [|now destruct (cursor_pos l =? 0)].
    apply tight_frame with l w; auto using hist_steady;
      destruct (cursor_pos l =? 0); try reflexivity; apply Ht. }
  destruct ((key =? CTRL_KEY (chr "f")) || (key =? KEY_ARROW_RIGHT))%bool.
  { eapply sat_weaken; [apply cursor_right_effect| |auto|intros []].
    intros c w' (-> & Hh & Hi & Hst & _).
    split; [|now destruct (to_size (cursor_pos l) =? num_chars l)].
    apply tight_frame with l w; auto using hist_steady;
      destruct (to_size (cursor_pos l) =? num_chars l);
      try reflexivity; apply Ht. }
  exact Hself.
Qed.

(** a line copied with its terminator is a string of the same length *)
Lemma copy_line_strlen (b : block) (n : Z) (data dst dst' : list Z) :
  blk_strlen b = Some n ->
  blk_read b 0 (n + 1) = Some data ->
  blk_write dst 0 data = Some dst' ->
  blk_strlen dst' = Some n /\ zlen dst' = zlen dst.
Proof.
  intros Hs Hrd Hwr.
  pose proof (blk_strlen_sound b Hs) as (Hn & Hz & Hnz).
  pose proof (blk_read_spec _ _ _ Hrd) as (_ & _ & _ & Hld & Hgd).
  pose proof (blk_write_spec _ _ _ Hwr) as (_ & Hfit & Hl & Hg).
  split; [|exact Hl].
  assert (Hcopy : forall i, 0 <= i <= n -> zget dst' i = zget b i).
  { intros i Hi. rewrite Hg by lia. rewrite Hld.
    destruct (Z.leb_spec 0 i), (Z.ltb_spec i (0 + (n + 1))); try lia.
    cbn [andb]. rewrite Hgd by lia. f_equal. lia. }
  apply blk_strlen_complete.
  - lia.
  - rewrite Hcopy by lia. exact Hz.
  - intros i Hi. rewrite Hcopy by lia. now apply Hnz.
Qed.

(** what the code after [end_of_loop] leaves in the caller's array and in
    the entries, in a session with one buffer size *)
Lemma finish_heap_entries (buf : list Z) (l : locals) (w : world)
      (v : list ptr) (buf' : list Z) (h' : list block) :
  editor_inv l w -> tight l w -> history w = Some v ->
  buf_size l <= zlen buf ->
  finish_heap (heap w) v (history_index w) buf l = Some (buf', h') ->
  blk_strlen buf' = Some (num_chars l) /\ zlen buf' = zlen buf
  /\ forall p, In p v ->
       exists b n, nth_error h' p = Some b
                   /\ line_ok (buf_size l) b n n /\ n < buf_size l.
Proof.
  intros Hinv [Hn Ht] Hv Hroom Hfin.
  destruct (editor_inv_bounds Hinv) as (Hbs & Hc & _).
  pose proof Hinv as [_ (v' & Hv' & Hlen & Hmax & Hnd & Hget & Hent)
                        (b & Hb & Hok)].
  rewrite Hv in Hv'. injection Hv' as <-.
  destruct (Vector_get_In _ _ Hget) as [_ Hhi].
  destruct (line_ok_bounds Hok) as (_ & Hnb & _ & Hz & _).
  pose proof (line_strlen Hok) as Hs.
  assert (Hold : forall p, In p v ->
            exists b0 n0, nth_error (heap w) p = Some b0
                          /\ line_ok (buf_size l) b0 n0 n0
                          /\ n0 < buf_size l).
  { intros p Hp. destruct (Hent p Hp) as (b0 & Hb0 & n0 & Hok0).
    assert (Hin : In p (hist w)) by (unfold hist; now rewrite Hv).
    destruct (Ht p b0 Hin Hb0) as (n1 & Hn1 & Hlt).
    pose proof (line_strlen Hok0) as Hs0.
    assert (n1 = n0) as -> by congruence.
    exists b0, n0. auto. }
  revert Hfin. unfold finish_heap, num_chars_to_copy. rewrite Hb.
  cbn [obind].
  pose proof (@blk_store_same b (num_chars l) ltac:(lia)) as Hst0.
  rewrite Hz in Hst0. rewrite Hst0. cbn [obind].
  rewrite (replace_nth_same _ _ Hb).
  destruct (Z.ltb_spec (num_chars l) (buf_size l)); [|lia].
  rewrite Hlen. rewrite !to_size_small by (unfold SIZE_MOD, INT_MAX in *; lia).
  destruct (blk_read b 0 (num_chars l + 1)) as [data|] eqn:Hrd;
    cbn [obind]; [|discriminate].
  destruct (blk_write buf 0 data) as [buf1|] eqn:Hwr;
    cbn [obind]; [|discriminate].
  destruct (@copy_line_strlen _ _ _ _ _ Hs Hrd Hwr) as [Hs1 Hl1].
  destruct (Z.ltb_spec (history_index w) (Vector.length v - 1)) as [Hlt|Hge].
  - destruct (Vector.get v (Vector.length v - 1)) as [last|] eqn:Hgl;
      cbn [obind]; [|discriminate].
    destruct (nth_error (heap w) last) as [bl|] eqn:Hbl;
      cbn [obind]; [|discriminate].
    destruct (blk_write bl 0 data) as [bl'|] eqn:Hwl;
      cbn [obind]; [|discriminate].
    intros [= <- <-]. split; [exact Hs1|]. split; [exact Hl1|].
    assert (Hltl : (last < length (heap w))%nat)
      by (apply nth_error_Some; congruence).
    destruct (@copy_line_strlen _ _ _ _ _ Hs Hrd Hwl) as [Hsl Hll].
    intros p Hp. rewrite nth_error_replace_nth by exact Hltl.
    destruct (Nat.eqb_spec p last) as [->|Hne]; [|now apply Hold].
    destruct (Hold last Hp) as (b0 & n0 & Hb0 & Hok0 & _).
    assert (b0 = bl) as -> by congruence.
    exists bl', (num_chars l). split; [reflexivity|]. split; [|exact Hn].
    constructor; [exact Hsl|lia|]. rewrite Hll. exact (line_capacity Hok0).
  - intros [= <- <-]. split; [exact Hs1|]. split; [exact Hl1|exact Hold].
Qed.

(** the code after [end_of_loop], in a session with one buffer size *)
Lemma end_of_loop_session (buf : list Z) (l : locals) (w : world) :
  editor_inv l w -> tight l w -> buf_size l <= zlen buf ->
  match end_of_loop buf l w with
  | Done (res, buf') w' =>
      res = RL_SUCCESS /\ zlen buf' = zlen buf
      /\ blk_strlen buf' = Some (num_chars l)
      /\ session_ok (buf_size l) w'
      /\ hist w' = hist w
  | Exited _ _ => True
  | Blocked _ | Aborted _ | Undefined | OutOfFuel => False
  end.
Proof.
  intros Hinv Ht Hroom.
  pose proof Hinv as [_ (v & Hv & Hlen & Hmax & Hnd & Hget & Hent) _].
  destruct (end_of_loop_result buf Hinv Hv (proj1 Ht) Hroom)
    as (buf' & h' & Hfin & Hres).
  destruct (finish_heap_entries buf Hinv Ht Hv Hroom Hfin)
    as (Hs & Hl & Hentries).
  destruct (end_of_loop buf l w) as [[res b'] w'|s w'|w'|w'| |];
    try assumption; try exact I.
  destruct Hres as ([= -> ->] & Hh & Hhist & _).
  split; [reflexivity|]. split; [exact Hl|]. split; [exact Hs|].
  assert (Hhw : hist w' = v) by (unfold hist; now rewrite Hhist, Hv).
  split; [|unfold hist at 2; now rewrite Hv].
  split; [now rewrite Hhw|].
  rewrite Hhw, Hh. exact Hentries.
Qed.

Lemma session_of_inv (l : locals) (w w' : world) :
  editor_inv l w -> tight l w ->
  heap w' = heap w -> hist w' = hist w ->
  session_ok (buf_size l) w'.
Proof.
  intros [_ (v & Hv & _ & _ & Hnd & _ & Hent) _] [_ Ht] Hh Hhist.
  assert (Hv' : hist w = v) by (unfold hist; now rewrite Hv).
  split; [now rewrite Hhist, Hv'|].
  rewrite Hhist, Hh. intros p Hp.
  destruct (Hent p) as (b & Hb & n & Hok); [now rewrite <- Hv'|].
  destruct (Ht p b Hp Hb) as (n' & Hn' & Hlt).
  pose proof (line_strlen Hok) as Hs.
  assert (n' = n) as -> by congruence.
  exists b, n. auto.
Qed.

(** the loop and the code after it, in a session with one buffer size *)
Lemma run_editor_session (buf : list Z) (l : locals) (w : world) :
  editor_inv l w -> tight l w -> raw_mode_enabled w = true ->
  buf_size l <= zlen buf ->
  sat (run_editor buf l w)
      (fun a w' =>
         session_ok (buf_size l) w' /\ hist w' = hist w
         /\ zlen (snd a) = zlen buf
         /\ (fst a = RL_SUCCESS ->
             exists n, blk_strlen (snd a) = Some n /\ n < buf_size l)
         /\ (fst a <> RL_SUCCESS -> snd a = buf))
      (fun _ _ => True) False.
Proof.
  intros Hinv Ht Hraw Hroom. unfold run_editor.
  apply sat_bind. unfold get at 1. cbn [sat]. apply sat_bind.
  set (bs := buf_size l).
  eapply sat_weaken;
    [apply (@sat_edit_loop
              (fun l' w' => editor_inv l' w' /\ tight l' w'
                            /\ raw_mode_enabled w' = true
                            /\ buf_size l' = bs /\ hist w' = hist w)
              (fun r w' => session_ok bs w' /\ hist w' = hist w
                           /\ r <> RL_SUCCESS)
              (fun _ _ => True) False)| | |].
  - intros l1 w1 (_ & _ & H & _). exact H.
  - intros l1 w1 r (H1 & H2 & H3 & H4 & H5).
    split; [now apply editor_inv_take_input|].
    split; [exact H2|]. auto.
  - intros; exact I.
  - intros l1 w1 key (H1 & H2 & H3 & H4 & H5) Hg.
    pose proof (sat_and (handle_key_inv key H1 Hg)
                  (sat_and (handle_key_tight key H1 H2 Hg)
                           (handle_key_steady l1 key w1))) as Hs.
    eapply sat_weaken; [exact Hs| | |].
    + intros [l'|l'|r] w' (Ha & Hb & Hc).
      * destruct Hb as [Hb1 Hb2].
        split; [exact Ha|]. split; [exact Hb1|].
        split; [now rewrite (steady_raw Hc)|].
        split; [congruence|]. now rewrite (hist_steady Hc).
      * destruct Hb as [Hb1 Hb2].
        split; [exact Ha|]. split; [exact Hb1|].
        split; [now rewrite (steady_raw Hc)|].
        split; [congruence|]. now rewrite (hist_steady Hc).
      * destruct Hb as (Hb1 & Hb2 & Hb3).
        destruct Hc as (w2 & Hst & r2 & _ & ->).
        assert (Hhist : hist (set_term (original_state w2)
                                (set_tcset_faults r2 w2)) = hist w1)
          by (unfold hist; simpl_world; now rewrite (steady_history Hst)).
        split; [|split; [congruence|exact Hb3]].
        rewrite <- H4. now apply session_of_inv with w1.
    + auto.
    + tauto.
  - simpl. lia.
  - auto 10.
  - intros [l'|r] w1; cbn [sat ret].
    + intros (H1 & H2 & H3 & H4 & H5).
      pose proof (@end_of_loop_session buf l' w1 H1 H2 ltac:(lia)) as He.
      destruct (end_of_loop buf l' w1) as [[res b'] w'|s w'|w'|w'| |];
        cbn [sat]; try assumption; try exact I.
      destruct He as (-> & Hl & Hs & Hso & Hh). cbn [fst snd].
      rewrite H4 in Hso. split; [exact Hso|]. split; [congruence|].
      split; [exact Hl|]. split; [|congruence].
      intros _. exists (num_chars l'). split; [exact Hs|].
      rewrite <- H4. apply H2.
    + intros (H1 & H2 & H3). cbn [fst snd].
      split; [exact H1|]. split; [exact H2|]. split; [reflexivity|].
      split; [intros; contradiction|reflexivity].
  - auto.
  - auto.
Qed.

(** [enable_raw_mode] returns with the flag set, or ends the process *)
Lemma sat_enable_raw_mode (w : world) (Q : unit -> world -> Prop) (X : Prop) :
  (forall w', raw_mode_enabled w' = true -> heap w' = heap w ->
              history w' = history w ->
              history_index w' = history_index w ->
              input w' = input w -> Q tt w') ->
  sat (enable_raw_mode w) Q (fun _ _ => True) X.
Proof.
  intros HQ. unfold enable_raw_mode.
  apply sat_bind. apply sat_tcgetattr; intros r; cbn [sat].
  - io_steps. apply sat_tcsetattr; intros r2 Hr2; cbn [sat].
    + io_steps. apply HQ; reflexivity.
    + io_steps. exact I.
  - apply sat_die. intros; exact I.
Qed.

(** [get_cursor_position] stays inside [res] when the loop is left by
    [break] *)
Lemma sat_get_cursor_position (w : world) (Q : option (Z * Z) -> world -> Prop)
      (E : string -> world -> Prop) (X : Prop) :
  report_ends (input w) ->
  (forall pos w', raw_mode_enabled w' = raw_mode_enabled w ->
                  heap w' = heap w -> history w' = history w ->
                  history_index w' = history_index w -> Q pos w') ->
  sat (get_cursor_position w) Q E X.
Proof.
  unfold report_ends. intros Hbrk HQ. unfold get_cursor_position.
  apply sat_bind. apply sat_sys_write; intros r Hr; cbn [sat negb].
  - apply sat_bind. unfold get at 1. cbn [sat]. simpl_world.
    destruct (read_response 16 (input w)) as [[res brk] rest].
    cbn [fst snd] in Hbrk. subst brk.
    io_steps.
    destruct res as [|c0 [|c1 s]];
      try (cbn [ret sat]; apply HQ; reflexivity).
    destruct (negb (c0 =? 27) || negb (c1 =? chr "["))%bool;
      cbn [ret sat]; apply HQ; reflexivity.
  - cbn [ret sat]. apply HQ; reflexivity.
Qed.

Lemma Vector_get_last (h : list ptr) (p : ptr) :
  Vector.get (h ++ [p]) (zlen h) = Some p.
Proof.
  unfold Vector.get, zlen. rewrite length_app. cbn [length].
  destruct (Z.leb_spec 0 (Z.of_nat (length h))); [|lia].
  destruct (Z.ltb_spec (Z.of_nat (length h)) (Z.of_nat (length h + 1)));
    [|lia].
  cbn [andb]. rewrite Nat2Z.id. apply nth_error_last.
Qed.

(** the new entry once its first byte has been cleared *)
Lemma fresh_line_ok (bs : Z) (buf : list Z) (b' : block) :
  0 < bs <= INT_MAX -> bs <= zlen buf ->
  blk_store (firstn (Z.to_nat bs) buf) 0 0 = Some b' ->
  line_ok bs b' 0 0.
Proof.
  intros Hbs Hroom Hst.
  apply blk_store_spec in Hst as (H0 & Hl & Hg).
  assert (Hlen : zlen (firstn (Z.to_nat bs) buf) = bs).
  { unfold zlen in *. rewrite length_firstn. lia. }
  constructor.
  - apply blk_strlen_complete; [lia| |intros i Hi; lia].
    rewrite Hg by lia. reflexivity.
  - lia.
  - lia.
Qed.

(** the state in which the loop is entered: the new entry, empty, is the
    line *)
Lemma fresh_entry_inv (bs : Z) (w w4 : world) (b1 : block) (cy0 cx0 : Z) :
  0 < bs <= INT_MAX ->
  session_ok bs w -> Vector.length (hist w) + 1 < SIZE_MOD ->
  line_ok bs b1 0 0 ->
  heap w4 = heap w ++ [b1] ->
  history w4 = Some (hist w ++ [length (heap w)]) ->
  history_index w4 = zlen (hist w) ->
  let l := mk_locals bs (zlen (hist w) + 1) cy0 cx0 (length (heap w)) 0 0 in
  editor_inv l w4 /\ tight l w4 /\ line_text w4 l = Some [].
Proof.
  intros Hbs [Hnd Hent] Hmax Hok1 Hh4 Hv4 Hidx4 l.
  set (p := length (heap w)) in *.
  set (v := hist w ++ [p]) in *.
  assert (Hlenv : zlen v = zlen (hist w) + 1).
  { unfold zlen, v. rewrite length_app. cbn [length]. lia. }
  pose proof (zlen_nonneg (hist w)) as Hnn. unfold Vector.length in *.
  assert (Hold : forall q, In q (hist w) ->
            exists b n, nth_error (heap w4) q = Some b
                        /\ line_ok bs b n n /\ n < bs).
  { intros q Hq. destruct (Hent q Hq) as (b & n & Hb & Hok & Hn).
    exists b, n. split; [|auto]. rewrite Hh4.
    rewrite nth_error_app1; [exact Hb|]. apply nth_error_Some. congruence. }
  assert (Hnew : nth_error (heap w4) p = Some b1)
    by (rewrite Hh4; apply nth_error_last).
  assert (Hfresh : ~ In p (hist w)).
  { intros Hq. destruct (Hent p Hq) as (b & n & Hb & _).
    assert (p < length (heap w))%nat by (apply nth_error_Some; congruence).
    unfold p in *. lia. }
  split; [|split].
  - constructor.
    + cbn. lia.
    + exists v. unfold l. simpl_world. rewrite Hidx4. unfold Vector.length.
      split; [exact Hv4|]. split; [lia|]. split; [lia|].
      split; [|split; [apply Vector_get_last|]].
      * unfold v. apply NoDup_app; [exact Hnd| |].
        -- constructor; [intros []|constructor].
        -- intros q Hq [<-|[]]. contradiction.
      * intros q Hq. unfold v in Hq. apply in_app_or in Hq as [Hq|[<-|[]]].
        -- destruct (Hold q Hq) as (b & n & Hb & Hok & _).
           exists b. split; [exact Hb|]. now exists n.
        -- exists b1. split; [exact Hnew|]. now exists 0.
    + exists b1. unfold l. simpl_world. auto.
  - split; [cbn; lia|]. unfold l. simpl_world.
    assert (Hhw : hist w4 = v) by (unfold hist; now rewrite Hv4).
    rewrite Hhw. intros q b Hq Hb. unfold v in Hq.
    apply in_app_or in Hq as [Hq|[<-|[]]].
    + destruct (Hold q Hq) as (b' & n & Hb' & Hok & Hn).
      assert (b' = b) as -> by congruence.
      exists n. split; [exact (line_strlen Hok)|exact Hn].
    + assert (b = b1) as -> by congruence.
      exists 0. split; [exact (line_strlen Hok1)|lia].
  - unfold line_text, l. simpl_world. fold p. rewrite Hnew.
    cbn [option_map]. f_equal.
    pose proof (line_strlen Hok1) as Hs.
    rewrite (c_string_firstn b1 Hs). reflexivity.
Qed.

(** one call in a session with one buffer size *)
Lemma rl_read_line_session (buf : list Z) (bs : Z)
      (prompt : option (list Z)) (w : world) :
  0 < bs <= INT_MAX -> bs <= zlen buf ->
  session_ok bs w -> Vector.length (hist w) + 1 < SIZE_MOD ->
  report_ends (input w) ->
  sat (rl_read_line buf bs prompt w)
      (fun a w' =>
         session_ok bs w' /\ hist w' = hist w ++ [length (heap w)]
         /\ zlen (snd a) = zlen buf
         /\ (fst a = RL_SUCCESS ->
             exists n, blk_strlen (snd a) = Some n /\ n < bs)
         /\ (fst a <> RL_SUCCESS -> snd a = buf))
      (fun _ _ => True) False.
Proof.
  intros Hbs Hroom Hso Hmax Hrep.
  unfold rl_read_line.
  apply sat_bind.
  apply sat_assert; [intros _|intros H; apply Z.ltb_ge in H; lia].
  cbv beta. apply sat_bind.
  apply (@sat_weaken _ _ (fun _ w1 => heap w1 = heap w
                                     /\ history w1 = history w
                                     /\ input w1 = input w)
           _ (fun _ _ => True) _ False False).
  { destruct prompt; io_steps; auto. }
  2, 3: auto.
  intros _ w1 (Hh1 & Hv1 & Hi1). cbv beta.
  assert (Hhist1 : hist w1 = hist w) by (unfold hist; now rewrite Hv1).
  apply sat_bind.
  destruct (@add_to_history_done buf bs w1 ltac:(lia))
    as (ok & w2 & Hrun & _ & Htrue & _ & _ & Hi2 & _ & Hidx2).
  rewrite Hrun. cbn [sat].
  apply sat_bind. apply sat_or_die; [intros ->|intros; exact I].
  destruct (Htrue eq_refl) as [Hh2 Hv2].
  rewrite Hh1, Hhist1 in *.
  set (p := length (heap w)) in *.
  set (v := hist w ++ [p]) in *.
  set (b0 := firstn (Z.to_nat bs) buf) in *.
  assert (Hlenv : Vector.length v = Vector.length (hist w) + 1).
  { unfold Vector.length, zlen, v. rewrite length_app. cbn [length]. lia. }
  pose proof (zlen_nonneg (hist w)) as Hnn. unfold Vector.length in *.
  apply sat_bind. apply sat_history_length; [intros v' Hv'|congruence].
  rewrite Hv2 in Hv'. injection Hv' as <-.
  unfold Vector.length. rewrite Hlenv.
  replace (zlen (hist w) + 1 - 1) with (zlen (hist w)) by lia.
  rewrite to_size_small by lia.
  io_steps.
  apply sat_history_get; [intros v' p' Hv' Hp'|].
  2: { simpl_world. rewrite Hv2. intros [H|(v' & [= <-] & H)];
         [discriminate|]. unfold v in H. rewrite Vector_get_last in H.
       discriminate. }
  cbn [history history_index set_history_index] in Hv', Hp'.
  rewrite Hv2 in Hv'. injection Hv' as <-.
  unfold v in Hp'. rewrite Vector_get_last in Hp'. injection Hp' as <-.
  assert (Hb0 : nth_error (heap w2) p = Some b0)
    by (rewrite Hh2; apply nth_error_last).
  io_steps. eapply sat_store_at; [simpl_world; exact Hb0| |].
  2: { apply blk_store_ok. unfold b0, zlen in *. rewrite length_firstn. lia. }
  intros b1 Hst. simpl_world.
  pose proof (fresh_line_ok buf Hbs Hroom Hst) as Hok1.
  io_steps. apply sat_enable_raw_mode.
  intros w3. simpl_world. intros Hraw3 Hh3 Hv3 Hidx3 Hi3.
  io_steps. apply sat_get_cursor_position.
  { rewrite Hi3, Hi2, Hi1. exact Hrep. }
  intros pos w4 Hraw4 Hh4 Hv4 Hidx4.
  rewrite Hraw3 in Hraw4. rewrite Hh3 in Hh4. rewrite Hv3 in Hv4.
  rewrite Hidx3 in Hidx4. rewrite Hh2 in Hh4. rewrite Hv2 in Hv4.
  unfold p in Hh4. rewrite replace_nth_last in Hh4.
  destruct pos as [[cy0 cx0]|]; [|apply sat_die; intros; exact I].
  destruct (@fresh_entry_inv bs w w4 b1 cy0 cx0 Hbs Hso Hmax Hok1 Hh4 Hv4
              Hidx4) as (Hinv & Ht & _).
  eapply sat_weaken;
    [apply (run_editor_session buf Hinv Ht Hraw4); cbn; lia| |auto|auto].
  intros a w' (H1 & H2 & H3 & H4 & H5). cbn in H1, H4.
  split; [exact H1|]. split; [|auto].
  rewrite H2. unfold hist. now rewrite Hv4.
Qed.

(* ------------------------------------------------------------------ *)
(** ** Further properties: recalling a line *)

(** a turn of the loop body that ends while no write has failed leaves a
    script in which no write fails *)
Lemma handle_key_no_fault (l : locals) (key : Z) (w : world) :
  sat (handle_key l key w)
      (fun _ w' => no_fault (write_faults w) -> no_fault (write_faults w'))
      (fun _ _ => True) True.
Proof.
  unfold handle_key, insert_char, backspace, history_move, cursor_left,
    cursor_right.
  repeat sat_step; try exact I;
    repeat match goal with
           | H : returns_from _ _ |- _ => destruct H as (? & _ & ->)
           end;
    simpl_world; intros Hnf;
    repeat match goal with
           | Hn : no_fault ?f, H : next_fault ?f = (_, _) |- _ =>
               let Hb := fresh in
               destruct (no_fault_next Hn H) as [Hb ?]; clear H
           end;
    assumption.
Qed.

(** Arrow-Up in a state of the edit loop, away from the first entry: the
    entry before the current one becomes the line, with the cursor at its
    end *)
Lemma handle_key_up (l : locals) (w : world) (v : list ptr) :
  editor_inv l w -> num_chars l < to_size (buf_size l - 1) ->
  history w = Some v -> history_index w <> 0 ->
  no_fault (write_faults w) ->
  exists p b n w',
    Vector.get v (history_index w - 1) = Some p
    /\ nth_error (heap w) p = Some b
    /\ line_ok (buf_size l) b n n
    /\ handle_key l KEY_ARROW_UP w
       = Done (Continue (set_num_chars n
                           (set_cursor_pos n (set_current_buf p l)))) w'
    /\ editor_inv (set_num_chars n (set_cursor_pos n (set_current_buf p l))) w'
    /\ heap w' = heap w /\ history_index w' = history_index w - 1
    /\ steady w w' /\ no_fault (write_faults w').
Proof.
  intros Hinv Hg Hv Hhi Hnf.
  pose proof Hinv as [_ (v' & Hv' & Hlen & Hmax & Hnd & Hget & Hent) _].
  rewrite Hv in Hv'. injection Hv' as <-.
  destruct (Vector_get_In _ _ Hget) as [_ Hrange].
  assert (Hbd : at_boundary l KEY_ARROW_UP w = false).
  { unfold at_boundary.
    destruct (Z.eqb_spec (history_index w) 0); [contradiction|].
    reflexivity. }
  assert (Hmoved : moved_index KEY_ARROW_UP w = history_index w - 1).
  { unfold moved_index. change (KEY_ARROW_UP =? KEY_ARROW_UP) with true.
    cbv iota. rewrite to_size_small by lia. lia. }
  destruct (@recall_defined l w (history_index w - 1) v Hv ltac:(lia) Hent)
    as (p & b & n & Hrec & Hp & Hb & Hok).
  destruct (line_ok_bounds Hok) as (_ & _ & Hcap & _).
  pose proof (history_move_effect l KEY_ARROW_UP w Hbd) as Hsat.
  pose proof (handle_key_inv KEY_ARROW_UP Hinv Hg) as Hi.
  pose proof (handle_key_no_fault l KEY_ARROW_UP w) as Hw.
  pose proof (@nb_handle_key l KEY_ARROW_UP w) as Hnb.
  rewrite (@handle_key_arrow l KEY_ARROW_UP (or_introl eq_refl)) in *.
  rewrite Hmoved in Hsat.
  exists p, b, n.
  destruct (history_move l KEY_ARROW_UP w) as [c w'|m w'|w'|w'| |];
    cbn [sat] in *.
  - destruct Hsat as (p' & n' & Hrec' & -> & Hidx & Hh & Hst).
    rewrite Hrec in Hrec'. injection Hrec' as <- <-.
    pose proof (line_capacity Hok) as Hc.
    assert (Hto : to_int n = n).
    { apply to_int_small. destruct (line_ok_bounds Hok) as (? & ? & ? & _).
      unfold INT_MAX in *. lia. }
    rewrite Hto in *.
    exists w'. auto 10.
  - exfalso. now apply Hsat.
  - exfalso. exact (Hnb w' eq_refl).
  - contradiction.
  - contradiction.
  - contradiction.
Qed.

(* ------------------------------------------------------------------ *)
(** ** Further properties: a line typed and submitted *)

(** the code after [end_of_loop] writes nothing to the terminal *)
Lemma end_of_loop_output (buf : list Z) (l : locals) (w : world) :
  sat (end_of_loop buf l w)
      (fun _ w' => output w' = output w /\ write_faults w' = write_faults w)
      (fun _ _ => True) True.
Proof.
  unfold end_of_loop.
  repeat (sat_step ||
          lazymatch goal with
          | |- sat (match ?x with Some _ => _ | None => _ end _) _ _ _ =>
              destruct x
          end);
    try exact I;
    repeat match goal with
           | H : returns_from _ _ |- _ => destruct H as (? & _ & ->)
           end;
    split; reflexivity.
Qed.

Lemma next_key_printable (k : Z) (r : list read_event) :
  isprint k = true -> next_key (RByte k :: r) = Some (k, r).
Proof.
  unfold isprint. intros H. apply andb_prop in H as [H1 H2].
  apply Z.leb_le in H1, H2.
  unfold next_key. cbn [wait_byte]. rewrite schar_small by lia.
  destruct (Z.eqb_spec k KEY_ESC) as [He|_];
    [unfold KEY_ESC in He; lia|reflexivity].
Qed.

Lemma line_text_length (l : locals) (w : world) (t : list Z) :
  editor_inv l w -> line_text w l = Some t -> zlen t = num_chars l.
Proof.
  intros [_ _ (b & Hb & Hok)]. unfold line_text. rewrite Hb.
  intros [= <-]. apply c_string_length. exact (line_strlen Hok).
Qed.

(** printable keys typed at the end of the line, then Enter *)
Lemma edit_loop_typing (s : list Z) :
  forall fuel l w t rest,
    editor_inv l w -> raw_mode_enabled w = true ->
    no_fault (write_faults w) ->
    cursor_pos l = num_chars l -> line_text w l = Some t ->
    Forall (fun k => isprint k = true) s ->
    num_chars l + zlen s < buf_size l - 1 ->
    input w = keys s ++ RByte KEY_ENTER :: rest ->
    (length (input w) < fuel)%nat ->
    exists l' w',
      edit_loop fuel l w = Done (EndOfLoop l') w'
      /\ editor_inv l' w' /\ line_text w' l' = Some (t ++ s)
      /\ num_chars l' = num_chars l + zlen s
      /\ buf_size l' = buf_size l
      /\ input w' = rest
      /\ output w' = output w ++ s ++ [13; 10]
      /\ calm w w' /\ history_index w' = history_index w
      /\ current_buf l' = current_buf l
      /\ no_fault (write_faults w')
      /\ (tight l w -> tight l' w').
Proof.
  induction s as [|k s IH]; intros fuel l w t rest Hinv Hraw Hnf Hcur Ht Hs
                                   Hfit Hin Hfuel;
    (destruct fuel as [|fuel]; [lia|]);
    destruct (editor_inv_bounds Hinv) as (Hbs & Hc & Hn);
    assert (Hg : num_chars l < to_size (buf_size l - 1))
      by (rewrite to_size_small by (unfold SIZE_MOD, INT_MAX in *; lia);
          unfold zlen in *; cbn [length] in *; lia).
  - cbn [keys map app] in Hin.
    assert (Hk : next_key (input w) = Some (KEY_ENTER, rest))
      by (rewrite Hin; reflexivity).
    rewrite (@edit_loop_key fuel l w KEY_ENTER rest Hg Hraw Hk).
    destruct (next_fault (write_faults w)) as [b f] eqn:Hf.
    destruct (no_fault_next Hnf Hf) as [-> Hnf'].
    unfold handle_key. change (isprint KEY_ENTER) with false.
    change (KEY_ENTER =? KEY_ENTER) with true. cbv iota.
    unfold bind, sys_write. cbn [write_faults set_input take_input set_errno]. rewrite Hf.
    cbn [or_die ret after_key].
    do 2 eexists. split; [reflexivity|]. simpl_world.
    split; [now apply editor_inv_echo, editor_inv_take_input|].
    split; [now rewrite app_nil_r|].
    split; [unfold zlen; cbn [length]; lia|].
    split; [reflexivity|]. split; [reflexivity|]. split; [reflexivity|].
    split; [steady_tac|]. split; [reflexivity|]. split; [reflexivity|].
    split; [exact Hnf'|]. intros Htt. exact Htt.
  - cbn [keys map app] in Hin. fold (keys s) in Hin.
    inversion Hs as [|? ? Hk Hs']; subst.
    pose proof (zlen_nonneg s) as Hs0.
    set (r := keys s ++ RByte KEY_ENTER :: rest) in *.
    assert (Hnk : next_key (input w) = Some (k, r))
      by (rewrite Hin; now apply next_key_printable).
    rewrite (@edit_loop_key fuel l w k r Hg Hraw Hnk).
    pose proof (@handle_key_insert l k (take_input r w) t
                  (editor_inv_take_input r Hinv) Hg Hk Ht) as Hstep.
    pose proof (fun Htt : tight l (take_input r w) =>
                  handle_key_tight k (editor_inv_take_input r Hinv) Htt Hg)
      as Htg.
    cbv zeta in Hstep. unfold bind.
    destruct (handle_key l k (take_input r w)) as [c w1|m w1|w1|w1| |];
      try contradiction.
    destruct Hstep as (-> & Ht1 & Hinv1 & Hst1 & Hi1 & _ & Hout).
    destruct (Hout Hnf) as [Hnf1 Ho1].
    cbn [output write_faults set_input take_input set_errno] in Ho1, Hnf1.
    cbn [after_key sat] in *.
    set (l1 := set_num_chars (num_chars l + 1)
                 (set_cursor_pos (cursor_pos l + 1) l)) in *.
    pose proof (line_text_length Hinv Ht) as Hlt.
    assert (Ht1' : line_text w1 l1 = Some (t ++ [k])).
    { rewrite Ht1. f_equal. rewrite Hcur, <- Hlt. unfold zlen.
      rewrite Nat2Z.id, firstn_all, skipn_all. reflexivity. }
    assert (Hlen1 : zlen (k :: s) = zlen s + 1) by apply zlen_cons.
    destruct (IH fuel l1 w1 (t ++ [k]) rest Hinv1) as
      (l' & w' & Hrun & Hinv' & Ht' & Hn' & Hb' & Hi' & Ho' & Hc' & Hx'
       & Hcb' & Hnf' & Htt');
      try assumption.
    + rewrite <- Hraw. exact (steady_raw Hst1).
    + subst l1. simpl_world. lia.
    + subst l1. simpl_world. lia.
    + rewrite (steady_input Hst1). reflexivity.
    + rewrite (steady_input Hst1). simpl_world.
      rewrite Hin in Hfuel. cbn [length] in Hfuel. lia.
    + exists l', w'. split; [exact Hrun|]. split; [exact Hinv'|].
      split; [now rewrite Ht', <- app_assoc|].
      split; [rewrite Hn'; subst l1; simpl_world; lia|].
      split; [exact Hb'|]. split; [exact Hi'|].
      split.
      { rewrite Ho', Ho1.
        destruct (Z.ltb_spec (cursor_pos l) (num_chars l)); [lia|].
        rewrite <- app_assoc. reflexivity. }
      split.
      { destruct Hc' as [? ? ? ? ? ? ? ?]. destruct Hst1 as [? ? ? ? ? ? ? ?].
        constructor; simpl in *; congruence. }
      split; [rewrite Hx', Hi1; reflexivity|].
      split; [exact Hcb'|]. split; [exact Hnf'|].
      intros Htt. apply Htt'. exact (proj1 (Htg Htt)).
Qed.

(** the block of the line after the code after [end_of_loop] *)
Lemma end_of_loop_line (buf : list Z) (l : locals) (w : world) :
  editor_inv l w -> num_chars l < buf_size l -> buf_size l <= zlen buf ->
  no_fault (tcset_faults w) ->
  exists buf' w',
    end_of_loop buf l w = Done (RL_SUCCESS, buf') w'
    /\ Some (c_string buf') = line_text w l /\ zlen buf' = zlen buf
    /\ line_text w' l = line_text w l
    /\ history w' = history w /\ history_index w' = history_index w
    /\ input w' = input w /\ output w' = output w
    /\ term w' = original_state w
    /\ write_faults w' = write_faults w
    /\ tcget_faults w' = tcget_faults w
    /\ malloc_faults w' = malloc_faults w
    /\ no_fault (tcset_faults w')
    /\ (tight l w -> session_ok (buf_size l) w')
    /\ (forall v last,
          history w = Some v ->
          Vector.get v (Vector.length v - 1) = Some last ->
          option_map c_string (nth_error (heap w') last) = line_text w l).
Proof.
  intros Hinv Hn Hroom Hts.
  pose proof Hinv as [_ (v & Hv & Hlen & Hmax & Hnd & Hget & Hent) _].
  destruct (finish_heap_spec buf Hinv Hv Hn Hroom)
    as (buf' & h' & last & Hfin & Hl & Hcs & Hlast & Hlt & Hframe & Heq & Hne).
  destruct (end_of_loop_result buf Hinv Hv Hn Hroom)
    as (buf'' & h'' & Hfin' & Hres).
  rewrite Hfin in Hfin'. injection Hfin' as <- <-.
  pose proof (end_of_loop_output buf l w) as Hout.
  pose proof (end_of_loop_steady buf l w) as Hst.
  pose proof (fun Htt : tight l w =>
                @end_of_loop_session buf l w Hinv Htt Hroom) as Hso.
  destruct (end_of_loop buf l w) as [[res b'] w'|m w'|w'|w'| |];
    cbn [sat] in Hout, Hst; try contradiction.
  destruct Hres as ([= -> ->] & Hh & Hhist & Hidx & Hi & Hte).
  destruct Hst as (_ & w2 & Hst2 & r2 & Hr2 & Hw').
  exists buf', w'. split; [reflexivity|]. split; [exact Hcs|].
  split; [exact Hl|]. split.
  { unfold line_text in *. rewrite Hh.
    destruct (Z.eq_dec (history_index w) (Vector.length v - 1)) as [He|He].
    - destruct (Heq He) as [_ ->]. reflexivity.
    - rewrite Hframe; [reflexivity|]. intros Hc. now apply (Hne He). }
  split; [exact Hhist|]. split; [exact Hidx|]. split; [exact Hi|].
  split; [exact (proj1 Hout)|]. split; [exact Hte|].
  split; [exact (proj2 Hout)|].
  rewrite (steady_tcset Hst2) in Hr2.
  destruct (no_fault_next Hts Hr2) as [_ Hts'].
  split; [|split; [|split; [|split]]].
  - subst w'. simpl_world. exact (steady_tcget Hst2).
  - subst w'. simpl_world. exact (steady_malloc Hst2).
  - subst w'. simpl_world. exact Hts'.
  - intros Htt. specialize (Hso Htt). cbn in Hso. apply Hso.
  - intros v1 last1 Hv1 Hl1. rewrite Hv in Hv1. injection Hv1 as <-.
    rewrite Hlast in Hl1. injection Hl1 as <-. rewrite Hh. exact Hlt.
Qed.

(** the loop with fuel [fuel] and what follows it *)
Definition loop_then_end (buf : list Z) (fuel : nat) (l : locals)
  : M (ReadLineResult * list Z) :=
  e <- edit_loop fuel l ;;
  match e with
  | EndOfLoop l' => end_of_loop buf l'
  | Returned r => ret (r, buf)
  end.

Lemma run_editor_loop (buf : list Z) (l : locals) (w : world) :
  run_editor buf l w = loop_then_end buf (S (length (input w))) l w.
Proof. reflexivity. Qed.

(** one key after which the loop goes on *)
Lemma loop_then_end_key (buf : list Z) (fuel : nat) (l l1 : locals)
      (w w1 : world) (k : Z) (r : list read_event) :
  num_chars l < to_size (buf_size l - 1) ->
  raw_mode_enabled w = true ->
  next_key (input w) = Some (k, r) ->
  handle_key l k (take_input r w) = Done (Continue l1) w1 ->
  loop_then_end buf (S fuel) l w = loop_then_end buf fuel l1 w1.
Proof.
  intros Hg Hraw Hk Hh. unfold loop_then_end.
  unfold bind at 1. rewrite (@edit_loop_key fuel l w k r Hg Hraw Hk).
  unfold bind at 1. rewrite Hh. reflexivity.
Qed.

(** printable keys typed at the end of the line, then Enter: the call
    returns the line *)
Lemma loop_then_end_typing (buf : list Z) (fuel : nat) (l : locals)
      (w : world) (s t : list Z) (rest : list read_event) :
  editor_inv l w -> raw_mode_enabled w = true ->
  no_fault (write_faults w) -> no_fault (tcset_faults w) ->
  cursor_pos l = num_chars l -> line_text w l = Some t ->
  Forall (fun k => isprint k = true) s ->
  num_chars l + zlen s < buf_size l - 1 ->
  buf_size l <= zlen buf ->
  input w = keys s ++ RByte KEY_ENTER :: rest ->
  (length (input w) < fuel)%nat ->
  exists buf' w',
    loop_then_end buf fuel l w = Done (RL_SUCCESS, buf') w'
    /\ c_string buf' = t ++ s /\ zlen buf' = zlen buf
    /\ line_text w' l = Some (t ++ s)
    /\ input w' = rest
    /\ output w' = output w ++ s ++ [13; 10]
    /\ term w' = original_state w
    /\ history w' = history w /\ history_index w' = history_index w
    /\ no_fault (write_faults w') /\ no_fault (tcset_faults w')
    /\ tcget_faults w' = tcget_faults w
    /\ malloc_faults w' = malloc_faults w
    /\ (tight l w -> session_ok (buf_size l) w')
    /\ (forall v last,
          history w = Some v ->
          Vector.get v (Vector.length v - 1) = Some last ->
          option_map c_string (nth_error (heap w') last) = Some (t ++ s)).
Proof.
  intros Hinv Hraw Hnf Hnt Hcur Ht Hs Hfit Hroom Hin Hfuel.
  destruct (@edit_loop_typing s fuel l w t rest
              Hinv Hraw Hnf Hcur Ht Hs Hfit Hin Hfuel)
    as (l' & w1 & Hrun & Hinv1 & Ht1 & Hn1 & Hb1 & Hi1 & Ho1 & Hc1 & Hx1
        & Hcb1 & Hnf1 & Htt1).
  unfold loop_then_end, bind. rewrite Hrun.
  pose proof (zlen_nonneg s) as Hs0.
  pose proof (steady_history Hc1) as Hh1. cbn [history set_input take_input set_errno] in Hh1.
  pose proof (steady_tcget Hc1) as Hg1. cbn [tcget_faults set_input take_input set_errno] in Hg1.
  pose proof (steady_malloc Hc1) as Hm1.
  cbn [malloc_faults set_input take_input set_errno] in Hm1.
  apply calm_tstate in Hc1 as [Hterm Hf Ho Hr].
  destruct (@end_of_loop_line buf l' w1 Hinv1 ltac:(lia) ltac:(lia)
              ltac:(now rewrite Hf))
    as (buf' & w' & Hend & Hcs & Hl & Hlt & Hh & Hidx & Hi & Hout & Hte
        & Hwf & Htg & Hmf & Hts & Hso & Hlast).
  exists buf', w'. split; [exact Hend|].
  split; [rewrite Ht1 in Hcs; now injection Hcs|].
  split; [exact Hl|].
  split.
  { unfold line_text in *. rewrite <- Hcb1. now rewrite Hlt. }
  split; [congruence|]. split; [congruence|]. split; [congruence|].
  split; [congruence|]. split; [congruence|].
  split; [now rewrite Hwf|]. split; [exact Hts|].
  split; [congruence|]. split; [congruence|].
  split; [intros Htt; rewrite <- Hb1; apply Hso; now apply Htt1|].
  intros v last Hv Hget. rewrite (Hlast v last) by congruence.
  exact Ht1.
Qed.

(** X17 ([rl_read_line], the loop and the code after it): from a state of
    the edit loop with the cursor at the end of the line, typing printable
    bytes that fit and then Enter returns RL_SUCCESS with the line followed
    by the bytes typed, as a string, in the caller's array; the entry that
    was the line holds the same string.  The terminal has received exactly
    the bytes typed and CR LF, the saved attributes are in force again, and
    the answers after the Enter are left for later reads.  This holds when
    no write and no [tcsetattr] fails; none is then left to fail in the
    scripts, and in a session with one buffer size the entries are again as
    such a session leaves them.  The last entry of the history holds the
    returned string as well. *)
Theorem typed_line_is_returned (buf : list Z) (l : locals) (w : world)
        (s t : list Z) (rest : list read_event) :
  editor_inv l w -> raw_mode_enabled w = true ->
  no_fault (write_faults w) -> no_fault (tcset_faults w) ->
  cursor_pos l = num_chars l -> line_text w l = Some t ->
  Forall (fun k => isprint k = true) s ->
  num_chars l + zlen s < buf_size l - 1 ->
  buf_size l <= zlen buf ->
  input w = keys s ++ RByte KEY_ENTER :: rest ->
  exists buf' w',
    run_editor buf l w = Done (RL_SUCCESS, buf') w'
    /\ c_string buf' = t ++ s /\ zlen buf' = zlen buf
    /\ line_text w' l = Some (t ++ s)
    /\ input w' = rest
    /\ output w' = output w ++ s ++ [13; 10]
    /\ term w' = original_state w
    /\ history w' = history w /\ history_index w' = history_index w
    /\ no_fault (write_faults w') /\ no_fault (tcset_faults w')
    /\ tcget_faults w' = tcget_faults w
    /\ malloc_faults w' = malloc_faults w
    /\ (tight l w -> session_ok (buf_size l) w')
    /\ (forall v last,
          history w = Some v ->
          Vector.get v (Vector.length v - 1) = Some last ->
          option_map c_string (nth_error (heap w') last) = Some (t ++ s)).
Proof.
  intros Hinv Hraw Hnf Hnt Hcur Ht Hs Hfit Hroom Hin.
  rewrite run_editor_loop.
  apply loop_then_end_typing; auto.
Qed.

Lemma typed_line_is_returned_witness :
  (* "abc" recalled, then "de" and Enter *)
  exists buf' w',
    run_editor (repeat 9 8) sample_recalled_locals
      (set_input (keys (bytes "de" ++ [KEY_ENTER])) sample_recalled_world)
    = Done (RL_SUCCESS, buf') w'
    /\ c_string buf' = bytes "abcde".
Proof.
  destruct (@typed_line_is_returned (repeat 9 8) sample_recalled_locals
              (set_input (keys (bytes "de" ++ [KEY_ENTER]))
                 sample_recalled_world)
              (bytes "de") (bytes "abc") []
              (editor_inv_input _ sample_recalled_inv) eq_refl
              (Forall_nil _) (Forall_nil _) eq_refl eq_refl
              ltac:(repeat constructor) ltac:(cbv; reflexivity)
              ltac:(cbv; discriminate) eq_refl)
    as (buf' & w' & Hrun & Hcs & _).
  exists buf', w'. split; [exact Hrun|exact Hcs].
Defined.

(* ------------------------------------------------------------------ *)
(** ** Further properties: one call, from the prompt to the result *)

Lemma bind_done {A B} (m : M A) (f : A -> M B) (w w' : world) (a : A) :
  m w = Done a w' -> bind m f w = f a w'.
Proof. intros H. unfold bind. now rewrite H. Qed.

Lemma next_fault_no_fault (l : list bool) :
  no_fault l -> next_fault l = (false, tl l) /\ no_fault (tl l).
Proof.
  intros H. destruct l as [|b l]; [split; [reflexivity|exact H]|].
  inversion H; subst. split; [reflexivity|assumption].
Qed.

(** the bytes of a prompt *)
Definition prompt_bytes (prompt : option (list Z)) : list Z :=
  match prompt with Some p => p | None => [] end.

(** the report of the cursor position (row, col) *)
Definition report (row col : Z) : list read_event :=
  keys (27 :: bytes "[" ++ decimal row ++ bytes ";" ++ decimal col)
  ++ [RByte (chr "R")].

(** the call up to the loop, when nothing fails and the terminal reports
    its cursor position: the loop is entered with the new entry, empty, as
    the line *)
Lemma rl_read_line_enters (buf : list Z) (bs : Z) (prompt : option (list Z))
      (w : world) (cy0 cx0 : Z) (inp : list read_event) :
  0 < bs <= INT_MAX -> bs <= zlen buf ->
  Vector.length (hist w) + 1 < SIZE_MOD ->
  no_fault (write_faults w) -> no_fault (tcget_faults w) ->
  no_fault (tcset_faults w) -> no_fault (malloc_faults w) ->
  0 <= cy0 < 65536 -> 0 <= cx0 < 65536 ->
  input w = report cy0 cx0 ++ inp ->
  exists fw fg fs fm b1,
    no_fault fw /\ no_fault fg /\ no_fault fs /\ no_fault fm
    /\ blk_store (firstn (Z.to_nat bs) buf) 0 0 = Some b1
    /\ rl_read_line buf bs prompt w
       = run_editor buf
           (mk_locals bs (zlen (hist w) + 1) cy0 cx0 (length (heap w)) 0 0)
           (mk_world (raw_of (term w)) inp
              (output w ++ prompt_bytes prompt ++ CPR_QUERY)
              fw fg fs fm (term w) true
              (Some (hist w ++ [length (heap w)]))
              (zlen (hist w))
              (heap w ++ [b1]) (errno w)).
Proof.
  intros Hbs Hroom Hmax Hwf Htg Hts Hmf Hcy Hcx Hin.
  assert (Hb1 : exists b1, blk_store (firstn (Z.to_nat bs) buf) 0 0 = Some b1).
  { destruct (blk_store (firstn (Z.to_nat bs) buf) 0 0) eqn:H; [eauto|].
    exfalso. revert H. apply blk_store_ok. unfold zlen in *.
    rewrite length_firstn. lia. }
  destruct Hb1 as [b1 Hb1].
  destruct w as [t i o wf tg ts mf os raw h hi hp e].
  cbn [term input output write_faults tcget_faults tcset_faults malloc_faults
       heap errno] in *.
  unfold rl_read_line.
  erewrite bind_done
    by (unfold assert; rewrite (proj2 (Z.ltb_lt 0 bs)) by lia; reflexivity).
  (* the prompt *)
  assert (Hp : exists fw1,
             no_fault fw1
             /\ match prompt with
                | Some p =>
                    ok <- sys_write p;;
                    or_die ok "failed to write to terminal (prompt)"
                | None => ret tt
                end (mk_world t i o wf tg ts mf os raw h hi hp e)
                = Done tt (mk_world t i (o ++ prompt_bytes prompt) fw1 tg ts
                             mf os raw h hi hp e)).
  { destruct prompt as [p|]; cbn [prompt_bytes].
    - destruct (next_fault_no_fault Hwf) as [Hn Hnf].
      exists (tl wf). split; [exact Hnf|].
      unfold bind, sys_write. simpl_world. rewrite Hn. reflexivity.
    - exists wf. split; [exact Hwf|]. now rewrite app_nil_r. }
  destruct Hp as (fw1 & Hwf1 & Hp).
  erewrite bind_done by exact Hp. clear Hp.
  (* the new entry *)
  destruct (next_fault_no_fault Hmf) as [Hnm Hmf1].
  assert (Hrd : blk_read buf 0 bs = Some (firstn (Z.to_nat bs) buf)).
  { unfold blk_read.
    destruct (Z.leb_spec 0 bs); [|lia].
    destruct (Z.leb_spec (0 + bs) (zlen buf)); [|lia]. reflexivity. }
  set (b0 := firstn (Z.to_nat bs) buf) in *.
  assert (Hlen0 : length b0 = Z.to_nat bs).
  { unfold b0. rewrite length_firstn. unfold zlen in *. lia. }
  set (v0 := hist (mk_world t i o wf tg ts mf os raw h hi hp e)).
  assert (Hadd : add_to_history buf bs
                   (mk_world t i (o ++ prompt_bytes prompt) fw1 tg ts mf os
                      raw h hi hp e)
                 = Done true
                     (mk_world t i (o ++ prompt_bytes prompt) fw1 tg ts
                        (tl mf) os raw (Some (v0 ++ [length hp])) hi
                        (hp ++ [b0]) e)).
  { unfold add_to_history, v0, hist. simpl_world.
    destruct h as [v|];
      unfold bind, get, modify, ret, malloc; simpl_world; rewrite Hnm;
      rewrite Hrd; unfold write_block, with_block; simpl_world;
      rewrite nth_error_last, <- Hlen0, blk_write_fresh; cbn [option_map];
      simpl_world; rewrite replace_nth_last; reflexivity. }
  erewrite bind_done by exact Hadd. clear Hadd. cbv beta.
  erewrite bind_done by reflexivity.
  erewrite bind_done by reflexivity. cbv beta.
  erewrite bind_done by reflexivity. cbv beta.
  erewrite bind_done by reflexivity. cbv beta. simpl_world.
  assert (Hlenv : Vector.length (v0 ++ [length hp]) = zlen v0 + 1).
  { unfold Vector.length, zlen. rewrite length_app. cbn [length]. lia. }
  rewrite Hlenv.
  pose proof (zlen_nonneg v0) as Hnn.
  replace (zlen v0 + 1 - 1) with (zlen v0) by lia.
  rewrite to_size_small by (unfold Vector.length in Hmax; fold v0 in Hmax; lia).
  erewrite bind_done
    by (unfold history_get; simpl_world; rewrite Vector_get_last; reflexivity).
  erewrite bind_done
    by (unfold store, with_block; simpl_world; rewrite nth_error_last, Hb1;
        cbn [option_map]; rewrite replace_nth_last; reflexivity).
  destruct (next_fault_no_fault Htg) as [Hng Htg1].
  destruct (next_fault_no_fault Hts) as [Hns Hts1].
  erewrite bind_done
    by (unfold enable_raw_mode, bind, tcgetattr, tcsetattr, modify, get,
          or_die, ret; simpl_world; rewrite Hng; simpl_world; rewrite Hns;
        reflexivity).
  simpl_world.
  destruct (next_fault_no_fault Hwf1) as [Hnw Hwf2].
  erewrite bind_done
    by (apply (@get_cursor_position_report _ cy0 cx0 inp (tl fw1));
        [exact Hnw|exact Hcy|exact Hcx|
         simpl_world; rewrite Hin; unfold report;
         rewrite <- app_assoc; reflexivity]).
  simpl_world.
  exists (tl fw1), (tl tg), (tl ts), (tl mf), b1.
  split; [exact Hwf2|]. split; [exact Htg1|]. split; [exact Hts1|].
  split; [exact Hmf1|]. split; [exact Hb1|].
  rewrite <- app_assoc. reflexivity.
Qed.

(** X18 ([rl_read_line]): in a session with one buffer size, when nothing
    fails and the terminal answers the position query with a report, a
    call in which printable bytes that fit are typed and Enter is pressed
    returns RL_SUCCESS with exactly these bytes, as a string, in the
    caller's array, whatever the array held before.  The terminal has
    received the prompt, the query, the bytes typed and CR LF, in this
    order; its attributes are those of before the call; the history has
    one more entry, a new block that holds the same string; the answers
    after the Enter are left unread.  The state is again one of such a
    session, with nothing left to fail, so the next call starts as this
    one did. *)
Theorem rl_read_line_returns_typed_line
        (buf : list Z) (bs : Z) (prompt : option (list Z)) (w : world)
        (s : list Z) (cy0 cx0 : Z) (rest : list read_event) :
  0 < bs <= INT_MAX -> bs <= zlen buf ->
  session_ok bs w -> Vector.length (hist w) + 1 < SIZE_MOD ->
  no_fault (write_faults w) -> no_fault (tcget_faults w) ->
  no_fault (tcset_faults w) -> no_fault (malloc_faults w) ->
  0 <= cy0 < 65536 -> 0 <= cx0 < 65536 ->
  Forall (fun k => isprint k = true) s -> zlen s < bs - 1 ->
  input w = report cy0 cx0 ++ keys s ++ RByte KEY_ENTER :: rest ->
  exists buf' w',
    rl_read_line buf bs prompt w = Done (RL_SUCCESS, buf') w'
    /\ c_string buf' = s /\ zlen buf' = zlen buf
    /\ input w' = rest
    /\ output w'
       = output w ++ prompt_bytes prompt ++ CPR_QUERY ++ s ++ [13; 10]
    /\ term w' = term w
    /\ history w' = Some (hist w ++ [length (heap w)])
    /\ option_map c_string (nth_error (heap w') (length (heap w))) = Some s
    /\ session_ok bs w'
    /\ no_fault (write_faults w') /\ no_fault (tcget_faults w')
    /\ no_fault (tcset_faults w') /\ no_fault (malloc_faults w').
Proof.
  intros Hbs Hroom Hso Hmax Hwf Htg Hts Hmf Hcy Hcx Hs Hfit Hin.
  destruct (@rl_read_line_enters buf bs prompt w cy0 cx0
              (keys s ++ RByte KEY_ENTER :: rest)
              Hbs Hroom Hmax Hwf Htg Hts Hmf Hcy Hcx Hin)
    as (fw & fg & fs & fm & b1 & Hfw & Hfg & Hfs & Hfm & Hb1 & ->).
  pose proof (fresh_line_ok buf Hbs Hroom Hb1) as Hok1.
  match goal with |- context [run_editor buf ?l0 ?w0] =>
    set (l := l0); set (w5 := w0) end.
  destruct (@fresh_entry_inv bs w w5 b1 cy0 cx0 Hbs Hso Hmax Hok1
              eq_refl eq_refl eq_refl) as (Hinv & Htt & Ht).
  destruct (@loop_then_end_typing buf (S (length (input w5))) l w5 s []
              rest Hinv eq_refl Hfw Hfs eq_refl Ht Hs ltac:(cbn; lia)
              ltac:(cbn; lia) eq_refl ltac:(lia))
    as (buf' & w' & Hrun & Hcs & Hl & Hlt & Hi & Ho & Hte & Hh & _ & Hnw
        & Hnt & Hg & Hm & Hso' & _).
  rewrite run_editor_loop.
  exists buf', w'. split; [exact Hrun|]. split; [exact Hcs|].
  split; [exact Hl|]. split; [exact Hi|].
  split; [rewrite Ho; unfold w5; simpl_world; now rewrite <- !app_assoc|].
  split; [exact Hte|]. split; [exact Hh|]. split; [exact Hlt|].
  split; [exact (Hso' Htt)|]. split; [exact Hnw|].
  split; [rewrite Hg; exact Hfg|]. split; [exact Hnt|].
  rewrite Hm; exact Hfm.
Qed.

Lemma session_ok_start (bs : Z) (inp : list read_event) :
  session_ok bs (world0 inp).
Proof. split; [constructor|intros p []]. Qed.

Lemma rl_read_line_returns_typed_line_witness :
  exists buf' w',
    rl_read_line (bytes "stale!!!") 8 (Some (bytes "> "))
      (world0 (report 24 80 ++ keys (bytes "hello" ++ [KEY_ENTER])))
    = Done (RL_SUCCESS, buf') w'
    /\ c_string buf' = bytes "hello"
    /\ output w' = bytes "> " ++ CPR_QUERY ++ bytes "hello" ++ [13; 10].
Proof.
  destruct (@rl_read_line_returns_typed_line
              (bytes "stale!!!") 8 (Some (bytes "> "))
              (world0 (report 24 80 ++ keys (bytes "hello" ++ [KEY_ENTER])))
              (bytes "hello") 24 80 []
              ltac:(cbv; split; [reflexivity|discriminate])
              ltac:(cbv; discriminate)
              (session_ok_start 8 _) eq_refl
              (Forall_nil _) (Forall_nil _) (Forall_nil _) (Forall_nil _)
              ltac:(lia) ltac:(lia)
              ltac:(repeat constructor) eq_refl eq_refl)
    as (buf' & w' & Hrun & Hcs & _ & _ & Ho & _).
  exists buf', w'. split; [exact Hrun|]. split; [exact Hcs|exact Ho].
Defined.

Lemma Vector_get_middle (h t : list ptr) (p : ptr) :
  Vector.get (h ++ p :: t) (zlen h) = Some p.
Proof.
  unfold Vector.get, zlen. rewrite length_app. cbn [length].
  destruct (Z.leb_spec 0 (Z.of_nat (length h))); [|lia].
  destruct (Z.ltb_spec (Z.of_nat (length h))
              (Z.of_nat (length h + S (length t)))); [|lia].
  cbn [andb]. rewrite Nat2Z.id.
  rewrite nth_error_app2, Nat.sub_diag by lia. reflexivity.
Qed.


(* ------------------------------------------------------------------ *)
(** ** Further properties: the domain of [isprint] *)

Lemma rl_read_line_with_edit_loop :
  rl_read_line_with edit_loop = rl_read_line.
Proof. reflexivity. Qed.

Lemma wait_byte_plain (inp : list read_event) :
  Forall plain_answer inp ->
  match wait_byte inp with
  | WByte c r => 0 <= c < 128 /\ c <> KEY_ESC /\ Forall plain_answer r
  | WError r => Forall plain_answer r
  | WBlocked => True
  end.
Proof.
  induction 1 as [|e inp He Hinp IH]; [exact I|].
  destruct e as [b| | |]; cbn [wait_byte plain_answer] in *; auto.
  rewrite schar_small by lia. tauto.
Qed.

(** with such answers every key is in the domain of [isprint] *)
Lemma read_key_plain (w : world) (k : Z) (w' : world) :
  Forall plain_answer (input w) -> read_key w = Done k w' ->
  ctype_domain k = true /\ Forall plain_answer (input w').
Proof.
  intros Hp. pose proof (wait_byte_plain Hp) as Hw.
  unfold read_key, bind, get, assert.
  destruct (raw_mode_enabled w); [|discriminate].
  destruct (wait_byte (input w)) as [c r|r|].
  - destruct Hw as (Hc & Hesc & Hr).
    destruct (Z.eqb_spec c KEY_ESC) as [|_]; [contradiction|].
    cbn [negb]. unfold modify, ret. intros [= <- <-].
    split; [|exact Hr]. unfold ctype_domain.
    apply andb_true_intro. split; apply Z.leb_le; lia.
  - unfold modify.
    destruct (@die_exits Z "failed to read input" (take_input r w))
      as [m ->].
    discriminate.
  - discriminate.
Qed.

Lemma die_rec_exits (msg : string) (w : world) :
  exists msg', die_rec 1 msg w = Exited msg' (die_world w).
Proof.
  destruct w as [? ? ? ? ? tc ? ? raw ? ? ? e].
  destruct raw; [destruct tc as [|[|] r]|];
    cbv -[Z.eqb]; try destruct (e =? 0); eexists; reflexivity.
Qed.

Ltac simpl_world_in H :=
  cbn [term input output write_faults tcget_faults tcset_faults malloc_faults
       original_state raw_mode_enabled history history_index heap errno
       set_term set_input set_output set_write_faults set_tcget_faults
       set_tcset_faults set_malloc_faults set_original_state
       set_raw_mode_enabled set_history set_history_index set_heap
       set_errno take_input] in H.

Lemma bind_ext_sat {A B} (m : M A) (f g : A -> M B) (w : world) :
  sat (m w) (fun a w' => f a w' = g a w') (fun _ _ => True) True ->
  bind m f w = bind m g w.
Proof. unfold bind. destruct (m w); cbn [sat]; intros H; auto; contradiction. Qed.

(** so the loop never calls [isprint] outside its domain *)
Lemma edit_loop_dom_plain (fuel : nat) (l : locals) (w : world) :
  Forall plain_answer (input w) ->
  edit_loop_dom fuel l w = edit_loop fuel l w.
Proof.
  revert l w. induction fuel as [|n IH]; intros l w Hp;
    cbn [edit_loop edit_loop_dom];
    destruct (num_chars l <? to_size (buf_size l - 1)); try reflexivity.
  unfold bind at 1 3.
  destruct (read_key w) as [k w1|s w1|w1|w1| |] eqn:Hk; try reflexivity.
  destruct (@read_key_plain w k w1 Hp Hk) as [Hd Hp1].
  unfold handle_key_dom. rewrite Hd.
  apply bind_ext_sat.
  eapply sat_weaken; [apply handle_key_steady| |auto|auto].
  intros [l'|l'|r] w2 Hst; try reflexivity.
  apply IH. now rewrite (steady_input Hst).
Qed.

(** the call reaches the loop with the answers that follow the position
    report *)
Lemma rl_read_line_dom_plain (buf : list Z) (bs : Z)
      (prompt : option (list Z)) (w : world) :
  Forall plain_answer (snd (read_response 16 (input w))) ->
  rl_read_line_with edit_loop_dom buf bs prompt w
  = rl_read_line buf bs prompt w.
Proof.
  intros Hp. rewrite <- rl_read_line_with_edit_loop.
  unfold rl_read_line_with.
  repeat first
    [ lazymatch goal with |- ?x = ?x => reflexivity end
    | apply bind_ext_sat
    | lazymatch goal with
      | |- sat _ _ _ _ => sat_step'
      end ].
  all: try exact I.
  all: try (lazymatch goal with
            | |- sat (die_rec 1 ?m ?w0) _ _ _ =>
                destruct (die_rec_exits m w0) as [? ->]; exact I
            end).
  all: repeat lazymatch goal with
              | |- (match ?x with _ => _ end) _ = _ => destruct x as [[? ?]|]
              end;
       try reflexivity.
  all: unfold run_editor_with, bind, get;
       rewrite edit_loop_dom_plain; [reflexivity|].
  all: simpl_world;
       match goal with
       | H : read_response 16 _ = _ |- _ =>
           simpl_world_in H; rewrite H in Hp; exact Hp
       end.
Qed.

(** X19 ([rl_read_line] and all it calls): memory safety of a session
    with one buffer size in which the keys are bytes below 128 and no ESC.
    With such answers after the position report every key handed to
    [isprint] is a value of [unsigned char]: the call in which [isprint]
    is undefined outside its domain is the same run as [rl_read_line].
    When moreover the array passed has at least [buf_size] bytes, the
    history entries are those such calls leave, and the loop that reads
    the position report is left by [break], that call makes no access
    outside a block or the array, fails no assertion, and ends: it
    returns, ends the process in [die], or waits for a key.  When it
    returns, the entries are again as such calls leave them, with the new
    one appended; the array has kept its size; after RL_SUCCESS it holds a
    string shorter than [buf_size], otherwise it has not been written. *)
Theorem rl_read_line_memory_safe (buf : list Z) (bs : Z)
        (prompt : option (list Z)) (w : world) :
  0 < bs <= INT_MAX -> bs <= zlen buf ->
  session_ok bs w -> Vector.length (hist w) + 1 < SIZE_MOD ->
  report_ends (input w) ->
  Forall plain_answer (snd (read_response 16 (input w))) ->
  rl_read_line_with edit_loop_dom buf bs prompt w
  = rl_read_line buf bs prompt w
  /\ match rl_read_line_with edit_loop_dom buf bs prompt w with
     | Done (res, buf') w' =>
         session_ok bs w' /\ hist w' = hist w ++ [length (heap w)]
         /\ zlen buf' = zlen buf
         /\ (res = RL_SUCCESS ->
             exists n, blk_strlen buf' = Some n /\ n < bs)
         /\ (res <> RL_SUCCESS -> buf' = buf)
     | Exited _ _ | Blocked _ => True
     | Aborted _ | Undefined | OutOfFuel => False
     end.
Proof.
  intros Hbs Hroom Hso Hmax Hrep Hp.
  pose proof (@rl_read_line_dom_plain buf bs prompt w Hp) as Heq.
  split; [exact Heq|]. rewrite Heq.
  pose proof (rl_read_line_session buf prompt Hbs Hroom Hso Hmax Hrep) as H.
  destruct (rl_read_line buf bs prompt w) as [[res b'] w'|m w'|w'|w'| |];
    cbn [sat fst snd] in H; auto.
Qed.

Lemma rl_read_line_memory_safe_witness :
  exists buf' w',
    rl_read_line_with edit_loop_dom (repeat 0 8) 8 None
      (world0 (cpr ++ keys (bytes "hi" ++ [KEY_ENTER])))
    = Done (RL_SUCCESS, buf') w'
    /\ session_ok 8 w' /\ blk_strlen buf' <> None.
Proof.
  pose proof (@rl_read_line_memory_safe (repeat 0 8) 8 None
                (world0 (cpr ++ keys (bytes "hi" ++ [KEY_ENTER])))
                ltac:(cbv; split; [reflexivity|discriminate])
                ltac:(cbv; discriminate)
                (session_ok_start 8 _) eq_refl eq_refl
                ltac:(repeat constructor; cbn; lia || discriminate))
    as [_ H].
  eval_run H.
  destruct H as (Hso & _ & _ & Hs & _).
  do 2 eexists. split; [exact E|]. split; [exact Hso|].
  destruct (Hs eq_refl) as (n & -> & _). discriminate.
Defined.

(* ------------------------------------------------------------------ *)
(** ** Further properties: [rl_cleanup] *)

Lemma free_lines_all (t : list ptr) :
  forall h w, history w = Some (h ++ t) -> zlen (h ++ t) < SIZE_MOD ->
              free_lines (length t) (zlen h) w = Done t w.
Proof.
  induction t as [|p t IH]; intros h w Hv Hmax; [reflexivity|].
  cbn [length free_lines]. unfold bind at 1. unfold history_get.
  rewrite Hv, Vector_get_middle.
  assert (Hl : zlen (h ++ [p]) = zlen h + 1).
  { unfold zlen. rewrite length_app. cbn [length]. lia. }
  assert (Hl2 : zlen (h ++ p :: t) = zlen h + 1 + zlen t).
  { unfold zlen. rewrite length_app. cbn [length]. lia. }
  pose proof (zlen_nonneg h). pose proof (zlen_nonneg t).
  rewrite to_size_small by lia. rewrite <- Hl.
  unfold bind. rewrite (IH (h ++ [p]) w).
  - reflexivity.
  - now rewrite <- app_assoc.
  - now rewrite <- app_assoc.
Qed.

(** [rl_cleanup] hands the lines to [free] and then looks at the flag *)
Lemma rl_cleanup_run (w : world) :
  Vector.length (hist w) < SIZE_MOD ->
  rl_cleanup w
  = ((if raw_mode_enabled w then disable_raw_mode else ret tt) ;;;
     ret (hist w)) w.
Proof.
  intros Hmax.
  assert (Hfreed : match history w with
                   | Some _ =>
                       history_len <- history_length ;;
                       free_lines (Z.to_nat history_len) 0
                   | None => ret []
                   end w = Done (hist w) w).
  { unfold hist in *. destruct (history w) as [v|] eqn:Hv; [|reflexivity].
    unfold bind, history_length. rewrite Hv.
    unfold Vector.length, zlen. rewrite Nat2Z.id.
    apply (@free_lines_all v [] w); [exact Hv|exact Hmax]. }
  unfold rl_cleanup. unfold bind at 1. unfold get at 1.
  unfold bind at 1. rewrite Hfreed. unfold bind at 1. unfold get at 1.
  reflexivity.
Qed.

(** [disable_raw_mode] returns with the saved attributes in force, or the
    process ends *)
Lemma disable_raw_mode_run (w : world) :
  raw_mode_enabled w = true ->
  match disable_raw_mode w with
  | Done _ w' =>
      w' = set_term (original_state w)
             (set_tcset_faults (snd (next_fault (tcset_faults w))) w)
      /\ fst (next_fault (tcset_faults w)) = false
  | Exited msg _ =>
      msg = "failed to disable raw mode (tcsetattr)"
      /\ fst (next_fault (tcset_faults w)) = true
  | Blocked _ | Aborted _ | Undefined | OutOfFuel => False
  end.
Proof.
  intros Hraw.
  unfold disable_raw_mode, disable_raw_mode_with, bind, get, tcsetattr.
  simpl_world.
  destruct (next_fault (tcset_faults w)) as [[|] r2]; simpl_world.
  - unfold die, bind, die_rec. simpl_world. rewrite Hraw.
    unfold bind, modify, disable_raw_mode_with, bind, get, tcsetattr.
    simpl_world.
    destruct (next_fault r2) as [[|] r3]; simpl_world;
      unfold exit_failure; cbn; auto.
  - unfold ret. cbn [fst snd]. auto.
Qed.

(** X20 ([rl_cleanup]): the call hands every history line to [free] once,
    in the order of the vector, and nothing else; after a session these
    are distinct blocks of the heap.  It then restores the saved terminal
    attributes when [raw_mode_enabled] is set.  The static [history] keeps
    pointing to the vector that was freed, and the flag stays as it
    was. *)
Theorem rl_cleanup_frees_each_line (bs : Z) (w : world) :
  session_ok bs w -> Vector.length (hist w) < SIZE_MOD ->
  match rl_cleanup w with
  | Done freed w' =>
      freed = hist w /\ NoDup freed
      /\ Forall (fun p => nth_error (heap w) p <> None) freed
      /\ heap w' = heap w /\ history w' = history w
      /\ raw_mode_enabled w' = raw_mode_enabled w
      /\ output w' = output w
      /\ (raw_mode_enabled w = true -> term w' = original_state w)
      /\ (raw_mode_enabled w = false -> w' = w)
  | Exited msg _ =>
      msg = "failed to disable raw mode (tcsetattr)"
      /\ raw_mode_enabled w = true
      /\ fst (next_fault (tcset_faults w)) = true
  | Blocked _ | Aborted _ | Undefined | OutOfFuel => False
  end.
Proof.
  intros [Hnd Hent] Hmax.
  assert (Hblocks : Forall (fun p => nth_error (heap w) p <> None) (hist w)).
  { apply Forall_forall. intros p Hp.
    destruct (Hent p Hp) as (b & n & Hb & _). congruence. }
  rewrite (rl_cleanup_run w Hmax). unfold bind at 1.
  destruct (raw_mode_enabled w) eqn:Hraw.
  - pose proof (disable_raw_mode_run w Hraw) as Hd.
    destruct (disable_raw_mode w) as [[] w'|m w'|w'|w'| |];
      try contradiction.
    + destruct Hd as [-> _]. unfold ret. simpl_world.
      do 6 (split; [first [reflexivity|assumption]|]).
      split; [reflexivity|]. split; [intros _; reflexivity|discriminate].
    + destruct Hd as [-> Hf]. auto.
  - unfold ret.
    do 7 (split; [first [reflexivity|assumption]|]).
    split; [discriminate|reflexivity].
Qed.

Lemma sample_session : session_ok 8 sample_world.
Proof.
  split.
  - repeat constructor; simpl; intuition discriminate.
  - intros p [<-|[<-|[]]]; eexists.
    + exists 3. split; [reflexivity|].
      split; [now apply sample_line_ok|reflexivity].
    + exists 2. split; [reflexivity|].
      split; [now apply sample_line_ok|reflexivity].
Qed.

Lemma rl_cleanup_frees_each_line_witness :
  exists w',
    rl_cleanup sample_world = Done [0%nat; 1%nat] w'
    /\ term w' = cooked.
Proof.
  pose proof (@rl_cleanup_frees_each_line 8 sample_world sample_session
                eq_refl) as H.
  eval_run H.
  destruct H as (_ & _ & _ & _ & _ & _ & _ & Ht & _).
  eexists. split; [exact E|]. exact (Ht eq_refl).
Defined.

(** X21 ([rl_read_line], [rl_cleanup]): [disable_raw_mode] does not clear
    [raw_mode_enabled], so after every call that returned the flag is set,
    and [rl_cleanup] calls [tcsetattr] once more.  That call asks for the
    attributes saved by the last call, which are the ones in force: the
    terminal stays as it was before the call.  The lines freed are those of
    the history, the one of this call last. *)
Theorem rl_cleanup_after_return (buf : list Z) (bs : Z)
        (prompt : option (list Z)) (w : world)
        (a : ReadLineResult * list Z) (w1 : world) :
  rl_read_line buf bs prompt w = Done a w1 ->
  Vector.length (hist w) + 1 < SIZE_MOD ->
  raw_mode_enabled w1 = true
  /\ match rl_cleanup w1 with
     | Done freed w2 =>
         term w2 = term w /\ freed = hist w ++ [length (heap w)]
         /\ fst (next_fault (tcset_faults w1)) = false
     | Exited _ _ => fst (next_fault (tcset_faults w1)) = true
     | Blocked _ | Aborted _ | Undefined | OutOfFuel => False
     end.
Proof.
  intros Hrun Hmax.
  pose proof (rl_read_line_summary buf bs prompt w) as Hs.
  rewrite Hrun in Hs. cbn [sat] in Hs. destruct Hs as (Ht & Ho & Hraw & Hh).
  split; [exact Hraw|].
  assert (Hhist : hist w1 = hist w ++ [length (heap w)])
    by (unfold hist at 1; now rewrite Hh).
  rewrite rl_cleanup_run.
  2: { rewrite Hhist. unfold Vector.length, zlen in *. rewrite length_app.
       cbn [length]. lia. }
  rewrite Hraw. unfold bind.
  pose proof (disable_raw_mode_run w1 Hraw) as Hd.
  destruct (disable_raw_mode w1) as [[] w2|m w2|w2|w2| |];
    try contradiction.
  - destruct Hd as [-> Hf]. unfold ret. simpl_world. auto.
  - apply Hd.
Qed.

Lemma rl_cleanup_after_return_witness :
  exists a w1 w2,
    rl_read_line (repeat 0 8) 8 None
      (world0 (cpr ++ keys (bytes "hi" ++ [KEY_ENTER])))
    = Done a w1
    /\ raw_mode_enabled w1 = true
    /\ rl_cleanup w1 = Done [0%nat] w2 /\ term w2 = cooked.
Proof.
  let o := eval vm_compute in
             (rl_read_line (repeat 0 8) 8 None
                (world0 (cpr ++ keys (bytes "hi" ++ [KEY_ENTER])))) in
  match o with
  | Done ?a ?w1 =>
      assert (E1 : rl_read_line (repeat 0 8) 8 None
                     (world0 (cpr ++ keys (bytes "hi" ++ [KEY_ENTER])))
                   = Done a w1) by (vm_compute; reflexivity);
      destruct (@rl_cleanup_after_return _ _ _ _ _ _ E1 eq_refl)
        as [Hraw H];
      exists a, w1
  end.
  eval_run H. destruct H as (Ht & _ & _).
  eexists. split; [exact E1|]. split; [exact Hraw|].
  split; [exact E|exact Ht].
Defined.

(* ------------------------------------------------------------------ *)
(** ** Further properties: recalling the previous line *)

(** the bytes the terminal sends for Arrow Up *)
Definition ARROW_UP_BYTES : list Z := [27; 91; 65].

Lemma next_key_arrow_up (r : list read_event) :
  next_key (keys ARROW_UP_BYTES ++ r) = Some (KEY_ARROW_UP, r).
Proof. reflexivity. Qed.

(** X22 ([rl_read_line], Arrow Up): in a session with one buffer size,
    when nothing fails and the terminal reports the cursor position, a call
    in which Arrow Up is pressed first, then printable bytes are typed, then
    Enter, returns the previous line followed by the bytes typed, provided
    they fit.  The previous line is edited where it is: after the call its
    history entry holds the longer string too, as does the new last
    entry. *)
Theorem arrow_up_recalls_previous_line
        (buf : list Z) (bs : Z) (prompt : option (list Z)) (w : world)
        (v0 : list ptr) (p : ptr) (t s : list Z) (cy0 cx0 : Z)
        (rest : list read_event) :
  0 < bs <= INT_MAX -> bs <= zlen buf ->
  session_ok bs w -> Vector.length (hist w) + 1 < SIZE_MOD ->
  no_fault (write_faults w) -> no_fault (tcget_faults w) ->
  no_fault (tcset_faults w) -> no_fault (malloc_faults w) ->
  0 <= cy0 < 65536 -> 0 <= cx0 < 65536 ->
  hist w = v0 ++ [p] ->
  option_map c_string (nth_error (heap w) p) = Some t ->
  Forall (fun k => isprint k = true) s -> zlen t + zlen s < bs - 1 ->
  input w = report cy0 cx0 ++ keys ARROW_UP_BYTES ++ keys s
            ++ RByte KEY_ENTER :: rest ->
  exists buf' w',
    rl_read_line buf bs prompt w = Done (RL_SUCCESS, buf') w'
    /\ c_string buf' = t ++ s
    /\ input w' = rest
    /\ term w' = term w
    /\ history w' = Some (hist w ++ [length (heap w)])
    /\ option_map c_string (nth_error (heap w') p) = Some (t ++ s)
    /\ option_map c_string (nth_error (heap w') (length (heap w)))
       = Some (t ++ s)
    /\ session_ok bs w'.
Proof.
  intros Hbs Hroom Hso Hmax Hwf Htg Hts Hmf Hcy Hcx Hhist Ht Hs Hfit Hin.
  pose proof (zlen_nonneg t) as Ht0. pose proof (zlen_nonneg s) as Hs0.
  set (r := keys s ++ RByte KEY_ENTER :: rest) in *.
  destruct (@rl_read_line_enters buf bs prompt w cy0 cx0
              (keys ARROW_UP_BYTES ++ r)
              Hbs Hroom Hmax Hwf Htg Hts Hmf Hcy Hcx Hin)
    as (fw & fg & fs & fm & b1 & Hfw & Hfg & Hfs & Hfm & Hb1 & ->).
  pose proof (fresh_line_ok buf Hbs Hroom Hb1) as Hok1.
  match goal with |- context [run_editor buf ?l0 ?w0] =>
    set (l := l0); set (w5 := w0) end.
  destruct (@fresh_entry_inv bs w w5 b1 cy0 cx0 Hbs Hso Hmax Hok1
              eq_refl eq_refl eq_refl) as (Hinv & Htt & _).
  fold l in Hinv, Htt.
  (* the entry recalled *)
  assert (Hp : In p (hist w)) by (rewrite Hhist; apply in_or_app; right; now left).
  destruct Hso as [Hnd Hent].
  destruct (Hent p Hp) as (b & n & Hb & Hok & Hn).
  rewrite Hb in Ht. cbn [option_map] in Ht. injection Ht as Ht.
  pose proof (c_string_length b (line_strlen Hok)) as Hlen.
  rewrite Ht in Hlen.
  assert (Hzl : zlen (hist w) = zlen v0 + 1).
  { rewrite Hhist. unfold zlen. rewrite length_app. cbn [length]. lia. }
  pose proof (zlen_nonneg v0) as Hv0.
  (* Arrow Up *)
  assert (Hguard : num_chars l < to_size (buf_size l - 1)).
  { unfold l. cbn [num_chars buf_size]. rewrite to_size_small; [lia|].
    unfold SIZE_MOD, INT_MAX in *. lia. }
  pose proof (editor_inv_take_input r Hinv) as Hinv5.
  destruct (@handle_key_up l (take_input r w5) (hist w ++ [length (heap w)])
              Hinv5 Hguard eq_refl
              ltac:(unfold w5; cbn [history_index set_input take_input set_errno]; lia) Hfw)
    as (p' & b' & n' & w6 & Hget & Hb' & Hok' & Hrun & Hinv6 & Hheap & Hidx
        & Hst & Hnf6).
  assert (p' = p) as ->.
  { unfold w5 in Hget. cbn [history_index set_input take_input set_errno] in Hget.
    rewrite Hhist in Hget. rewrite <- app_assoc in Hget. cbn [app] in Hget.
    replace (zlen (v0 ++ [p]) - 1) with (zlen v0) in Hget
      by (rewrite <- Hhist; lia).
    rewrite Vector_get_middle in Hget. now injection Hget. }
  assert (b' = b) as ->.
  { unfold w5 in Hb'. cbn [heap set_input take_input set_errno] in Hb'.
    rewrite nth_error_app1 in Hb' by (apply nth_error_Some; congruence).
    congruence. }
  assert (n' = n) as ->.
  { pose proof (line_strlen Hok) as H1. pose proof (line_strlen Hok') as H2.
    congruence. }
  set (l1 := set_num_chars n (set_cursor_pos n (set_current_buf p l))) in *.
  pose proof (@handle_key_tight l KEY_ARROW_UP (take_input r w5) Hinv5 Htt
                Hguard) as Htt6.
  rewrite Hrun in Htt6. cbn [sat] in Htt6. destruct Htt6 as [Htt6 _].
  rewrite run_editor_loop.
  rewrite (@loop_then_end_key buf (length (input w5)) l l1 w5 w6
             KEY_ARROW_UP r Hguard eq_refl (next_key_arrow_up r) Hrun).
  (* the bytes typed, and Enter *)
  destruct (@loop_then_end_typing buf (length (input w5)) l1 w6 s t rest
              Hinv6
              ltac:(now rewrite (steady_raw Hst))
              Hnf6
              ltac:(now rewrite (steady_tcset Hst))
              eq_refl
              ltac:(unfold line_text; rewrite Hheap;
                    change (current_buf l1) with p;
                    now rewrite Hb'; cbn [option_map]; rewrite Ht)
              Hs
              ltac:(unfold l1, l; cbn [num_chars buf_size set_num_chars
                                       set_cursor_pos set_current_buf]; lia)
              ltac:(unfold l1, l; cbn [buf_size set_num_chars
                                       set_cursor_pos set_current_buf]; lia)
              ltac:(now rewrite (steady_input Hst))
              ltac:(rewrite (steady_input Hst); unfold w5;
                    cbn [input set_input take_input set_errno]; rewrite (length_app (keys _));
                    cbn [length keys map ARROW_UP_BYTES]; lia))
    as (buf' & w' & Hrun' & Hcs & _ & Hlt & Hi & _ & Hte & Hh & _ & _
        & _ & _ & _ & Hso' & Hlast).
  exists buf', w'. split; [exact Hrun'|]. split; [exact Hcs|].
  split; [exact Hi|].
  split; [rewrite Hte; now rewrite (steady_original Hst)|].
  split; [rewrite Hh; now rewrite (steady_history Hst)|].
  split; [exact Hlt|].
  split.
  - apply (Hlast (hist w ++ [length (heap w)])).
    + now rewrite (steady_history Hst).
    + replace (Vector.length (hist w ++ [length (heap w)]) - 1)
        with (zlen (hist w)).
      * apply Vector_get_last.
      * unfold Vector.length, zlen. rewrite length_app. cbn [length]. lia.
  - exact (Hso' Htt6).
Qed.

(** between two calls: "abc" and "hi" have been read *)
Definition two_lines_read (inp : list read_event) : world :=
  mk_world cooked inp [] [] [] [] [] cooked true
    (Some [0%nat; 1%nat]) 2
    [ [97; 98; 99; 0; 0; 0; 0; 0]; [104; 105; 0; 7; 7; 7; 7; 7] ] 0.

Lemma arrow_up_recalls_previous_line_witness :
  (* Arrow Up recalls "hi"; "!" is typed after it *)
  exists buf' w',
    rl_read_line (repeat 0 8) 8 None
      (two_lines_read (report 7 1 ++ keys ARROW_UP_BYTES
                       ++ keys (bytes "!") ++ [RByte KEY_ENTER]))
    = Done (RL_SUCCESS, buf') w'
    /\ c_string buf' = bytes "hi!"
    /\ option_map c_string (nth_error (heap w') 1%nat) = Some (bytes "hi!").
Proof.
  destruct (@arrow_up_recalls_previous_line
              (repeat 0 8) 8 None
              (two_lines_read (report 7 1 ++ keys ARROW_UP_BYTES
                               ++ keys (bytes "!") ++ [RByte KEY_ENTER]))
              [0%nat] 1%nat (bytes "hi") (bytes "!") 7 1 []
              ltac:(cbv; split; [reflexivity|discriminate])
              ltac:(cbv; discriminate)
              sample_session eq_refl
              (Forall_nil _) (Forall_nil _) (Forall_nil _) (Forall_nil _)
              ltac:(lia) ltac:(lia) eq_refl eq_refl
              ltac:(repeat constructor) eq_refl eq_refl)
    as (buf' & w' & Hrun & Hcs & _ & _ & _ & Hp & _).
  exists buf', w'. split; [exact Hrun|]. split; [exact Hcs|exact Hp].
Defined.
